(** * Voice front-end for MCPHost: text sanitizers, process dispatch and exit check

    A shallow embedding of [src/src/voice_mcp/text_utils.py],
    [src/src/voice_mcp/mcphost_runner.py] and the exit test of
    [src/src/voice_mcp/voice_mcphost.py].

    Python strings are sequences of Unicode code points: a [pystr] is a list
    of code points, each an [N].  String literals of the source are written
    with [lit]. *)

From Stdlib Require Import List NArith ZArith QArith Bool Lia Arith String Ascii.
Import ListNotations.
Local Open Scope N_scope.
Local Open Scope list_scope.

(** ** Python strings *)

Module PyStr.

Definition char := N.
Definition pystr := list char.

(** An ASCII literal of the source as a code-point list. *)
Definition lit (s : string) : pystr := map N_of_ascii (list_ascii_of_string s).

(** [len(s)] *)
Definition len (s : pystr) : nat := List.length s.

(** [s.startswith(p)] *)
Fixpoint startswith (p s : pystr) : bool :=
  match p, s with
  | [], _ => true
  | _ :: _, [] => false
  | a :: p', b :: s' => (a =? b) && startswith p' s'
  end.

(** [sub in s] for strings: [sub] occurs somewhere in [s]. *)
Fixpoint contains (sub s : pystr) : bool :=
  startswith sub s ||
  match s with
  | [] => false
  | _ :: s' => contains sub s'
  end.

(** [s1 == s2] *)
Fixpoint str_eqb (s1 s2 : pystr) : bool :=
  match s1, s2 with
  | [], [] => true
  | a :: s1', b :: s2' => (a =? b) && str_eqb s1' s2'
  | _, _ => false
  end.

(** Left-to-right scan shared by [str.replace] and [re.sub]: at each position
    the matcher [m] is tried on the rest of the text; on a match of length [n]
    (always positive here) its replacement is emitted and the scan resumes
    [n] characters further, otherwise the character is copied.  [skip] counts
    the characters of the current match still to be passed over. *)
Fixpoint scan (m : pystr -> option (pystr * nat)) (skip : nat) (s : pystr) : pystr :=
  match s with
  | [] => []
  | c :: s' =>
      match skip with
      | S k => scan m k s'
      | O =>
          match m s with
          | Some (r, n) => r ++ scan m (Nat.pred n) s'
          | None => c :: scan m 0 s'
          end
      end
  end.

(** [s.replace(old, new)] for a non-empty [old] (every call site of the
    source passes a non-empty literal). *)
Definition replace (old new s : pystr) : pystr :=
  scan (fun t => if startswith old t then Some (new, len old) else None) 0 s.

(** [str.isspace] on one code point, which is also what [\s] matches in a
    [str] pattern and what [str.strip()] removes. *)
Definition isspace (c : char) : bool :=
  ((9 <=? c) && (c <=? 13)) || ((28 <=? c) && (c <=? 32)) ||
  (c =? 133) || (c =? 160) || (c =? 5760) ||
  ((8192 <=? c) && (c <=? 8202)) ||
  (c =? 8232) || (c =? 8233) || (c =? 8239) || (c =? 8287) || (c =? 12288).

Fixpoint lstrip (s : pystr) : pystr :=
  match s with
  | [] => []
  | c :: s' => if isspace c then lstrip s' else s
  end.

Definition rstrip (s : pystr) : pystr := rev (lstrip (rev s)).

(** [s.strip()] *)
Definition strip (s : pystr) : pystr := rstrip (lstrip s).

(** [s.split('\n')]: never empty, one more piece than there are newlines. *)
Fixpoint split_nl (s : pystr) : list pystr :=
  match s with
  | [] => [[]]
  | c :: s' =>
      if c =? 10 then [] :: split_nl s'
      else match split_nl s' with
           | l :: ls => (c :: l) :: ls
           | [] => [[c]]
           end
  end.

(** [' '.join(parts)] *)
Fixpoint join_sp (parts : list pystr) : pystr :=
  match parts with
  | [] => []
  | [p] => p
  | p :: ps => p ++ 32 :: join_sp ps
  end.

(** The longest prefix of [s] whose characters all satisfy [p]. *)
Fixpoint span_len (p : char -> bool) (s : pystr) : nat :=
  match s with
  | [] => O
  | c :: s' => if p c then S (span_len p s') else O
  end.

End PyStr.

Import PyStr.

(** ** text_utils.py *)

Module TextUtils.

(** [\[([^\]]+)\]\([^\)]+\)] anchored at the start of [s].  Each negated class
    is followed by the very character it excludes, so the greedy run has to
    stop exactly at the first such character: the match is unique.  Returns
    group 1 and the length of the whole match. *)
Definition match_link (s : pystr) : option (pystr * nat) :=
  match s with
  | 91 :: s1 =>
      let n1 := span_len (fun c => negb (c =? 93)) s1 in
      match n1, skipn n1 s1 with
      | S _, 93 :: 40 :: s2 =>
          let n2 := span_len (fun c => negb (c =? 41)) s2 in
          match n2, skipn n2 s2 with
          | S _, 41 :: _ => Some (firstn n1 s1, (n1 + n2 + 4)%nat)
          | _, _ => None
          end
      | _, _ => None
      end
  | _ => None
  end.

(** [re.sub(r'\[([^\]]+)\]\([^\)]+\)', r'\1', text)] *)
Definition sub_links (s : pystr) : pystr := scan match_link 0 s.

(** The [replacements] dictionary, in insertion order (the order in which
    [replacements.items()] yields it). *)
Definition replacements : list (pystr * pystr) :=
  [ (lit "CLI", lit "command line");
    (lit "API", lit "A P I");
    (lit "JSON", lit "J SON");
    (lit "HTTP", lit "H T T P");
    (lit "URL", lit "U R L");
    (lit "SSH", lit "S S H");
    (lit "CPU", lit "C P U");
    (lit "GPU", lit "G P U");
    (lit "RAM", lit "R A M") ].

(** [for term, replacement in replacements.items(): text = text.replace(...)] *)
Definition apply_replacements (rs : list (pystr * pystr)) (s : pystr) : pystr :=
  fold_left (fun t tr => replace (fst tr) (snd tr) t) rs s.

Definition truncation_notice : pystr := lit "... The response was truncated for speech.".

(** The text of [clean_text_for_speech] just before the length test: the
    formatting removal, the link rewriting and the acronym replacement. *)
Definition speech_body (text : pystr) : pystr :=
  let text := replace (lit "**") [] text in
  let text := replace (lit "*") [] text in
  let text := replace (lit "#") [] text in
  let text := replace (lit "`") [] text in
  let text := replace (lit "```") [] text in
  let text := sub_links text in
  apply_replacements replacements text.

Definition clean_text_for_speech (text : pystr) : pystr :=
  let text := speech_body text in
  if (500 <? len text)%nat then firstn 500 text ++ truncation_notice else text.

Definition skip_patterns : list pystr :=
  [ lit "DEBUG"; lit "INFO"; lit "2025/"; lit "creating message";
    lit "sending messages"; [27]; lit "ESC"; lit "command:"; lit "args:";
    lit "buffer"; lit "before"; lit "after" ].

(** The three tests of the loop body that make a line be skipped. *)
Definition skipped (line : pystr) : bool :=
  existsb (fun skip => contains skip line) skip_patterns
  || str_eqb (strip line) []
  || ((0 <? len (strip line))%nat
      && (Nat.div (len line) 2 <? len (filter (fun c => N.ltb c 32) line))%nat).

Fixpoint clean_lines (lines : list pystr) : list pystr :=
  match lines with
  | [] => []
  | line :: rest =>
      if skipped line then clean_lines rest else strip line :: clean_lines rest
  end.

(** [[\x00-\x1f\x7f-\x9f]] *)
Definition is_control (c : char) : bool :=
  (c <=? 31) || ((127 <=? c) && (c <=? 159)).

(** [<[^>]+>] anchored at the start of [s]. *)
Definition match_tag (s : pystr) : option (pystr * nat) :=
  match s with
  | 60 :: s1 =>
      let n := span_len (fun c => negb (c =? 62)) s1 in
      match n, skipn n s1 with
      | S _, 62 :: _ => Some ([], (n + 2)%nat)
      | _, _ => None
      end
  | _ => None
  end.

(** [\s+] anchored at the start of [s], replaced by one space. *)
Definition match_ws (s : pystr) : option (pystr * nat) :=
  match span_len isspace s with
  | O => None
  | n => Some ([32], n)
  end.

(** The clean-up of the joined text. *)
Definition tidy (result : pystr) : pystr :=
  let result := filter (fun c => negb (is_control c)) result in
  let result := scan match_tag 0 result in
  let result := scan match_ws 0 result in
  strip result.

(** [response] is [None] or a string; [not response] holds for [None] and
    for the empty string. *)
Definition clean_mcphost_response (response : option pystr) : pystr :=
  match response with
  | None => []
  | Some [] => []
  | Some r => tidy (join_sp (clean_lines (split_nl r)))
  end.

End TextUtils.

Import TextUtils.


(** ** mcphost_runner.py *)

Module Runner.

(** Exceptions of class [Exception]: [ImportError] is told apart because
    [run_mcphost] has a handler of its own for it.  [str(e)] is the message.
    [KeyboardInterrupt] is not an [Exception]; it is the interruption signal
    that [run_interactive] handles, and is not a failure of an exchange. *)
Inductive pyexn : Type :=
| ImportError (msg : pystr)
| OtherException (msg : pystr).

Definition exn_str (e : pyexn) : pystr :=
  match e with
  | ImportError m => m
  | OtherException m => m
  end.

Inductive pipe : Type := Stdout | Stderr.

(** The calls that reach outside the program, in the order they are made.
    The calls to [print] are left out: they only write to the console.  Every
    call is taken to return or to raise; a call that never comes back (a
    [readline] on a pipe on which nothing arrives, a [write] to a full pipe)
    has no answer here. *)
Inductive event : Type :=
| EPopen (cmd : list pystr)
| EWrite (data : pystr)
| EFlush
| ETime
| EPoll
| ESelect (p : pipe) (timeout : Q)
| EReadline (p : pipe)
| ESleep (seconds : Q)
| ETerminate
| EWait (timeout : Q)
| EKill
| EPexpect (prompt : pystr).

(** What the outside answers to one call. *)
Inductive answer (A : Type) : Type :=
| Returns (a : A)
| Raises (e : pyexn).
Arguments Returns {A} a.
Arguments Raises {A} e.

(** What a computation does: it returns, it raises, or the polling loop was
    still running when the fuel ran out. *)
Inductive outcome (A : Type) : Type :=
| Ok (a : A)
| Raise (e : pyexn)
| Diverge.
Arguments Ok {A} a.
Arguments Raise {A} e.
Arguments Diverge {A}.

(** A computation: the calls it made, in order, and how it ended. *)
Definition M (A : Type) : Type := (list event * outcome A)%type.

Definition ret {A} (a : A) : M A := ([], Ok a).

Definition bind {A B} (m : M A) (f : A -> M B) : M B :=
  match m with
  | (t, Ok a) => let (t', r) := f a in (t ++ t', r)
  | (t, Raise e) => (t, Raise e)
  | (t, Diverge) => (t, Diverge)
  end.

Notation "x <- m ;; k" := (bind m (fun x => k))
  (at level 61, m at next level, right associativity).
Notation "m ;;; k" := (bind m (fun _ => k))
  (at level 61, right associativity).

(** One call to the outside, answered by [a]. *)
Definition call {A} (ev : event) (a : answer A) : M A :=
  match a with
  | Returns x => ([ev], Ok x)
  | Raises e => ([ev], Raise e)
  end.

(** [try: m  except Exception as e: h e] and the bare [except:], which do the
    same on the exceptions modelled here. *)
Definition try_except {A} (m : M A) (h : pyexn -> M A) : M A :=
  match m with
  | (t, Raise e) => let (t', r) := h e in (t ++ t', r)
  | other => other
  end.

(** The process and the clock as seen by one call of [run_mcphost_basic].
    The answers of the polling loop are indexed by the iteration in which the
    call is made. *)
Record env : Type := {
  win32 : bool;                               (* sys.platform == "win32" *)
  popen_r : answer unit;                      (* subprocess.Popen(...) *)
  write_r : nat -> answer unit;               (* n-th process.stdin.write *)
  flush_r : nat -> answer unit;               (* n-th process.stdin.flush *)
  clock : nat -> Q;                           (* n-th time.time() *)
  poll_r : nat -> answer (option Z);          (* process.poll() *)
  select_r : pipe -> nat -> answer bool;      (* select.select([pipe],..): ready? *)
  readline_r : pipe -> nat -> answer pystr;   (* pipe.readline() *)
  terminate_r : answer unit;                  (* process.terminate() *)
  wait_r : answer unit;                       (* process.wait(timeout=2) *)
  kill_r : answer unit;                       (* process.kill() *)
  pexpect_r : answer pystr                    (* the pexpect exchange up to child.close() *)
}.

Record MCPHostRunner : Type := {
  model : pystr;
  config_path : pystr;
  response_timeout : Z
}.

Definition Qltb (a b : Q) : bool := negb (Qle_bool b a).

Section WithEnv.

Variable E : env.
Variable self : MCPHostRunner.

Definition _read_line_with_timeout (p : pipe) (timeout : Q) (i : nat)
  : M (option pystr) :=
  if win32 E then
    try_except
      (line <- call (EReadline p) (readline_r E p i) ;; ret (Some line))
      (fun _ => ret None)
  else
    ready <- call (ESelect p timeout) (select_r E p i) ;;
    if (ready : bool) then
      try_except
        (line <- call (EReadline p) (readline_r E p i) ;; ret (Some line))
        (fun _ => ret None)
    else ret None.

(** [s += line] when a line was read. *)
Definition append_line (s : pystr) (line : option pystr) : pystr :=
  match line with
  | Some l => s ++ l
  | None => s
  end.

(** The body of the [while] loop, one iteration.  [inl] is [break], [inr]
    goes on to the next test of the loop condition; both carry
    [all_output] and [stderr_output] as they stand at that point.  An
    exception raised in the body is caught inside the loop and breaks. *)
Definition poll_body (stderr_timeout : Q) (i : nat) (all_output stderr_output : pystr)
  : M ((pystr * pystr) + (pystr * pystr)) :=
  try_except
    (status <- call EPoll (poll_r E i) ;;
     match status with
     | Some _ => ret (inl (all_output, stderr_output))
     | None =>
         try_except
           (line <- _read_line_with_timeout Stdout 1 i ;;
            let all_output := append_line all_output line in
            try_except
              (stderr_line <- _read_line_with_timeout Stderr stderr_timeout i ;;
               ret (inr (all_output, append_line stderr_output stderr_line)))
              (fun _ => ret (inl (all_output, stderr_output))))
           (fun _ => ret (inl (all_output, stderr_output)))
     end)
    (fun _ => ret (inl (all_output, stderr_output))).

(** [while time.time() - start_time < self.response_timeout: ...]; the
    iteration [i] reads the clock for the [S i]-th time. *)
Fixpoint poll_loop (fuel : nat) (stderr_timeout : Q) (start_time : Q) (i : nat)
    (all_output stderr_output : pystr) : M (pystr * pystr) :=
  match fuel with
  | O => ([], Diverge)
  | S fuel' =>
      now <- call ETime (Returns (clock E (S i))) ;;
      if Qltb (now - start_time) (inject_Z (response_timeout self)) then
        r <- poll_body stderr_timeout i all_output stderr_output ;;
        match r with
        | inl acc => ret acc
        | inr (all_output, stderr_output) =>
            poll_loop fuel' stderr_timeout start_time (S i) all_output stderr_output
        end
      else ret (all_output, stderr_output)
  end.

Definition cmd : list pystr :=
  [lit "mcphost"; lit "-m"; model self; lit "--config"; config_path self].

(** [run_mcphost_basic]; [stderr_timeout] is the timeout of the read of
    stderr, the one constant in which the function of [mcphost_runner.py]
    and its copy in [test.py] differ. *)
Definition run_mcphost_basic_with (stderr_timeout : Q) (fuel : nat) (prompt : pystr)
  : M pystr :=
  try_except
    (call (EPopen cmd) (popen_r E) ;;;
     call (EWrite (prompt ++ [10])) (write_r E 0) ;;;
     call EFlush (flush_r E 0) ;;;
     start_time <- call ETime (Returns (clock E 0)) ;;
     acc <- poll_loop fuel stderr_timeout start_time 0 [] [] ;;
     try_except
       (call (EWrite (lit "quit" ++ [10])) (write_r E 1) ;;;
        call EFlush (flush_r E 1) ;;;
        call (ESleep (1 # 2)) (Returns tt))
       (fun _ => ret tt) ;;;
     try_except
       (call ETerminate (terminate_r E) ;;;
        call (EWait 2) (wait_r E))
       (fun _ => call EKill (kill_r E)) ;;;
     ret (lit "STDOUT:" ++ [10] ++ fst acc ++ [10; 10] ++ lit "STDERR:" ++ [10] ++ snd acc))
    (fun e => ret (lit "Error running MCPHost: " ++ exn_str e)).

(** [mcphost_runner.py]: both reads wait [1.0]. *)
Definition run_mcphost_basic : nat -> pystr -> M pystr :=
  run_mcphost_basic_with 1.

(** [test.py]: the read of stderr waits [0.1]. *)
Definition run_mcphost_basic_test_py : nat -> pystr -> M pystr :=
  run_mcphost_basic_with (1 # 10).

(** [run_mcphost_with_pexpect]: the exchange over the pseudo-terminal is one
    call to the outside; what the function adds is the default text for an
    empty capture and the handler that turns every exception into a text. *)
Definition run_mcphost_with_pexpect (prompt : pystr) : M pystr :=
  try_except
    (response_text <- call (EPexpect prompt) (pexpect_r E) ;;
     ret (match response_text with
          | [] => lit "No response text captured"
          | _ => response_text
          end))
    (fun e => ret (lit "Error with pexpect approach: " ++ exn_str e)).

End WithEnv.

(** The body of [run_mcphost] over any two strategies: the secondary one is
    run only in the handler of the primary one. *)
Definition run_mcphost_over (basic pexpect : M pystr) : M pystr :=
  try_except basic
    (fun e =>
       try_except pexpect
         (fun e2 =>
            match e2 with
            | ImportError _ =>
                ret (lit "Both approaches failed and pexpect not available")
            | OtherException _ =>
                ret (lit "Both approaches failed. Basic: " ++ exn_str e
                       ++ lit ", Pexpect: " ++ exn_str e2)
            end)).

Definition run_mcphost (E : env) (self : MCPHostRunner) (fuel : nat) (prompt : pystr)
  : M pystr :=
  run_mcphost_over (run_mcphost_basic E self fuel prompt)
                   (run_mcphost_with_pexpect E prompt).

End Runner.

Import Runner.

(** ** voice_mcphost.py: the exit test of [run_interactive] *)

Module Loop.

(** [str.lower()] is a builtin.  On a text of ASCII characters it maps
    [A]..[Z] to [a]..[z] and leaves the rest; on any other text it is the
    Unicode lower-casing, which is taken as the parameter [unicode_lower]. *)
Definition ascii_lower (c : char) : char :=
  if (65 <=? c) && (c <=? 90) then c + 32 else c.

Definition lower (unicode_lower : pystr -> pystr) (s : pystr) : pystr :=
  if forallb (fun c => c <? 128) s then map ascii_lower s else unicode_lower s.

Definition exit_commands : list pystr :=
  [lit "exit"; lit "quit"; lit "goodbye"; lit "stop"; lit "bye"].

(** [x in xs] on a list of strings. *)
Definition str_in (x : pystr) (xs : list pystr) : bool :=
  existsb (str_eqb x) xs.

(** What one turn of the [while True] loop does with the value returned by
    [record_and_transcribe]. *)
Inductive turn : Type :=
| NoInput                        (* [continue]: back to recording *)
| Exit                           (* goodbye message, then [break] *)
| Dispatch (user_input : pystr). (* [self.mcphost.run_mcphost(user_input)] *)

Definition run_interactive_turn (unicode_lower : pystr -> pystr)
    (user_input : option pystr) : turn :=
  match user_input with
  | None => NoInput
  | Some [] => NoInput
  | Some s =>
      if str_in (lower unicode_lower s) exit_commands then Exit else Dispatch s
  end.

End Loop.

Import Loop.

(** ** Predicates used in the statements *)

Module Props.

(** Some suffix of [s] is matched by [m]: a scan of [s] has something to
    replace. *)
Fixpoint has_match (m : pystr -> option (pystr * nat)) (s : pystr) : bool :=
  match s with
  | [] => false
  | _ :: s' =>
      match m s with
      | Some _ => true
      | None => has_match m s'
      end
  end.

(** [s] holds a markdown link, as the pattern of [sub_links] sees it. *)
Definition has_link (s : pystr) : bool := has_match match_link s.

(** [s] holds one of the substrings of the denylist. *)
Definition has_skip_pattern (s : pystr) : bool :=
  existsb (fun skip => contains skip s) skip_patterns.

(** Every whitespace character of [s] is a space, and no two are adjacent:
    the shape in which the collapse of whitespace leaves a text. *)
Fixpoint ws_norm (s : pystr) : bool :=
  match s with
  | [] => true
  | c :: s' =>
      (if isspace c
       then (c =? 32) && negb (match s' with d :: _ => isspace d | [] => false end)
       else true)
      && ws_norm s'
  end.

(** [x] occurs in [t] as a substring. *)
Definition occurs (x t : pystr) : Prop := exists u v, t = u ++ x ++ v.

(** No proper, non-empty suffix of [old] is a prefix of it: two occurrences
    of [old] in a text never overlap. *)
Definition borderless (old : pystr) : bool :=
  forallb (fun k => negb (startswith (skipn k old) old)) (seq 1 (len old - 1)).

Definition mem (c : char) (x : pystr) : bool := existsb (N.eqb c) x.

(** Sufficient for [replace old new] to leave no occurrence of [x] that was
    not in the text already: [new] splits into a prefix of [old], a middle
    part whose first and last characters are not in [x], and a proper suffix
    of [old]; [x] does not occur in [new]; and [old] is borderless. *)
Definition split_ok (x old new : pystr) (ka kb : nat) : bool :=
  let a := firstn ka new in
  let inner := firstn kb (skipn ka new) in
  let b := skipn kb (skipn ka new) in
  startswith a old && startswith (rev b) (rev old) && (len b <? len old)%nat
  && match inner with c :: _ => negb (mem c x) | [] => false end
  && match rev inner with c :: _ => negb (mem c x) | [] => false end
  && negb (contains x new) && borderless old
  && negb (str_eqb x []) && negb (str_eqb old []).

Definition pair_ok (x old new : pystr) : bool :=
  existsb (fun ka => existsb (fun kb => split_ok x old new ka kb) (seq 0 (S (len new))))
          (seq 0 (S (len new))).

(** [pair_ok] for every replacement of the list against its own term and
    all the terms before it ([done], the latest first). *)
Fixpoint chain_ok (done : list pystr) (rs : list (pystr * pystr)) : bool :=
  match rs with
  | [] => true
  | (old, new) :: rest =>
      forallb (fun x => pair_ok x old new) (old :: done) && chain_ok (old :: done) rest
  end.

(** The invariant of a scan for [x]: [lout] is the text written so far and
    [w] the end of the text read so far that still matters.  Every suffix of
    [lout] made of characters of [x] is a suffix of [w]; no occurrence of
    [x] in the text read starts inside [w]; [x] does not occur in [lout]. *)
Definition scan_inv (x lout w s : pystr) : Prop :=
  (forall z1 z, lout = z1 ++ z -> (forall c, In c z -> In c x) ->
                exists w1, w = w1 ++ z) /\
  (forall w1 w2, w = w1 ++ w2 -> w2 <> [] -> startswith x (w2 ++ s) = false) /\
  ~ occurs x lout.

(** In [s], [x] starts only where [old] starts. *)
Definition local_to (x old s : pystr) : Prop :=
  forall t1 t2, s = t1 ++ t2 -> startswith x t2 = true -> startswith old t2 = true.

(** Not one of [*], [#] and the backquote, the characters that
    [clean_text_for_speech] removes. *)
Definition plain (c : char) : bool :=
  negb (c =? 42) && negb (c =? 35) && negb (c =? 96).

(** The text accumulated from the lines [line 0 .. line (k-1)], the way the
    polling loop appends them. *)
Fixpoint accumulate (line : nat -> option pystr) (k : nat) : pystr :=
  match k with
  | O => []
  | S k' => append_line (accumulate line k') (line k')
  end.

(** The text returned by [run_mcphost_basic] when it reaches its [return]. *)
Definition labelled (all_output stderr_output : pystr) : pystr :=
  lit "STDOUT:" ++ [10] ++ all_output ++ [10; 10] ++ lit "STDERR:" ++ [10] ++ stderr_output.

End Props.

Import Props.

(** ** Concrete runs *)

Module Scenarios.

Definition demo : MCPHostRunner :=
  {| model := lit "ollama:qwen3:8b";
     config_path := lit "/home/nihal/config.json";
     response_timeout := 3 |}.

(** A child that stays alive and never writes; every turn of the loop takes
    two seconds, the two waits of one second each. *)
Definition env_silent : env :=
  {| win32 := false;
     popen_r := Returns tt;
     write_r := fun _ => Returns tt;
     flush_r := fun _ => Returns tt;
     clock := fun n => inject_Z (2 * Z.of_nat n);
     poll_r := fun _ => Returns None;
     select_r := fun _ _ => Returns false;
     readline_r := fun _ _ => Returns [];
     terminate_r := Returns tt;
     wait_r := Returns tt;
     kill_r := Returns tt;
     pexpect_r := Returns (lit "pty") |}.

(** The same child, which writes one line to stdout in the first turn. *)
Definition env_one_line : env :=
  {| win32 := false;
     popen_r := Returns tt;
     write_r := fun _ => Returns tt;
     flush_r := fun _ => Returns tt;
     clock := fun n => inject_Z (2 * Z.of_nat n);
     poll_r := fun _ => Returns None;
     select_r := fun p i => match p, i with Stdout, O => Returns true | _, _ => Returns false end;
     readline_r := fun _ _ => Returns (lit "Hello" ++ [10]);
     terminate_r := Returns tt;
     wait_r := Returns tt;
     kill_r := Returns tt;
     pexpect_r := Returns (lit "pty") |}.

(** [mcphost] is not installed: [subprocess.Popen] raises. *)
Definition env_no_mcphost : env :=
  {| win32 := false;
     popen_r := Raises (OtherException (lit "[Errno 2] No such file or directory: 'mcphost'"));
     write_r := fun _ => Returns tt;
     flush_r := fun _ => Returns tt;
     clock := fun n => inject_Z (2 * Z.of_nat n);
     poll_r := fun _ => Returns None;
     select_r := fun _ _ => Returns false;
     readline_r := fun _ _ => Returns [];
     terminate_r := Returns tt;
     wait_r := Returns tt;
     kill_r := Returns tt;
     pexpect_r := Returns (lit "pty") |}.

(** The child is spawned and stays alive, but has closed its standard input:
    the write of the prompt raises. *)
Definition env_broken_pipe : env :=
  {| win32 := false;
     popen_r := Returns tt;
     write_r := fun _ => Raises (OtherException (lit "[Errno 32] Broken pipe"));
     flush_r := fun _ => Returns tt;
     clock := fun n => inject_Z (2 * Z.of_nat n);
     poll_r := fun _ => Returns None;
     select_r := fun _ _ => Returns false;
     readline_r := fun _ _ => Returns [];
     terminate_r := Returns tt;
     wait_r := Returns tt;
     kill_r := Returns tt;
     pexpect_r := Returns (lit "pty") |}.

End Scenarios.

Import Scenarios.

(** ** Effects of the remaining functions *)

Module Eff.

(** How a computation ends: with a value, with an exception, or still
    inside a loop when the fuel ran out. *)
Inductive out (Ex A : Type) : Type :=
| Val (a : A)
| Exn (e : Ex)
| Hang.
Arguments Val {Ex A} a.
Arguments Exn {Ex A} e.
Arguments Hang {Ex A}.

(** The calls made, in order, and the end. *)
Definition W (Ev Ex A : Type) : Type := (list Ev * out Ex A)%type.

Definition ret {Ev Ex A} (a : A) : W Ev Ex A := ([], Val a).

Definition bind {Ev Ex A B} (m : W Ev Ex A) (f : A -> W Ev Ex B) : W Ev Ex B :=
  match m with
  | (t, Val a) => let (t', r) := f a in (t ++ t', r)
  | (t, Exn e) => (t, Exn e)
  | (t, Hang) => (t, Hang)
  end.

Definition raise {Ev Ex A} (e : Ex) : W Ev Ex A := ([], Exn e).

(** One call to the outside: it returns [a] or raises [e]. *)
Definition call {Ev Ex A} (ev : Ev) (a : Ex + A) : W Ev Ex A :=
  match a with
  | inr x => ([ev], Val x)
  | inl e => ([ev], Exn e)
  end.

(** [try: m except ...]: [h e] is the handler when the clauses catch [e],
    and [None] when they let it through. *)
Definition catch {Ev Ex A} (m : W Ev Ex A) (h : Ex -> option (W Ev Ex A)) : W Ev Ex A :=
  match m with
  | (t, Exn e) =>
      match h e with
      | Some k => let (t', r) := k in (t ++ t', r)
      | None => (t, Exn e)
      end
  | other => other
  end.

(** [try: m finally: f]. *)
Definition finally {Ev Ex A} (m : W Ev Ex A) (f : W Ev Ex unit) : W Ev Ex A :=
  match m with
  | (t, Hang) => (t, Hang)
  | (t, r) =>
      match f with
      | (t', Val _) => (t ++ t', r)
      | (t', Exn e) => (t ++ t', Exn e)
      | (t', Hang) => (t ++ t', Hang)
      end
  end.

End Eff.

Declare Scope eff_scope.
Delimit Scope eff_scope with eff.
Notation "x <~ m ;; k" := (Eff.bind m (fun x => k))
  (at level 61, m at next level, right associativity) : eff_scope.
Notation "m ;;> k" := (Eff.bind m (fun _ => k))
  (at level 61, right associativity) : eff_scope.
Local Open Scope eff_scope.

(** ** mcphost_runner.py: [run_mcphost_with_pexpect] in full *)

Module Pexpect.

(** [pexpect.TIMEOUT] is told apart from the other exceptions because the
    function has handlers for it alone; [pexpect.EOF] is one of the others. *)
Inductive pexn : Type :=
| TIMEOUT (msg : pystr)
| Other (e : pyexn).

Definition pexn_str (e : pexn) : pystr :=
  match e with
  | TIMEOUT m => m
  | Other e' => exn_str e'
  end.

(** An entry of the list given to [child.expect]. *)
Inductive pattern : Type :=
| Re (src : pystr)
| PTIMEOUT
| PEOF.

Inductive pevent : Type :=
| PImport
| PSpawn (command : pystr)
| PExpect (patterns : list pattern) (timeout : Q)
| PSendline (s : pystr)
| PBefore
| PClose.

(** The pseudo-terminal as seen by one call.  [expect_r n] is what the
    [n]-th [child.expect] does: the index of the entry that matched, or an
    exception.  [before_r n] is [child.before], decoded, after it. *)
Record penv : Type := {
  import_r : answer unit;
  spawn_r : answer unit;
  expect_r : nat -> pexn + nat;
  sendline_r : answer unit;
  before_r : nat -> pystr;
  close_r : answer unit
}.

Definition of_answer {A} (a : answer A) : pexn + A :=
  match a with
  | Returns x => inr x
  | Raises e => inl (Other e)
  end.

(** [except pexpect.TIMEOUT: h] *)
Definition on_timeout {A} (h : Eff.W pevent pexn A) (e : pexn) : option (Eff.W pevent pexn A) :=
  match e with
  | TIMEOUT _ => Some h
  | Other _ => None
  end.

Definition ready_patterns : list pattern :=
  [Re (lit "Enter your prompt.*"); Re (lit "prompt.*"); Re (lit "You:.*");
   Re (lit "User:.*"); Re (lit ">>.*"); Re (lit ">.*"); PTIMEOUT].

Definition reply_patterns : list pattern :=
  [Re (lit "Assistant:.*"); Re (lit "Response:.*"); Re (lit "AI:.*"); PTIMEOUT].

Definition next_patterns : list pattern :=
  [Re (lit "Enter your prompt.*"); Re (lit "prompt.*"); Re (lit "You:.*");
   Re (lit ">>.*"); PTIMEOUT; PEOF].

Section WithPty.

Variable P : penv.
Variable self : MCPHostRunner.

Definition command : pystr :=
  lit "mcphost -m " ++ model self ++ lit " --config " ++ config_path self.

(** [child.before.decode('utf-8', errors='ignore')] after the [n]-th expect. *)
Definition read_before (n : nat) : Eff.W pevent pexn pystr :=
  Eff.call PBefore (inr (before_r P n)).

(** The [while True] loop: every path through its body ends in [break] or
    raises, so the body runs once.  [response_text] is empty on entry. *)
Definition read_reply (response_text : pystr) : Eff.W pevent pexn pystr :=
  Eff.catch
    (index <~ Eff.call (PExpect next_patterns 5) (expect_r P 2) ;;
     before <~ read_before 3 ;;
     if (index <? 4)%nat then Eff.ret before
     else if (index =? 4)%nat then Eff.ret (response_text ++ before)
     else Eff.ret (response_text ++ before))
    (on_timeout (before <~ read_before 3 ;; Eff.ret (response_text ++ before))).

(** The body of the outer [try], up to and with [child.close()]: it yields
    [response_text]. *)
Definition exchange (prompt : pystr) : Eff.W pevent pexn pystr :=
  Eff.call PImport (of_answer (import_r P)) ;;>
  Eff.call (PSpawn command) (of_answer (spawn_r P)) ;;>
  Eff.catch
    (index <~ Eff.call (PExpect ready_patterns 15) (expect_r P 0) ;; Eff.ret tt)
    (on_timeout (Eff.ret tt)) ;;>
  Eff.call (PSendline prompt) (of_answer (sendline_r P)) ;;>
  response_text <~
    Eff.catch
      (index <~ Eff.call (PExpect reply_patterns (inject_Z (response_timeout self)))
                     (expect_r P 1) ;;
       if (index <? 3)%nat then read_reply [] else Eff.ret [])
      (on_timeout (read_before 2)) ;;
  Eff.call PClose (of_answer (close_r P)) ;;>
  Eff.ret response_text.

Definition run_mcphost_with_pexpect (prompt : pystr) : Eff.W pevent pexn pystr :=
  Eff.catch
    (response_text <~ exchange prompt ;;
     Eff.ret (match response_text with
          | [] => lit "No response text captured"
          | _ => response_text
          end))
    (fun e => Some (Eff.ret (lit "Error with pexpect approach: " ++ pexn_str e))).

(** The exchange as the one call of [Runner.run_mcphost_with_pexpect]. *)
Definition as_answer (prompt : pystr) : answer pystr :=
  match snd (exchange prompt) with
  | Eff.Val s => Returns s
  | Eff.Exn (TIMEOUT m) => Raises (OtherException m)
  | Eff.Exn (Other e) => Raises e
  | Eff.Hang => Returns []
  end.

End WithPty.

(** The timeouts of the [child.expect] calls of a trace, in order. *)
Fixpoint expect_timeouts (t : list pevent) : list Q :=
  match t with
  | [] => []
  | PExpect _ q :: t' => q :: expect_timeouts t'
  | _ :: t' => expect_timeouts t'
  end.

Definition is_close (ev : pevent) : bool :=
  match ev with PClose => true | _ => false end.

Definition is_before (ev : pevent) : bool :=
  match ev with PBefore => true | _ => false end.

End Pexpect.

(** ** voice_mcphost.py *)

Module Voice.

(** What can be raised in the interaction loop: the interruption by the
    user, or an exception of class [Exception]. *)
Inductive sig : Type :=
| KeyboardInterrupt
| Exc (e : pyexn).

Inductive vevent : Type :=
| VPopen (argv : list pystr)
| VInput
| VTerminate
| VWait
| VExists
| VGetsize
| VTranscribe
| VRemove
| VPut (item : option pystr)            (* self.tts_queue.put(item) *)
| VSleep (seconds : Q)
| VRun (prompt : pystr) (calls : list event).  (* self.mcphost.run_mcphost(prompt) *)

(** The outside as seen by one call of [record_and_transcribe]. *)
Record renv : Type := {
  arecord_r : answer unit;          (* subprocess.Popen(["arecord", ...]) *)
  input_r : sig + unit;             (* input() *)
  stop_r : answer unit;             (* process.terminate() *)
  reap_r : answer unit;             (* process.wait() *)
  exists_r : bool;                  (* os.path.exists(self.audio_file) *)
  getsize_r : answer N;             (* os.path.getsize(self.audio_file) *)
  transcribe_r : answer pystr;      (* self.whisper_model.transcribe(...)["text"] *)
  remove_r : answer unit            (* os.remove(self.audio_file) *)
}.

Definition lift {A} (a : answer A) : sig + A :=
  match a with
  | Returns x => inr x
  | Raises e => inl (Exc e)
  end.

Definition audio_file : pystr := lit "voice.wav".

Definition arecord_argv : list pystr :=
  [lit "arecord"; lit "-f"; lit "cd"; lit "-t"; lit "wav"; lit "-r"; lit "16000";
   audio_file].

(** [try: os.remove(self.audio_file) except: pass] *)
Definition remove_quietly (r : answer unit) : Eff.W vevent sig unit :=
  Eff.catch (Eff.call VRemove (lift r)) (fun _ => Some (Eff.ret tt)).

Definition record_and_transcribe (R : renv) : Eff.W vevent sig (option pystr) :=
  Eff.call (VPopen arecord_argv) (lift (arecord_r R)) ;;>
  Eff.catch
    (Eff.call VInput (input_r R))
    (fun e =>
       match e with
       | KeyboardInterrupt =>
           Some (Eff.call VTerminate (lift (stop_r R)) ;;>
                 Eff.call VWait (lift (reap_r R)) ;;>
                 Eff.raise KeyboardInterrupt)
       | Exc _ => None
       end) ;;>
  Eff.call VTerminate (lift (stop_r R)) ;;>
  Eff.call VWait (lift (reap_r R)) ;;>
  there <~ Eff.call VExists (inr (exists_r R)) ;;
  unusable <~ (if (there : bool)
               then size <~ Eff.call VGetsize (lift (getsize_r R)) ;;
                    Eff.ret (size =? 0)
               else Eff.ret true) ;;
  if (unusable : bool) then Eff.ret None
  else
    Eff.finally
      (Eff.catch
         (text <~ Eff.call VTranscribe (lift (transcribe_r R)) ;;
          let transcribed_text := strip text in
          match transcribed_text with
          | [] => Eff.ret None
          | _ => Eff.ret (Some transcribed_text)
          end)
         (fun e =>
            match e with
            | Exc _ => Some (Eff.ret None)
            | KeyboardInterrupt => None
            end))
      (remove_quietly (remove_r R)).

(** [speak_text] *)
Definition speak_text (text : pystr) : Eff.W vevent sig unit :=
  Eff.call (VPut (Some (clean_text_for_speech text))) (inr tt).

Definition welcome_msg : pystr :=
  lit "Voice MCPHost with Whisper is ready. Press enter to start recording.".
Definition goodbye_msg : pystr := lit "Goodbye! Thanks for using Voice MCPHost!".
Definition error_msg : pystr :=
  lit "An error occurred. Please check the console for details.".

(** [self.mcphost.run_mcphost(prompt)] inside the loop. *)
Definition dispatch (E : env) (self : MCPHostRunner) (fuel : nat) (prompt : pystr)
  : Eff.W vevent sig pystr :=
  match run_mcphost E self fuel prompt with
  | (t, Ok response) => ([VRun prompt t], Eff.Val response)
  | (t, Raise e) => ([VRun prompt t], Eff.Exn (Exc e))
  | (t, Diverge) => ([VRun prompt t], Eff.Hang)
  end.

Section Interactive.

Variable unicode_lower : pystr -> pystr.
Variable self : MCPHostRunner.
(** The outside in turn [i] of the loop: the recording, the agent process
    and the fuel of its polling loop. *)
Variable rec : nat -> renv.
Variable agent : nat -> env.
Variable agent_fuel : nat -> nat.
Variable last_remove_r : answer unit.

(** The [while True] loop, from turn [i] on. *)
Fixpoint turns (fuel i : nat) : Eff.W vevent sig unit :=
  match fuel with
  | O => ([], Eff.Hang)
  | S fuel' =>
      user_input <~ record_and_transcribe (rec i) ;;
      match run_interactive_turn unicode_lower user_input with
      | NoInput => turns fuel' (S i)
      | Exit =>
          speak_text goodbye_msg ;;>
          Eff.call (VSleep 3) (inr tt)
      | Dispatch prompt =>
          response <~ dispatch (agent i) self (agent_fuel i) prompt ;;
          match response with
          | [] => Eff.ret tt
          | _ => speak_text (clean_mcphost_response (Some response))
          end ;;>
          turns fuel' (S i)
      end
  end.

Definition run_interactive (fuel : nat) : Eff.W vevent sig unit :=
  speak_text welcome_msg ;;>
  Eff.finally
    (Eff.catch
       (turns fuel 0)
       (fun e =>
          match e with
          | KeyboardInterrupt =>
              Some (speak_text (lit "Goodbye!") ;;> Eff.call (VSleep 2) (inr tt))
          | Exc _ => Some (speak_text error_msg)
          end))
    (Eff.call (VPut None) (inr tt) ;;> remove_quietly last_remove_r).

End Interactive.

(** The items put on the speech queue, in order. *)
Fixpoint puts (t : list vevent) : list (option pystr) :=
  match t with
  | [] => []
  | VPut x :: t' => x :: puts t'
  | _ :: t' => puts t'
  end.

(** A text of at most 542 characters: what [speak_text] puts on the queue. *)
Definition is_text (item : option pystr) : bool :=
  match item with
  | Some s => (len s <=? 542)%nat
  | None => false
  end.

(** A prompt as the loop hands it to the agent: not empty, without
    whitespace at either end, and not an exit command. *)
Definition good_prompt (unicode_lower : pystr -> pystr) (p : pystr) : Prop :=
  p <> [] /\ strip p = p /\ str_in (lower unicode_lower p) exit_commands = false.

(** The prompts handed to [run_mcphost], in order. *)
Fixpoint prompts (t : list vevent) : list pystr :=
  match t with
  | [] => []
  | VRun p _ :: t' => p :: prompts t'
  | _ :: t' => prompts t'
  end.


(** *** The worker of the speech queue *)

(** What one [self.tts_queue.get(timeout=1)] gives: an item (a text, or
    [None], the signal to stop), [queue.Empty], or another exception. *)
Inductive got : Type :=
| Got (item : option pystr)
| QueueEmpty
| GetRaises (e : pyexn).

Inductive tevent : Type :=
| TGet
| TSay (text : pystr)
| TRunAndWait
| TTaskDone.

(** The queue and the engine as seen by the worker in its [i]-th turn. *)
Record tenv : Type := {
  get_r : nat -> got;
  say_r : nat -> answer unit;
  play_r : nat -> answer unit
}.

(** [_tts_worker]: the calls it makes, and whether it has left its loop. *)
Fixpoint _tts_worker (T : tenv) (fuel i : nat) : list tevent * bool :=
  match fuel with
  | O => ([], false)
  | S fuel' =>
      let continue (done : list tevent) :=
        let (t, stopped) := _tts_worker T fuel' (S i) in (done ++ t, stopped) in
      match get_r T i with
      | Got None => ([TGet], true)
      | Got (Some text) =>
          match say_r T i with
          | Raises _ => continue [TGet; TSay text]
          | Returns _ =>
              match play_r T i with
              | Raises _ => continue [TGet; TSay text; TRunAndWait]
              | Returns _ => continue [TGet; TSay text; TRunAndWait; TTaskDone]
              end
          end
      | QueueEmpty => continue [TGet]
      | GetRaises _ => continue [TGet]
      end
  end.

(** The texts handed to [say], in order. *)
Fixpoint said (t : list tevent) : list pystr :=
  match t with
  | [] => []
  | TSay x :: t' => x :: said t'
  | _ :: t' => said t'
  end.

(** The texts among the first [k] results of [get]. *)
Fixpoint items (T : tenv) (k : nat) : list pystr :=
  match k with
  | O => []
  | S k' =>
      items T k' ++ match get_r T k' with Got (Some x) => [x] | _ => [] end
  end.

(** The number of [task_done] calls. *)
Fixpoint done_count (t : list tevent) : nat :=
  match t with
  | [] => O
  | TTaskDone :: t' => S (done_count t')
  | _ :: t' => done_count t'
  end.

(** The number of items among the first [k] results of [get] that were said
    and played without an exception. *)
Fixpoint played (T : tenv) (k : nat) : nat :=
  match k with
  | O => O
  | S k' =>
      played T k' +
      match get_r T k', say_r T k', play_r T k' with
      | Got (Some _), Returns _, Returns _ => 1
      | _, _, _ => 0
      end
  end.

End Voice.

(** ** main.py *)

Module Main.

Record settings : Type := {
  s_model : pystr;
  s_config_path : pystr;
  s_whisper_model : pystr;
  s_response_timeout : Z
}.

Inductive parsed : Type :=
| Usage                      (* prints the usage and returns *)
| Start (s : settings).      (* goes on to [VoiceMCPHost(...)] *)

Section Main.

(** [int(s)]: the integer, or [None] where it raises [ValueError]. *)
Variable int : pystr -> option Z.

(** The [for i, arg in enumerate(sys.argv)] loop over what is left of
    [sys.argv]; [i + 1 < len(sys.argv)] holds when an argument follows. *)
Fixpoint options (argv : list pystr) (whisper_model : pystr) (response_timeout : Z)
  : pystr * Z :=
  match argv with
  | [] => (whisper_model, response_timeout)
  | arg :: rest =>
      match rest with
      | [] => (whisper_model, response_timeout)
      | next :: _ =>
          if str_eqb arg (lit "--whisper-model") then
            options rest next response_timeout
          else if str_eqb arg (lit "--timeout") then
            match int next with
            | Some t => options rest whisper_model t
            | None => options rest whisper_model response_timeout
            end
          else options rest whisper_model response_timeout
      end
  end.

(** [main] up to the construction of [VoiceMCPHost]. *)
Definition parse (argv : list pystr) : parsed :=
  let model := lit "ollama:qwen3:8b" in
  let config_path := lit "/home/nihal/config.json" in
  let whisper_model := lit "small" in
  let response_timeout := 30%Z in
  match argv with
  | _ :: a1 :: more =>
      if str_eqb a1 (lit "--help") || str_eqb a1 (lit "-h") then Usage
      else
        let model := a1 in
        let config_path := match more with a2 :: _ => a2 | [] => config_path end in
        let (whisper_model, response_timeout) :=
          options argv whisper_model response_timeout in
        Start {| s_model := model; s_config_path := config_path;
                 s_whisper_model := whisper_model;
                 s_response_timeout := response_timeout |}
  | _ =>
      let (whisper_model, response_timeout) :=
        options argv whisper_model response_timeout in
      Start {| s_model := model; s_config_path := config_path;
               s_whisper_model := whisper_model;
               s_response_timeout := response_timeout |}
  end.

End Main.

End Main.

(** ** Further predicates used in the statements *)

Module MoreProps.

(** The calls of a trace that wait for or read the output of the child. *)
Definition is_read (ev : event) : bool :=
  match ev with
  | ESelect _ _ => true
  | EReadline _ => true
  | _ => false
  end.

(** The calls that the polling loop makes. *)
Definition loop_event (ev : event) : bool :=
  match ev with
  | ETime => true
  | EPoll => true
  | ESelect _ _ => true
  | EReadline _ => true
  | _ => false
  end.

(** The call of the secondary strategy. *)
Definition is_pexpect (ev : event) : bool :=
  match ev with
  | EPexpect _ => true
  | _ => false
  end.

(** What is written to the standard input of the child, in order. *)
Fixpoint writes (t : list event) : list pystr :=
  match t with
  | [] => []
  | EWrite d :: t' => d :: writes t'
  | _ :: t' => writes t'
  end.

(** [old] and [q] differ at a position that both have: [old] starts no text
    that begins with [q]. *)
Fixpoint clash (old q : pystr) : bool :=
  match old, q with
  | a :: old', b :: q' => negb (a =? b) || clash old' q'
  | _, _ => false
  end.

(** [old] starts at no position of [p], whatever follows [p]. *)
Fixpoint clear (old p : pystr) : bool :=
  match p with
  | [] => true
  | _ :: p' => clash old p && clear old p'
  end.

(** The sum of the lengths of the lines, each counted with its newline. *)
Fixpoint weight (lines : list pystr) : nat :=
  match lines with
  | [] => O
  | l :: ls => S (len l) + weight ls
  end.

End MoreProps.

Import MoreProps.

(** ** Further concrete runs *)

Module MoreScenarios.

(** The child has answered and exited before the first poll: its answer is
    waiting on stdout. *)
Definition env_exited : env :=
  {| win32 := false;
     popen_r := Returns tt;
     write_r := fun _ => Returns tt;
     flush_r := fun _ => Returns tt;
     clock := fun n => inject_Z (2 * Z.of_nat n);
     poll_r := fun _ => Returns (Some 0%Z);
     select_r := fun _ _ => Returns true;
     readline_r := fun _ _ => Returns (lit "The answer" ++ [10]);
     terminate_r := Returns tt;
     wait_r := Returns tt;
     kill_r := Returns tt;
     pexpect_r := Returns (lit "pty") |}.

(** [--timeout 0] *)
Definition hasty : MCPHostRunner :=
  {| model := lit "ollama:qwen3:8b";
     config_path := lit "/home/nihal/config.json";
     response_timeout := 0 |}.

(** Neither [mcphost] nor the pexpect module is installed: both strategies
    would fail. *)
Definition env_nothing_installed : env :=
  {| win32 := false;
     popen_r := Raises (OtherException (lit "[Errno 2] No such file or directory: 'mcphost'"));
     write_r := fun _ => Returns tt;
     flush_r := fun _ => Returns tt;
     clock := fun n => inject_Z (2 * Z.of_nat n);
     poll_r := fun _ => Returns None;
     select_r := fun _ _ => Returns false;
     readline_r := fun _ _ => Returns [];
     terminate_r := Returns tt;
     wait_r := Returns tt;
     kill_r := Returns tt;
     pexpect_r := Raises (ImportError (lit "No module named 'pexpect'")) |}.

End MoreScenarios.

Import MoreScenarios.

Module PtyScenarios.

Import Pexpect.

(** The agent shows no prompt within 15 seconds, then answers and shows its
    next prompt. *)
Definition pty_late : penv :=
  {| import_r := Returns tt;
     spawn_r := Returns tt;
     expect_r := fun n => match n with O => inr 6%nat | 1%nat => inr 0%nat | _ => inr 2%nat end;
     sendline_r := Returns tt;
     before_r := fun _ => lit " Hello!";
     close_r := Returns tt |}.

(** The agent prints text but none of the reply patterns. *)
Definition pty_no_reply : penv :=
  {| import_r := Returns tt;
     spawn_r := Returns tt;
     expect_r := fun n => match n with O => inr 0%nat | _ => inr 3%nat end;
     sendline_r := Returns tt;
     before_r := fun _ => lit "thinking...";
     close_r := Returns tt |}.

(** The agent dies at once: the first [expect] raises [pexpect.EOF]. *)
Definition pty_dead : penv :=
  {| import_r := Returns tt;
     spawn_r := Returns tt;
     expect_r := fun _ => inl (Other (OtherException (lit "End Of File (EOF).")));
     sendline_r := Returns tt;
     before_r := fun _ => [];
     close_r := Returns tt |}.

End PtyScenarios.

Module VoiceScenarios.

Import Voice.

(** A recording that is transcribed to [text]. *)
Definition rec_text (text : pystr) : renv :=
  {| arecord_r := Returns tt;
     input_r := inr tt;
     stop_r := Returns tt;
     reap_r := Returns tt;
     exists_r := true;
     getsize_r := Returns 32044;
     transcribe_r := Returns text;
     remove_r := Returns tt |}.

(** ENTER pressed twice at once: [arecord] has written nothing. *)
Definition rec_empty : renv :=
  {| arecord_r := Returns tt;
     input_r := inr tt;
     stop_r := Returns tt;
     reap_r := Returns tt;
     exists_r := true;
     getsize_r := Returns 0;
     transcribe_r := Returns [];
     remove_r := Returns tt |}.

(** Ctrl+C while recording. *)
Definition rec_interrupted : renv :=
  {| arecord_r := Returns tt;
     input_r := inl KeyboardInterrupt;
     stop_r := Returns tt;
     reap_r := Returns tt;
     exists_r := true;
     getsize_r := Returns 0;
     transcribe_r := Returns [];
     remove_r := Returns tt |}.

(** [arecord] is not installed. *)
Definition rec_no_arecord : renv :=
  {| arecord_r := Raises (OtherException (lit "[Errno 2] No such file or directory: 'arecord'"));
     input_r := inr tt;
     stop_r := Returns tt;
     reap_r := Returns tt;
     exists_r := false;
     getsize_r := Returns 0;
     transcribe_r := Returns [];
     remove_r := Returns tt |}.

(** The queue gives "A", times out once, gives "B", whose playback fails,
    then "C" and the signal to stop; "D" was put after the signal. *)
Definition queue_abc : tenv :=
  {| get_r := fun i =>
       match i with
       | 0%nat => Got (Some (lit "A"))
       | 1%nat => QueueEmpty
       | 2%nat => Got (Some (lit "B"))
       | 3%nat => Got (Some (lit "C"))
       | 4%nat => Got None
       | _ => Got (Some (lit "D"))
       end;
     say_r := fun _ => Returns tt;
     play_r := fun i =>
       match i with
       | 2%nat => Raises (OtherException (lit "audio device busy"))
       | _ => Returns tt
       end |}.

End VoiceScenarios.

(** ** testing2.py *)

Module Testing2.

Abbreviation sig := Voice.sig.
Abbreviation KeyboardInterrupt := Voice.KeyboardInterrupt.
Abbreviation Exc := Voice.Exc.

Definition AUDIO_FILE : pystr := lit "voice.wav".
Definition WHISPER_MODEL : pystr := lit "small".

Inductive xevent : Type :=
| XPrompt                        (* input("... Press ENTER to start recording...") *)
| XPopen (argv : list pystr)
| XInput                         (* input() *)
| XTerminate
| XWait
| XExists
| XGetsize
| XLoad (name : pystr)           (* whisper.load_model(name) *)
| XTranscribe
| XRun (argv : list pystr)       (* subprocess.run(argv) *)
| XSleep (seconds : Q)
| XRemove.

(** The outside as seen by one turn of the loop of [main].  The handler of
    the loop is for [KeyboardInterrupt], which can arrive in any call: every
    answer is a value, the interruption, or an exception. *)
Record xenv : Type := {
  start_r : sig + unit;            (* input(...) at the head of the turn *)
  arecord_r : sig + unit;          (* subprocess.Popen(["arecord", ...]) *)
  input_r : sig + unit;            (* input() in record_audio *)
  stop_r : sig + unit;             (* proc.terminate() *)
  reap_r : sig + unit;             (* proc.wait() *)
  recorded_r : sig + bool;         (* os.path.exists(AUDIO_FILE) in record_audio *)
  getsize_r : sig + N;             (* os.path.getsize(AUDIO_FILE) *)
  load_r : sig + unit;             (* whisper.load_model(WHISPER_MODEL) *)
  transcribe_r : sig + pystr;      (* model.transcribe(AUDIO_FILE)["text"] *)
  xdotool_r : nat -> sig + unit;   (* the subprocess.run calls, in order *)
  pause_r : sig + unit;            (* time.sleep(1.5) *)
  left_r : sig + bool;             (* os.path.exists(AUDIO_FILE) in the finally *)
  remove_r : sig + unit            (* os.remove(AUDIO_FILE) *)
}.

Definition arecord_argv : list pystr :=
  [lit "arecord"; lit "-f"; lit "cd"; lit "-t"; lit "wav"; lit "-r"; lit "16000";
   AUDIO_FILE].

Definition record_audio (T : xenv) : Eff.W xevent sig bool :=
  Eff.call (XPopen arecord_argv) (arecord_r T) ;;>
  Eff.catch
    (Eff.call XInput (input_r T))
    (fun e =>
       match e with
       | KeyboardInterrupt =>
           Some (Eff.call XTerminate (stop_r T) ;;> Eff.raise KeyboardInterrupt)
       | Exc _ => None
       end) ;;>
  Eff.call XTerminate (stop_r T) ;;>
  Eff.call XWait (reap_r T) ;;>
  there <~ Eff.call XExists (recorded_r T) ;;
  if (there : bool)
  then size <~ Eff.call XGetsize (getsize_r T) ;; Eff.ret (0 <? size)
  else Eff.ret false.

Definition transcribe (T : xenv) : Eff.W xevent sig pystr :=
  Eff.call (XLoad WHISPER_MODEL) (load_r T) ;;>
  text <~ Eff.call XTranscribe (transcribe_r T) ;;
  Eff.ret (strip text).

Definition switch_to_mcphost_window (T : xenv) : Eff.W xevent sig unit :=
  Eff.call (XRun [lit "xdotool"; lit "key"; lit "Alt_L+Tab"]) (xdotool_r T 0) ;;>
  Eff.call (XSleep 1.5) (pause_r T).

Definition type_argv (text : pystr) : list pystr :=
  [lit "xdotool"; lit "type"; lit "--delay"; lit "50"; text].

Definition type_into_terminal (T : xenv) (text : pystr) : Eff.W xevent sig unit :=
  switch_to_mcphost_window T ;;>
  Eff.call (XRun (type_argv text)) (xdotool_r T 1) ;;>
  Eff.call (XRun [lit "xdotool"; lit "key"; lit "Return"]) (xdotool_r T 2).

Definition exit_words : list pystr := [lit "exit"; lit "quit"; lit "bye"; lit "stop"].

(** How a turn of the loop ends when nothing is raised. *)
Inductive flow : Type :=
| Next                           (* continue, or the end of the body *)
| Stop.                          (* break *)

Section Main.

Variable unicode_lower : pystr -> pystr.

(** The body of the [try]. *)
Definition attempt (T : xenv) : Eff.W xevent sig flow :=
  Eff.call XPrompt (start_r T) ;;>
  recorded <~ record_audio T ;;
  if (recorded : bool) then
    prompt <~ transcribe T ;;
    match prompt with
    | [] => Eff.ret Next
    | _ =>
        if str_in (lower unicode_lower prompt) exit_words then Eff.ret Stop
        else type_into_terminal T prompt ;;> Eff.ret Next
    end
  else Eff.ret Next.

(** The [finally] of the loop. *)
Definition cleanup (T : xenv) : Eff.W xevent sig unit :=
  there <~ Eff.call XExists (left_r T) ;;
  if (there : bool) then Eff.call XRemove (remove_r T) else Eff.ret tt.

Definition one_turn (T : xenv) : Eff.W xevent sig flow :=
  Eff.finally
    (Eff.catch
       (attempt T)
       (fun e =>
          match e with
          | KeyboardInterrupt => Some (Eff.ret Stop)
          | Exc _ => None
          end))
    (cleanup T).

Variable outside : nat -> xenv.

(** The [while True] loop, from turn [i] on. *)
Fixpoint loop (fuel i : nat) : Eff.W xevent sig unit :=
  match fuel with
  | O => ([], Eff.Hang)
  | S fuel' =>
      how <~ one_turn (outside i) ;;
      match how with
      | Next => loop fuel' (S i)
      | Stop => Eff.ret tt
      end
  end.

Definition main (fuel : nat) : Eff.W xevent sig unit := loop fuel 0.

End Main.

(** The texts typed into the terminal, in order. *)
Fixpoint typed (t : list xevent) : list pystr :=
  match t with
  | [] => []
  | XRun [_; _; _; _; text] :: t' => text :: typed t'
  | _ :: t' => typed t'
  end.

(** A text as the loop types it: not empty, without whitespace at either
    end, and not an exit word. *)
Definition worth_typing (unicode_lower : pystr -> pystr) (p : pystr) : Prop :=
  p <> [] /\ strip p = p /\ str_in (lower unicode_lower p) exit_words = false.

End Testing2.

Module Testing2Scenarios.

Import Testing2.

(** A turn in which everything works and the transcript is [s]. *)
Definition heard (s : pystr) : xenv := {|
  start_r := inr tt; arecord_r := inr tt; input_r := inr tt; stop_r := inr tt;
  reap_r := inr tt; recorded_r := inr true; getsize_r := inr 32044%N;
  load_r := inr tt; transcribe_r := inr s; xdotool_r := fun _ => inr tt;
  pause_r := inr tt; left_r := inr true; remove_r := inr tt |}.

(** A turn in which [arecord] is not installed. *)
Definition no_arecord : xenv := {|
  start_r := inr tt;
  arecord_r := inl (Exc (OtherException (lit "[Errno 2] No such file or directory: 'arecord'")));
  input_r := inr tt; stop_r := inr tt;
  reap_r := inr tt; recorded_r := inr false; getsize_r := inr 0%N;
  load_r := inr tt; transcribe_r := inr []; xdotool_r := fun _ => inr tt;
  pause_r := inr tt; left_r := inr false; remove_r := inr tt |}.

(** A turn in which the user presses Ctrl-C while recording. *)
Definition interrupted : xenv := {|
  start_r := inr tt; arecord_r := inr tt; input_r := inl KeyboardInterrupt;
  stop_r := inr tt;
  reap_r := inr tt; recorded_r := inr true; getsize_r := inr 44%N;
  load_r := inr tt; transcribe_r := inr []; xdotool_r := fun _ => inr tt;
  pause_r := inr tt; left_r := inr true; remove_r := inr tt |}.

End Testing2Scenarios.

(** * Properties *)

(** ** Lists of code points *)

Lemma str_eqb_eq (a b : pystr) : str_eqb a b = true <-> a = b.
Proof.
  revert b; induction a as [|x a IH]; intros [|y b]; simpl; split; intro H;
    try reflexivity; try discriminate.
  - apply andb_true_iff in H as [Hx Hab]. apply N.eqb_eq in Hx.
    apply IH in Hab. congruence.
  - injection H as -> ->. rewrite N.eqb_refl. simpl. now apply IH.
Qed.

Lemma startswith_app (p s : pystr) :
  startswith p s = true <-> exists v, s = p ++ v.
Proof.
  revert s; induction p as [|a p IH]; intros s; simpl.
  - split; [intros _; now exists s | reflexivity].
  - destruct s as [|b s].
    + split; [discriminate | intros [v Hv]; discriminate].
    + rewrite andb_true_iff, N.eqb_eq, IH. split.
      * intros [-> [v ->]]. now exists v.
      * intros [v Hv]. injection Hv as -> ->. split; [reflexivity | now exists v].
Qed.

Lemma scan_skipn (m : pystr -> option (pystr * nat)) (k : nat) (s : pystr) :
  scan m k s = scan m 0 (skipn k s).
Proof.
  revert k; induction s as [|c s IH]; intros [|k]; simpl; try reflexivity.
  apply IH.
Qed.

(** The scan, one step at a time. *)
Lemma scan_cons (m : pystr -> option (pystr * nat)) (c : char) (s : pystr) :
  scan m 0 (c :: s) =
  match m (c :: s) with
  | Some (r, n) => r ++ scan m 0 (skipn (Nat.pred n) s)
  | None => c :: scan m 0 s
  end.
Proof.
  simpl. destruct (m (c :: s)) as [[r n]|]; [|reflexivity].
  now rewrite scan_skipn.
Qed.

Lemma Forall_skipn {A} (P : A -> Prop) (n : nat) (l : list A) :
  Forall P l -> Forall P (skipn n l).
Proof.
  revert n; induction l as [|x l IH]; intros [|n] H; simpl; auto.
  inversion H; auto.
Qed.

Lemma Forall_firstn {A} (P : A -> Prop) (n : nat) (l : list A) :
  Forall P l -> Forall P (firstn n l).
Proof.
  revert n; induction l as [|x l IH]; intros [|n] H; simpl; auto.
  inversion H; auto.
Qed.

(** A scan keeps a property of the characters that its replacements keep. *)
Lemma scan_Forall (P : char -> Prop) (m : pystr -> option (pystr * nat)) :
  (forall t r n, Forall P t -> m t = Some (r, n) -> Forall P r) ->
  forall s k, Forall P s -> Forall P (scan m k s).
Proof.
  intros Hm s; induction s as [|c s IH]; intros k Hs; simpl; [constructor|].
  inversion Hs as [|? ? Hc Hs']; subst.
  destruct k as [|k]; [|now apply IH].
  destruct (m (c :: s)) as [[r n]|] eqn:E.
  - apply Forall_app; split; [now apply (Hm _ _ _ Hs E) | now apply IH].
  - constructor; [assumption | now apply IH].
Qed.

Lemma lstrip_Forall (P : char -> Prop) (s : pystr) :
  Forall P s -> Forall P (lstrip s).
Proof.
  induction s as [|c s IH]; intros H; simpl; [constructor|].
  destruct (isspace c); [inversion H; auto | assumption].
Qed.

Lemma strip_Forall (P : char -> Prop) (s : pystr) :
  Forall P s -> Forall P (strip s).
Proof.
  intros H. unfold strip, rstrip.
  apply Forall_rev, lstrip_Forall, Forall_rev, lstrip_Forall, H.
Qed.

Lemma filter_Forall (f : char -> bool) (s : pystr) :
  Forall (fun c => f c = true) (filter f s).
Proof.
  apply Forall_forall. intros c Hc. now apply filter_In in Hc.
Qed.

Lemma match_tag_repl (t r : pystr) (n : nat) :
  match_tag t = Some (r, n) -> r = [] /\ (2 <= n)%nat.
Proof.
  unfold match_tag. destruct t as [|c t]; [discriminate|].
  destruct (N.eq_dec c 60) as [->|Hc].
  - destruct (span_len _ t) as [|k] eqn:Ek; [discriminate|].
    destruct (skipn (S k) t) as [|d u]; [discriminate|].
    destruct (N.eq_dec d 62) as [->|Hd].
    + intros H; injection H as <- <-. split; [reflexivity | lia].
    + destruct d as [|p]; [discriminate|].
      do 6 (destruct p as [p|p|]; try discriminate); congruence.
  - destruct c as [|p]; [discriminate|].
    do 6 (destruct p as [p|p|]; try discriminate); congruence.
Qed.

Lemma match_ws_repl (t r : pystr) (n : nat) :
  match_ws t = Some (r, n) -> r = [32] /\ n = span_len isspace t /\ (1 <= n)%nat.
Proof.
  unfold match_ws. destruct (span_len isspace t) as [|k]; [discriminate|].
  intros H; injection H as <- <-. repeat split. lia.
Qed.

(** ** The noise-removal stage *)

Lemma tidy_printable (s : pystr) :
  Forall (fun c => is_control c = false) (tidy s).
Proof.
  unfold tidy. apply strip_Forall.
  apply scan_Forall.
  { intros t r n _ H. apply match_ws_repl in H as [-> _].
    constructor; [reflexivity | constructor]. }
  apply scan_Forall.
  { intros t r n _ H. apply match_tag_repl in H as [-> _]. constructor. }
  eapply Forall_impl; [|apply filter_Forall].
  intros c Hc. simpl in Hc. now apply negb_true_iff in Hc.
Qed.

Lemma clean_mcphost_response_no_control (response : option pystr) :
  Forall (fun c => is_control c = false) (clean_mcphost_response response).
Proof.
  destruct response as [[|c r]|]; simpl; try constructor.
  apply tidy_printable.
Qed.

Lemma clean_mcphost_response_ge_32 (response : option pystr) :
  Forall (fun c => 32 <= c) (clean_mcphost_response response).
Proof.
  eapply Forall_impl; [|apply clean_mcphost_response_no_control].
  intros c Hc. unfold is_control in Hc.
  apply orb_false_iff in Hc as [Hc _]. apply N.leb_gt in Hc. lia.
Qed.

(** C8: the output of [clean_mcphost_response] holds no character whose
    ordinal is below 32, whatever the input (a string or [None]). *)
Theorem clean_mcphost_response_printable (response : option pystr) :
  Forall (fun c => 32 <= c) (clean_mcphost_response response) /\
  existsb (fun c => c <? 32) (clean_mcphost_response response) = false.
Proof.
  pose proof (clean_mcphost_response_ge_32 response) as H.
  split; [exact H|].
  induction H as [|c s Hc Hs IH]; [reflexivity|].
  simpl. rewrite IH, orb_false_r. apply N.ltb_ge. exact Hc.
Qed.

(** C9: [clean_mcphost_response] returns the empty string on the two falsy
    inputs, [None] and the empty string. *)
Theorem clean_mcphost_response_falsy :
  clean_mcphost_response None = [] /\ clean_mcphost_response (Some []) = [].
Proof. split; reflexivity. Qed.

(** ** The speech-shaping stage *)

(** C10: the output of [clean_text_for_speech] has at most 542 characters;
    when the text after the formatting removal and the acronym replacement
    has more than 500 characters, the output is its first 500 characters
    followed by the notice, which has 42 characters. *)
Theorem clean_text_for_speech_length (text : pystr) :
  (len (clean_text_for_speech text) <= 542)%nat /\
  len truncation_notice = 42%nat /\
  truncation_notice = lit "... The response was truncated for speech." /\
  clean_text_for_speech text =
    if (500 <? len (speech_body text))%nat
    then firstn 500 (speech_body text) ++ truncation_notice
    else speech_body text.
Proof.
  assert (Hn : len truncation_notice = 42%nat) by reflexivity.
  repeat split; try assumption.
  unfold clean_text_for_speech.
  destruct (500 <? len (speech_body text))%nat eqn:E.
  - unfold len in *. rewrite length_app, Hn, length_firstn. lia.
  - apply Nat.ltb_ge in E. unfold len in *. lia.
Qed.

(** ** The polling loop and the two strategies *)

Lemma read_line_no_diverge (E : env) (p : pipe) (timeout : Q) (i : nat) :
  exists t, (exists r, _read_line_with_timeout E p timeout i = (t, Ok r)) \/
            (exists e, _read_line_with_timeout E p timeout i = (t, Raise e)).
Proof.
  unfold _read_line_with_timeout.
  destruct (win32 E).
  - destruct (readline_r E p i); simpl; eauto.
  - destruct (select_r E p i) as [[|]|e]; simpl; eauto.
    destruct (readline_r E p i); simpl; eauto.
Qed.

(** The body of the loop catches what it raises: it always ends in [break]
    or in the next turn. *)
Lemma poll_body_ok (E : env) (st : Q) (i : nat) (out err : pystr) :
  exists t r, poll_body E st i out err = (t, Ok r).
Proof.
  unfold poll_body.
  destruct (poll_r E i) as [[z|]|e]; simpl; eauto.
  destruct (read_line_no_diverge E Stdout 1 i) as [t1 [[r1 H1]|[e1 H1]]];
    rewrite H1; simpl; eauto.
  destruct (read_line_no_diverge E Stderr st i) as [t2 [[r2 H2]|[e2 H2]]];
    rewrite H2; simpl; eauto.
Qed.

Lemma poll_loop_no_raise (E : env) (self : MCPHostRunner) (st start : Q) (fuel : nat) :
  forall i out err,
    exists t, poll_loop E self fuel st start i out err = (t, Diverge) \/
              exists acc, poll_loop E self fuel st start i out err = (t, Ok acc).
Proof.
  induction fuel as [|fuel IH]; intros i out err; simpl; eauto.
  destruct (Qltb _ _); simpl; eauto.
  destruct (poll_body_ok E st i out err) as [t [r Hr]]. rewrite Hr.
  destruct r as [acc|[o e]]; simpl; eauto.
  destruct (IH (S i) o e) as [t' [H|[acc H]]]; rewrite H; simpl; eauto.
Qed.

(** Once the clock has passed the deadline at its [S k]-th reading, a loop
    that has fuel for [k] more turns ends. *)
Lemma poll_loop_ends (E : env) (self : MCPHostRunner) (st start : Q) (k : nat) :
  Qltb (clock E (S k) - start) (inject_Z (response_timeout self)) = false ->
  forall fuel i out err, (i <= k)%nat -> (k < i + fuel)%nat ->
    exists t acc, poll_loop E self fuel st start i out err = (t, Ok acc).
Proof.
  intros Hk fuel; induction fuel as [|fuel IH]; intros i out err Hi Hf; [lia|].
  simpl.
  destruct (Qltb (clock E (S i) - start) _) eqn:Et; simpl; eauto.
  assert (i <> k) by (intros ->; congruence).
  destruct (poll_body_ok E st i out err) as [t [r Hr]]. rewrite Hr.
  destruct r as [acc|[o e]]; simpl; eauto.
  destruct (IH (S i) o e) as [t' [acc H']]; [lia | lia |].
  rewrite H'. simpl. eauto.
Qed.

(** The two clean-up blocks after the loop. *)
Lemma quit_block_ok (E : env) :
  exists t,
    try_except
      (call (EWrite (lit "quit" ++ [10])) (write_r E 1) ;;;
       call EFlush (flush_r E 1) ;;;
       call (ESleep (1 # 2)) (Returns tt))
      (fun _ => ret tt) = (t, Ok tt).
Proof.
  destruct (write_r E 1) as [[]|e]; simpl; eauto.
  destruct (flush_r E 1) as [[]|e]; simpl; eauto.
Qed.

Lemma terminate_block (E : env) :
  exists t,
    (exists u, try_except
       (call ETerminate (terminate_r E) ;;; call (EWait 2) (wait_r E))
       (fun _ => call EKill (kill_r E)) = (t, Ok u)) \/
    (exists e, kill_r E = Raises e /\
       try_except
       (call ETerminate (terminate_r E) ;;; call (EWait 2) (wait_r E))
       (fun _ => call EKill (kill_r E)) = (t, Raise e)).
Proof.
  destruct (terminate_r E) as [[]|e] eqn:Et; simpl.
  - destruct (wait_r E) as [[]|e] eqn:Ew; simpl; eauto.
    destruct (kill_r E) as [[]|e'] eqn:Ek; simpl; eauto.
  - destruct (kill_r E) as [[]|e'] eqn:Ek; simpl; eauto.
Qed.

(** [run_mcphost_basic] has a handler around its whole body: whatever is
    raised inside comes out as a text. *)
Lemma run_mcphost_basic_with_no_raise (E : env) (self : MCPHostRunner)
    (st : Q) (fuel : nat) (prompt : pystr) :
  exists t, run_mcphost_basic_with E self st fuel prompt = (t, Diverge) \/
            exists s, run_mcphost_basic_with E self st fuel prompt = (t, Ok s).
Proof.
  unfold run_mcphost_basic_with.
  destruct (popen_r E) as [[]|e]; simpl; eauto.
  destruct (write_r E 0) as [[]|e]; simpl; eauto.
  destruct (flush_r E 0) as [[]|e]; simpl; eauto.
  destruct (poll_loop_no_raise E self st (clock E 0) fuel 0 [] []) as [t [H|[acc H]]];
    rewrite H; simpl; eauto.
  destruct (quit_block_ok E) as [tq Hq]. simpl in Hq. rewrite Hq. simpl.
  destruct (terminate_block E) as [tt' [[u Ht]|[e [_ Ht]]]];
    simpl in Ht; rewrite Ht; simpl; eauto.
Qed.

Lemma run_mcphost_basic_with_ends (E : env) (self : MCPHostRunner)
    (st : Q) (k fuel : nat) (prompt : pystr) :
  Qltb (clock E (S k) - clock E 0) (inject_Z (response_timeout self)) = false ->
  (k < fuel)%nat ->
  exists t s, run_mcphost_basic_with E self st fuel prompt = (t, Ok s).
Proof.
  intros Hk Hf. unfold run_mcphost_basic_with.
  destruct (popen_r E) as [[]|e]; simpl; eauto.
  destruct (write_r E 0) as [[]|e]; simpl; eauto.
  destruct (flush_r E 0) as [[]|e]; simpl; eauto.
  destruct (poll_loop_ends E self st (clock E 0) k Hk fuel 0 [] []) as [t [acc H]];
    [lia | lia |].
  rewrite H. simpl.
  destruct (quit_block_ok E) as [tq Hq]. simpl in Hq. rewrite Hq. simpl.
  destruct (terminate_block E) as [tt' [[u Ht]|[e [_ Ht]]]];
    simpl in Ht; rewrite Ht; simpl; eauto.
Qed.

Lemma try_except_ok {A} (t : list event) (a : A) (h : pyexn -> M A) :
  try_except (t, Ok a) h = (t, Ok a).
Proof. reflexivity. Qed.

Lemma try_except_diverge {A} (t : list event) (h : pyexn -> M A) :
  try_except (t, @Diverge A) h = (t, Diverge).
Proof. reflexivity. Qed.

(** Because [run_mcphost_basic] never raises, the handler of [run_mcphost]
    is never entered. *)
Lemma run_mcphost_is_basic (E : env) (self : MCPHostRunner) (fuel : nat) (prompt : pystr) :
  run_mcphost E self fuel prompt = run_mcphost_basic E self fuel prompt.
Proof.
  unfold run_mcphost, run_mcphost_over, run_mcphost_basic.
  destruct (run_mcphost_basic_with_no_raise E self 1 fuel prompt) as [t [H|[s H]]];
    rewrite H; reflexivity.
Qed.

(** The handler of [run_mcphost] over any two outcomes of its strategies:
    the answer of the primary one is returned as it is; the secondary one is
    run only when the primary one raises, and the two texts that begin with
    [Both approaches failed] are built only when the secondary one raises as
    well. *)
Lemma run_mcphost_over_handler :
  (forall tb s p, run_mcphost_over (tb, Ok s) p = (tb, Ok s)) /\
  (forall tb e tp s,
      run_mcphost_over (tb, Raise e) (tp, Ok s) = (tb ++ tp, Ok s)) /\
  (forall tb e tp m,
      run_mcphost_over (tb, Raise e) (tp, Raise (ImportError m)) =
      (tb ++ tp, Ok (lit "Both approaches failed and pexpect not available"))) /\
  (forall tb e tp m,
      run_mcphost_over (tb, Raise e) (tp, Raise (OtherException m)) =
      (tb ++ tp, Ok (lit "Both approaches failed. Basic: " ++ exn_str e
                       ++ lit ", Pexpect: " ++ m))).
Proof.
  split; [|split; [|split]].
  - intros. reflexivity.
  - intros. reflexivity.
  - intros. unfold run_mcphost_over. simpl. now rewrite app_nil_r.
  - intros. unfold run_mcphost_over. simpl. now rewrite app_nil_r.
Qed.

(** The loop of a run in which the deadline passes at the [S k]-th reading
    of the clock, the child is alive until then and no read raises. *)
Lemma poll_loop_timeout (E : env) (self : MCPHostRunner) (st start : Q) (k : nat)
    (lo le : nat -> option pystr) :
  (forall i, (i < k)%nat ->
     Qltb (clock E (S i) - start) (inject_Z (response_timeout self)) = true /\
     poll_r E i = Returns None /\
     snd (_read_line_with_timeout E Stdout 1 i) = Ok (lo i) /\
     snd (_read_line_with_timeout E Stderr st i) = Ok (le i)) ->
  Qltb (clock E (S k) - start) (inject_Z (response_timeout self)) = false ->
  forall fuel i, (i <= k)%nat -> (k < i + fuel)%nat ->
    snd (poll_loop E self fuel st start i (accumulate lo i) (accumulate le i)) =
    Ok (accumulate lo k, accumulate le k).
Proof.
  intros Hlive Hk fuel; induction fuel as [|fuel IH]; intros i Hi Hf; [lia|].
  simpl.
  destruct (Nat.eq_dec i k) as [->|Hne].
  - rewrite Hk. reflexivity.
  - destruct (Hlive i) as (Ht & Hp & Ho & He); [lia|].
    rewrite Ht. unfold poll_body. rewrite Hp. simpl.
    destruct (_read_line_with_timeout E Stdout 1 i) as [t1 r1]. simpl in Ho. subst r1.
    simpl.
    destruct (_read_line_with_timeout E Stderr st i) as [t2 r2]. simpl in He. subst r2.
    simpl.
    specialize (IH (S i)). simpl in IH.
    destruct (poll_loop E self fuel st start (S i) _ _) as [t3 r3].
    simpl in IH. rewrite IH by lia. reflexivity.
Qed.

(** C2, as the code has it: [run_mcphost_basic] never raises.  A failure to
    spawn the child, or to write or flush the prompt, is caught by the handler
    around the body and returned as the text [Error running MCPHost: ...];
    a timeout gives the labelled text with what the loop has accumulated
    (here for a run in which the child stays alive, no read raises and the
    final [kill], if reached, does not raise); any run that gets past the
    prompt and whose [kill] does not raise ends with a labelled text; and
    since nothing is raised,
    [run_mcphost] returns what [run_mcphost_basic] returns, without the
    pexpect strategy. *)
Theorem run_mcphost_basic_never_raises (E : env) (self : MCPHostRunner) (prompt : pystr) :
  (forall fuel,
      exists t, run_mcphost_basic E self fuel prompt = (t, Diverge) \/
                exists s, run_mcphost_basic E self fuel prompt = (t, Ok s)) /\
  (forall fuel e,
      popen_r E = Raises e ->
      run_mcphost_basic E self fuel prompt =
      ([EPopen (cmd self)], Ok (lit "Error running MCPHost: " ++ exn_str e))) /\
  (forall fuel e,
      popen_r E = Returns tt -> write_r E 0 = Raises e ->
      run_mcphost_basic E self fuel prompt =
      ([EPopen (cmd self); EWrite (prompt ++ [10])],
       Ok (lit "Error running MCPHost: " ++ exn_str e))) /\
  (forall fuel e,
      popen_r E = Returns tt -> write_r E 0 = Returns tt -> flush_r E 0 = Raises e ->
      run_mcphost_basic E self fuel prompt =
      ([EPopen (cmd self); EWrite (prompt ++ [10]); EFlush],
       Ok (lit "Error running MCPHost: " ++ exn_str e))) /\
  (forall k lo le fuel,
      popen_r E = Returns tt -> write_r E 0 = Returns tt -> flush_r E 0 = Returns tt ->
      kill_r E = Returns tt ->
      (forall i, (i < k)%nat ->
         Qltb (clock E (S i) - clock E 0) (inject_Z (response_timeout self)) = true /\
         poll_r E i = Returns None /\
         snd (_read_line_with_timeout E Stdout 1 i) = Ok (lo i) /\
         snd (_read_line_with_timeout E Stderr 1 i) = Ok (le i)) ->
      Qltb (clock E (S k) - clock E 0) (inject_Z (response_timeout self)) = false ->
      (k < fuel)%nat ->
      snd (run_mcphost_basic E self fuel prompt) =
      Ok (labelled (accumulate lo k) (accumulate le k))) /\
  (forall fuel,
      popen_r E = Returns tt -> write_r E 0 = Returns tt -> flush_r E 0 = Returns tt ->
      kill_r E = Returns tt ->
      exists t, run_mcphost_basic E self fuel prompt = (t, Diverge) \/
                exists out err,
                  run_mcphost_basic E self fuel prompt = (t, Ok (labelled out err))) /\
  (forall fuel, run_mcphost E self fuel prompt = run_mcphost_basic E self fuel prompt).
Proof.
  split; [|split; [|split; [|split; [|split; [|split]]]]].
  - intros fuel. apply run_mcphost_basic_with_no_raise.
  - intros fuel e Hp. unfold run_mcphost_basic, run_mcphost_basic_with.
    rewrite Hp. reflexivity.
  - intros fuel e Hp Hw. unfold run_mcphost_basic, run_mcphost_basic_with.
    rewrite Hp, Hw. reflexivity.
  - intros fuel e Hp Hw Hf. unfold run_mcphost_basic, run_mcphost_basic_with.
    rewrite Hp, Hw, Hf. reflexivity.
  - intros k lo le fuel Hp Hw Hf Hkill Hlive Hk Hfuel.
    unfold run_mcphost_basic, run_mcphost_basic_with.
    rewrite Hp, Hw, Hf. simpl.
    pose proof (poll_loop_timeout E self 1 (clock E 0) k lo le Hlive Hk fuel 0) as HL.
    simpl in HL.
    destruct (poll_loop E self fuel 1 (clock E 0) 0 [] []) as [tl rl].
    simpl in HL. rewrite HL by lia. simpl.
    destruct (quit_block_ok E) as [tq Hq]. simpl in Hq. rewrite Hq. simpl.
    destruct (terminate_block E) as [tt' [[[] Ht]|[e [Hke Ht]]]].
    + simpl in Ht. rewrite Ht. reflexivity.
    + congruence.
  - intros fuel Hp Hw Hf Hkill.
    unfold run_mcphost_basic, run_mcphost_basic_with.
    rewrite Hp, Hw, Hf. simpl.
    destruct (poll_loop_no_raise E self 1 (clock E 0) fuel 0 [] []) as [tl [H|[[out err] H]]];
      rewrite H; simpl; eauto.
    destruct (quit_block_ok E) as [tq Hq]. simpl in Hq. rewrite Hq. simpl.
    destruct (terminate_block E) as [tt' [[[] Ht]|[e [Hke Ht]]]].
    + simpl in Ht. rewrite Ht. simpl. eexists. right. exists out, err. reflexivity.
    + congruence.
  - intros fuel. apply run_mcphost_is_basic.
Qed.

Lemma run_mcphost_basic_never_raises_witness :
  snd (run_mcphost_basic env_one_line demo 2 (lit "hi")) =
  Ok (labelled (lit "Hello" ++ [10]) []) /\
  run_mcphost_basic env_no_mcphost demo 2 (lit "hi") =
  ([EPopen (cmd demo)],
   Ok (lit "Error running MCPHost: [Errno 2] No such file or directory: 'mcphost'")) /\
  run_mcphost_basic env_broken_pipe demo 2 (lit "hi") =
  ([EPopen (cmd demo); EWrite (lit "hi" ++ [10])],
   Ok (lit "Error running MCPHost: [Errno 32] Broken pipe")).
Proof.
  split; [|split].
  - destruct (run_mcphost_basic_never_raises env_one_line demo (lit "hi"))
      as (_ & _ & _ & _ & H & _).
    apply (H 1%nat
             (fun i => match i with O => Some (lit "Hello" ++ [10]) | _ => None end)
             (fun _ => None) 2%nat); try reflexivity; [|lia].
    intros i Hi. assert (i = 0%nat) by lia. subst i.
    repeat split; reflexivity.
  - destruct (run_mcphost_basic_never_raises env_no_mcphost demo (lit "hi"))
      as (_ & H & _).
    apply (H 2%nat
             (OtherException (lit "[Errno 2] No such file or directory: 'mcphost'"))).
    reflexivity.
  - destruct (run_mcphost_basic_never_raises env_broken_pipe demo (lit "hi"))
      as (_ & _ & H & _).
    apply (H 2%nat (OtherException (lit "[Errno 32] Broken pipe"))); reflexivity.
Defined.

(** C2 as it is stated fails: when [mcphost] cannot be spawned,
    [run_mcphost_basic] raises nothing, it returns a text; and [run_mcphost]
    does not go to the pexpect strategy. *)
Lemma spawn_failure_is_not_raised :
  popen_r env_no_mcphost =
    Raises (OtherException (lit "[Errno 2] No such file or directory: 'mcphost'")) /\
  ~ (exists e, snd (run_mcphost_basic env_no_mcphost demo 5 (lit "hi")) = Raise e) /\
  snd (run_mcphost_basic env_no_mcphost demo 5 (lit "hi")) =
    Ok (lit "Error running MCPHost: [Errno 2] No such file or directory: 'mcphost'") /\
  ~ In (EPexpect (lit "hi")) (fst (run_mcphost env_no_mcphost demo 5 (lit "hi"))).
Proof.
  split; [reflexivity|]. split; [|split].
  - intros [e He]. vm_compute in He. discriminate.
  - reflexivity.
  - vm_compute. intros [H|[]]. discriminate.
Qed.

(** After a prompt that was written and flushed, every run that returns has
    asked the child to terminate, and has killed it when that request or the
    wait of two seconds raised. *)
Lemma terminate_block_trace (E : env) :
  exists t r,
    try_except
      (call ETerminate (terminate_r E) ;;; call (EWait 2) (wait_r E))
      (fun _ => call EKill (kill_r E)) = (ETerminate :: t, r) /\
    (terminate_r E = Returns tt /\ wait_r E = Returns tt \/ In EKill t).
Proof.
  destruct (terminate_r E) as [[]|e]; simpl.
  - destruct (wait_r E) as [[]|e]; simpl.
    + do 2 eexists. split; [reflexivity | left; split; reflexivity].
    + destruct (kill_r E) as [[]|e']; simpl;
        (do 2 eexists; split; [reflexivity | right; simpl; auto]).
  - destruct (kill_r E) as [[]|e']; simpl;
      (do 2 eexists; split; [reflexivity | right; simpl; auto]).
Qed.

Lemma cleanup_after_prompt (E : env) (self : MCPHostRunner) (st : Q) (fuel : nat)
    (prompt : pystr) (t : list event) (s : pystr) :
  popen_r E = Returns tt -> write_r E 0 = Returns tt -> flush_r E 0 = Returns tt ->
  run_mcphost_basic_with E self st fuel prompt = (t, Ok s) ->
  In ETerminate t /\
  (terminate_r E = Returns tt /\ wait_r E = Returns tt \/ In EKill t).
Proof.
  intros Hp Hw Hf. unfold run_mcphost_basic_with. rewrite Hp, Hw, Hf. simpl.
  destruct (poll_loop_no_raise E self st (clock E 0) fuel 0 [] []) as [tl [H|[acc H]]];
    rewrite H; simpl; [discriminate|].
  destruct (quit_block_ok E) as [tq Hq]. simpl in Hq. rewrite Hq. simpl.
  destruct (terminate_block_trace E) as (tt' & r & Ht & Hk).
  simpl in Ht. rewrite Ht.
  destruct r as [u|e|]; simpl; intros HR; try discriminate;
    injection HR as <- _;
    (split; [|destruct Hk as [Hk|Hk]; [left; exact Hk | right]]);
    repeat (simpl; rewrite ?in_app_iff); simpl; tauto.
Qed.

(** C3 fails on the path of a failed write: the child has been spawned, the
    write of the prompt raises, and [run_mcphost_basic] returns through its
    outer handler without [terminate] or [kill]. *)
Theorem child_outlives_failed_write :
  popen_r env_broken_pipe = Returns tt /\
  run_mcphost_basic env_broken_pipe demo 5 (lit "hi") =
    ([EPopen (cmd demo); EWrite (lit "hi" ++ [10])],
     Ok (lit "Error running MCPHost: [Errno 32] Broken pipe")) /\
  ~ In ETerminate (fst (run_mcphost_basic env_broken_pipe demo 5 (lit "hi"))) /\
  ~ In EKill (fst (run_mcphost_basic env_broken_pipe demo 5 (lit "hi"))).
Proof.
  split; [reflexivity|]. split; [reflexivity|].
  split; vm_compute; intros [H|[H|[]]]; discriminate.
Qed.

(** C7 fails on the constant: in [mcphost_runner.py] one turn of the loop
    polls the child, waits up to one second for stdout and then up to one
    second for stderr, the same wait and not a shorter one; the copy of the
    function in [test.py] waits a tenth of a second for stderr. *)
Theorem stderr_wait_equals_stdout_wait :
  fst (run_mcphost_basic env_silent demo 5 (lit "hi")) =
    [EPopen (cmd demo); EWrite (lit "hi" ++ [10]); EFlush; ETime;
     ETime; EPoll; ESelect Stdout 1; ESelect Stderr 1;
     ETime;
     EWrite (lit "quit" ++ [10]); EFlush; ESleep (1 # 2); ETerminate; EWait 2] /\
  fst (run_mcphost_basic_test_py env_silent demo 5 (lit "hi")) =
    [EPopen (cmd demo); EWrite (lit "hi" ++ [10]); EFlush; ETime;
     ETime; EPoll; ESelect Stdout 1; ESelect Stderr (1 # 10);
     ETime;
     EWrite (lit "quit" ++ [10]); EFlush; ESleep (1 # 2); ETerminate; EWait 2] /\
  ~ (1 < 1)%Q /\ (1 # 10 < 1)%Q.
Proof.
  split; [reflexivity|]. split; [reflexivity|].
  split; [apply Qlt_irrefl | reflexivity].
Qed.

(** ** The exit test *)

Lemma str_in_In (x : pystr) (xs : list pystr) : str_in x xs = true <-> In x xs.
Proof.
  unfold str_in. rewrite existsb_exists. split.
  - intros [y [Hy He]]. apply str_eqb_eq in He. now subst.
  - intros H. exists x. split; [assumption | now apply str_eqb_eq].
Qed.

(** C6: a turn of the loop ends in [Exit] exactly when the transcript,
    lower-cased, is equal to one of [exit], [quit], [goodbye], [stop], [bye];
    [STOP] exits and [please stop], which only contains one of them, is
    dispatched. *)
Theorem exit_exactly_on_exit_commands
    (unicode_lower : pystr -> pystr) (user_input : option pystr) :
  (run_interactive_turn unicode_lower user_input = Exit <->
   exists s, user_input = Some s /\ In (lower unicode_lower s) exit_commands) /\
  exit_commands = [lit "exit"; lit "quit"; lit "goodbye"; lit "stop"; lit "bye"] /\
  run_interactive_turn unicode_lower (Some (lit "STOP")) = Exit /\
  run_interactive_turn unicode_lower (Some (lit "please stop")) =
    Dispatch (lit "please stop").
Proof.
  split; [|repeat split].
  destruct user_input as [[|c s]|]; unfold run_interactive_turn.
  - split; [discriminate|]. intros [s [Hs Hin]]. injection Hs as <-.
    vm_compute in Hin. repeat destruct Hin as [Hin|Hin]; try discriminate; contradiction.
  - destruct (str_in (lower unicode_lower (c :: s)) exit_commands) eqn:E.
    + split; [intros _|reflexivity]. exists (c :: s). split; [reflexivity|].
      now apply str_in_In.
    + split; [discriminate|]. intros [s' [Hs Hin]]. injection Hs as <-.
      apply str_in_In in Hin. congruence.
  - split; [discriminate|]. intros [s [Hs _]]. discriminate.
Qed.

Lemma exit_exactly_on_exit_commands_witness :
  run_interactive_turn (fun s => s) (Some (lit "Goodbye")) = Exit.
Proof.
  destruct (exit_exactly_on_exit_commands (fun s => s) (Some (lit "Goodbye")))
    as [[_ H] _].
  apply H. exists (lit "Goodbye"). split; [reflexivity|].
  vm_compute. tauto.
Defined.

(** ** Re-applying the noise-removal stage *)

Lemma has_match_cons (m : pystr -> option (pystr * nat)) (c : char) (s : pystr) :
  has_match m (c :: s) = false <-> m (c :: s) = None /\ has_match m s = false.
Proof.
  simpl. destruct (m (c :: s)); split; intros H; try discriminate; auto.
  - destruct H; discriminate.
  - now destruct H.
Qed.

(** A scan with nothing to replace is the identity. *)
Lemma scan_no_match (m : pystr -> option (pystr * nat)) (s : pystr) :
  has_match m s = false -> scan m 0 s = s.
Proof.
  induction s as [|c s IH]; intros H; [reflexivity|].
  apply has_match_cons in H as [Hm Hs].
  rewrite scan_cons, Hm. f_equal. now apply IH.
Qed.

Lemma has_match_suffix (m : pystr -> option (pystr * nat)) (u t : pystr) :
  has_match m (u ++ t) = false -> has_match m t = false.
Proof.
  induction u as [|c u IH]; intros H; [assumption|].
  apply IH. simpl app in H. now apply has_match_cons in H.
Qed.

Lemma skipn_span_lstrip (s : pystr) : skipn (span_len isspace s) s = lstrip s.
Proof.
  induction s as [|c s IH]; [reflexivity|].
  simpl. destruct (isspace c); [exact IH | reflexivity].
Qed.

Lemma lstrip_suffix (s : pystr) :
  exists u, s = u ++ lstrip s /\ Forall (fun c => isspace c = true) u.
Proof.
  induction s as [|c s [u [Hu Hf]]]; [exists []; split; [reflexivity | constructor]|].
  simpl. destruct (isspace c) eqn:E.
  - exists (c :: u). split; [simpl; now f_equal | now constructor].
  - exists []. split; [reflexivity | constructor].
Qed.

Lemma rstrip_prefix (s : pystr) :
  exists t, s = rstrip s ++ t /\ Forall (fun c => isspace c = true) t.
Proof.
  unfold rstrip. destruct (lstrip_suffix (rev s)) as [u [Hu Hf]].
  exists (rev u). split; [|now apply Forall_rev].
  rewrite <- rev_app_distr, <- Hu. symmetry. apply rev_involutive.
Qed.

Lemma lstrip_head (s : pystr) (c : char) (r : pystr) :
  lstrip s = c :: r -> isspace c = false.
Proof.
  induction s as [|d s IH]; [discriminate|].
  simpl. destruct (isspace d) eqn:E; [exact IH|].
  intros H; injection H as <- _. exact E.
Qed.

Lemma lstrip_fixed (c : char) (r : pystr) :
  isspace c = false -> lstrip (c :: r) = c :: r.
Proof. intros H. simpl. now rewrite H. Qed.

Lemma lstrip_idem (s : pystr) : lstrip (lstrip s) = lstrip s.
Proof.
  destruct (lstrip s) as [|c r] eqn:E; [reflexivity|].
  apply lstrip_fixed. eapply lstrip_head; eassumption.
Qed.

Lemma rstrip_idem (s : pystr) : rstrip (rstrip s) = rstrip s.
Proof.
  unfold rstrip. now rewrite rev_involutive, lstrip_idem.
Qed.

Lemma lstrip_strip (s : pystr) : lstrip (strip s) = strip s.
Proof.
  unfold strip. destruct (rstrip_prefix (lstrip s)) as [t [Ht _]].
  destruct (rstrip (lstrip s)) as [|c r] eqn:E; [reflexivity|].
  apply lstrip_fixed. rewrite Ht in *. simpl in Ht.
  eapply lstrip_head. rewrite Ht. reflexivity.
Qed.

Lemma strip_idem (s : pystr) : strip (strip s) = strip s.
Proof.
  unfold strip at 1. rewrite lstrip_strip. unfold strip. apply rstrip_idem.
Qed.

(** *** The collapse of whitespace *)

Lemma collapse_cons (c : char) (s : pystr) :
  scan match_ws 0 (c :: s) =
  if isspace c then 32 :: scan match_ws 0 (lstrip s) else c :: scan match_ws 0 s.
Proof.
  rewrite scan_cons. unfold match_ws. simpl span_len.
  destruct (isspace c); [|reflexivity].
  simpl. now rewrite skipn_span_lstrip.
Qed.

Lemma collapse_norm (s : pystr) : ws_norm s = true -> scan match_ws 0 s = s.
Proof.
  induction s as [|c s IH]; intros H; [reflexivity|].
  rewrite collapse_cons. simpl in H. apply andb_true_iff in H as [Hc Hs].
  destruct (isspace c) eqn:E.
  - apply andb_true_iff in Hc as [Hc Hd]. apply N.eqb_eq in Hc. subst c.
    f_equal. destruct s as [|d s']; [reflexivity|].
    apply negb_true_iff in Hd. rewrite lstrip_fixed by assumption. now apply IH.
  - f_equal. now apply IH.
Qed.

Lemma collapse_head (s : pystr) (c : char) (r : pystr) :
  scan match_ws 0 s = c :: r ->
  exists d s', s = d :: s' /\ (isspace c = true -> c = 32 /\ isspace d = true) /\
               (isspace c = false -> d = c).
Proof.
  destruct s as [|d s']; [discriminate|].
  rewrite collapse_cons. destruct (isspace d) eqn:E; intros H; injection H as <- _.
  - exists d, s'. repeat split; auto. discriminate.
  - exists d, s'. repeat split; auto; congruence.
Qed.

Lemma collapse_is_norm (s : pystr) : ws_norm (scan match_ws 0 s) = true.
Proof.
  remember (List.length s) as n eqn:Hn. revert s Hn.
  induction n as [n IH] using lt_wf_ind. intros [|c s] Hn; [reflexivity|].
  rewrite collapse_cons. destruct (isspace c) eqn:E.
  - simpl. destruct (lstrip_suffix s) as [u [Hu _]].
    assert (Hl : (List.length (lstrip s) <= List.length s)%nat).
    { rewrite Hu at 2. rewrite length_app. lia. }
    rewrite (IH (List.length (lstrip s))); [|simpl in Hn; lia | reflexivity].
    destruct (scan match_ws 0 (lstrip s)) as [|d r] eqn:Es; [reflexivity|].
    apply collapse_head in Es as (d' & s' & Hs & Hsp & Hns).
    apply lstrip_head in Hs.
    destruct (isspace d) eqn:Ed; [|reflexivity].
    destruct (Hsp eq_refl) as [_ Hd']. congruence.
  - simpl. rewrite E. simpl. apply (IH (List.length s)); [simpl in Hn; lia | reflexivity].
Qed.

Lemma ws_norm_suffix (u t : pystr) : ws_norm (u ++ t) = true -> ws_norm t = true.
Proof.
  induction u as [|c u IH]; intros H; [assumption|].
  simpl in H. apply andb_true_iff in H as [_ H]. now apply IH.
Qed.

Lemma ws_norm_prefix (p t : pystr) : ws_norm (p ++ t) = true -> ws_norm p = true.
Proof.
  induction p as [|c p IH]; intros H; [reflexivity|].
  simpl in H. apply andb_true_iff in H as [Hc H].
  simpl. rewrite (IH H), andb_true_r.
  destruct (isspace c); [|reflexivity].
  apply andb_true_iff in Hc as [Hc Hd]. rewrite Hc. simpl.
  destruct p as [|d p]; [reflexivity|]. exact Hd.
Qed.

Lemma ws_norm_strip (s : pystr) : ws_norm s = true -> ws_norm (strip s) = true.
Proof.
  intros H. unfold strip.
  destruct (lstrip_suffix s) as [u [Hu _]].
  destruct (rstrip_prefix (lstrip s)) as [t [Ht _]].
  rewrite Hu in H. apply ws_norm_suffix in H.
  rewrite Ht in H. now apply ws_norm_prefix in H.
Qed.

(** *** The removal of tags *)

Lemma match_tag_other (c : char) (s : pystr) : c <> 60 -> match_tag (c :: s) = None.
Proof.
  intros Hc. unfold match_tag. destruct c as [|p]; [reflexivity|].
  do 6 (destruct p as [p|p|]; try reflexivity). congruence.
Qed.

Lemma match_tag_lt_gt (s : pystr) : match_tag (60 :: 62 :: s) = None.
Proof. reflexivity. Qed.

Lemma span_rest_nil (p : char -> bool) (s : pystr) :
  skipn (span_len p s) s = [] <-> Forall (fun c => p c = true) s.
Proof.
  induction s as [|c s IH]; simpl; [split; constructor|].
  destruct (p c) eqn:E.
  - rewrite IH. split; [now constructor | intros H; now inversion H].
  - split; [discriminate | intros H; inversion H; congruence].
Qed.

Lemma span_rest_head (p : char -> bool) (s : pystr) (d : char) (r : pystr) :
  skipn (span_len p s) s = d :: r -> p d = false.
Proof.
  induction s as [|c s IH]; simpl; [discriminate|].
  destruct (p c) eqn:E; [exact IH|].
  intros H; injection H as <- _. exact E.
Qed.

Lemma not_in_62 (s : pystr) :
  Forall (fun c => negb (c =? 62) = true) s <-> ~ In 62 s.
Proof.
  rewrite Forall_forall. split.
  - intros H Hin. specialize (H _ Hin). discriminate.
  - intros H c Hc. apply negb_true_iff, N.eqb_neq. intros ->. contradiction.
Qed.

Lemma match_tag_lt (c : char) (rest : pystr) :
  c <> 62 -> (match_tag (60 :: c :: rest) = None <-> ~ In 62 rest).
Proof.
  intros Hc. unfold match_tag. simpl span_len.
  apply N.eqb_neq in Hc. rewrite Hc. simpl negb. cbv iota.
  change (skipn (S ?n) (c :: rest)) with (skipn n rest).
  rewrite <- not_in_62, <- span_rest_nil.
  destruct (skipn (span_len (fun c0 => negb (c0 =? 62)) rest) rest) as [|d r] eqn:E.
  - split; reflexivity.
  - apply span_rest_head in E. apply negb_false_iff, N.eqb_eq in E. subst d.
    split; discriminate.
Qed.

(** A scan [G] that copies [>] and never makes one keeps a position free of
    a tag when it goes on after copying the character at that position. *)
Lemma tag_none_preserved (G : pystr -> pystr) :
  G [] = [] ->
  (forall r, G (62 :: r) = 62 :: G r) ->
  (forall s, ~ In 62 s -> ~ In 62 (G s)) ->
  forall c s, match_tag (c :: s) = None -> match_tag (c :: G s) = None.
Proof.
  intros Hnil Hgt Hin c s Hm.
  destruct (N.eq_dec c 60) as [->|Hc]; [|now apply match_tag_other].
  destruct s as [|d s']; [now rewrite Hnil|].
  destruct (N.eq_dec d 62) as [->|Hd]; [now rewrite Hgt|].
  apply (match_tag_lt d s' Hd) in Hm.
  assert (Hno : ~ In 62 (G (d :: s'))).
  { apply Hin. intros [H|H]; [congruence | contradiction]. }
  destruct (G (d :: s')) as [|e r]; [reflexivity|].
  destruct (N.eq_dec e 62) as [->|He]; [reflexivity|].
  apply match_tag_lt; [assumption|]. intros H. apply Hno. now right.
Qed.

Lemma untag_keeps_no_gt (s : pystr) (k : nat) : ~ In 62 s -> ~ In 62 (scan match_tag k s).
Proof.
  rewrite <- !not_in_62. apply scan_Forall.
  intros t r n _ H. apply match_tag_repl in H as [-> _]. constructor.
Qed.

Lemma collapse_keeps_no_gt (s : pystr) (k : nat) : ~ In 62 s -> ~ In 62 (scan match_ws k s).
Proof.
  rewrite <- !not_in_62. apply scan_Forall.
  intros t r n _ H. apply match_ws_repl in H as [-> _].
  constructor; [reflexivity | constructor].
Qed.

Lemma length_skipn_le {A} (n : nat) (l : list A) : (List.length (skipn n l) <= List.length l)%nat.
Proof. rewrite length_skipn. lia. Qed.

(** The text left by the removal of tags holds no tag. *)
Lemma untag_is_tagfree (s : pystr) : has_match match_tag (scan match_tag 0 s) = false.
Proof.
  remember (List.length s) as n eqn:Hn. revert s Hn.
  induction n as [n IH] using lt_wf_ind. intros [|c s] Hn; [reflexivity|].
  rewrite scan_cons. destruct (match_tag (c :: s)) as [[r k]|] eqn:E.
  - apply match_tag_repl in E as [-> _]. simpl.
    apply (IH (List.length (skipn (Nat.pred k) s))); [|reflexivity].
    pose proof (length_skipn_le (Nat.pred k) s). simpl in Hn. lia.
  - apply has_match_cons. split.
    + apply (tag_none_preserved (scan match_tag 0)); try assumption; try reflexivity.
      intros t. apply untag_keeps_no_gt.
    + apply (IH (List.length s)); [simpl in Hn; lia | reflexivity].
Qed.

(** The collapse of whitespace makes no tag. *)
Lemma collapse_keeps_tagfree (s : pystr) :
  has_match match_tag s = false -> has_match match_tag (scan match_ws 0 s) = false.
Proof.
  remember (List.length s) as n eqn:Hn. revert s Hn.
  induction n as [n IH] using lt_wf_ind. intros [|c s] Hn H; [reflexivity|].
  apply has_match_cons in H as [Hm Hs].
  rewrite collapse_cons. destruct (isspace c) eqn:E.
  - apply has_match_cons. split; [now apply match_tag_other|].
    destruct (lstrip_suffix s) as [u [Hu _]].
    apply (IH (List.length (lstrip s))); [| reflexivity |].
    + assert (List.length s = (List.length u + List.length (lstrip s))%nat)
        by (rewrite Hu at 1; apply length_app).
      simpl in Hn. lia.
    + rewrite Hu in Hs. now apply has_match_suffix in Hs.
  - apply has_match_cons. split.
    + apply (tag_none_preserved (scan match_ws 0)); try assumption; try reflexivity.
      intros t. apply collapse_keeps_no_gt.
    + apply (IH (List.length s)); [simpl in Hn; lia | reflexivity | assumption].
Qed.

Lemma match_tag_extend (t v : pystr) :
  match_tag (t ++ v) = None -> match_tag t = None.
Proof.
  destruct t as [|c t]; [reflexivity|].
  destruct (N.eq_dec c 60) as [->|Hc]; [|intros _; now apply match_tag_other].
  destruct t as [|d t]; [reflexivity|].
  destruct (N.eq_dec d 62) as [->|Hd]; [reflexivity|].
  simpl app. rewrite !match_tag_lt by assumption.
  intros H Hin. apply H. apply in_or_app. now left.
Qed.

Lemma tagfree_prefix (p v : pystr) :
  has_match match_tag (p ++ v) = false -> has_match match_tag p = false.
Proof.
  induction p as [|c p IH]; intros H; [reflexivity|].
  simpl app in H. apply has_match_cons in H as [Hm Hs].
  apply has_match_cons. split; [|now apply IH].
  now apply (match_tag_extend (c :: p) v).
Qed.

Lemma strip_keeps_tagfree (s : pystr) :
  has_match match_tag s = false -> has_match match_tag (strip s) = false.
Proof.
  intros H. unfold strip.
  destruct (lstrip_suffix s) as [u [Hu _]].
  destruct (rstrip_prefix (lstrip s)) as [t [Ht _]].
  rewrite Hu in H. apply has_match_suffix in H.
  rewrite Ht in H. now apply tagfree_prefix in H.
Qed.

(** *** The text left by [tidy] is a fixed point of [tidy] *)

Lemma filter_all (f : char -> bool) (s : pystr) :
  Forall (fun c => f c = true) s -> filter f s = s.
Proof.
  induction 1 as [|c s Hc Hs IH]; [reflexivity|].
  simpl. rewrite Hc. now f_equal.
Qed.

Lemma filter_none (f : char -> bool) (s : pystr) :
  Forall (fun c => f c = false) s -> filter f s = [].
Proof.
  induction 1 as [|c s Hc Hs IH]; [reflexivity|].
  simpl. now rewrite Hc.
Qed.

Lemma tidy_fixed (s : pystr) : tidy (tidy s) = tidy s.
Proof.
  unfold tidy at 1.
  rewrite filter_all.
  2:{ eapply Forall_impl; [|apply tidy_printable].
      intros c Hc. simpl. now rewrite Hc. }
  assert (Htag : has_match match_tag (tidy s) = false).
  { unfold tidy. apply strip_keeps_tagfree, collapse_keeps_tagfree, untag_is_tagfree. }
  rewrite (scan_no_match match_tag) by assumption.
  assert (Hws : ws_norm (tidy s) = true).
  { unfold tidy. apply ws_norm_strip, collapse_is_norm. }
  rewrite collapse_norm by assumption.
  unfold tidy. apply strip_idem.
Qed.

Lemma split_nl_one_line (s : pystr) :
  Forall (fun c => 32 <= c) s -> split_nl s = [s].
Proof.
  induction 1 as [|c s Hc Hs IH]; [reflexivity|].
  simpl. destruct (N.eqb_spec c 10) as [->|_]; [lia|]. now rewrite IH.
Qed.

(** A non-empty text left by [clean_mcphost_response] is one line, which the
    loop over the lines keeps unless it holds a substring of the denylist. *)
Lemma clean_lines_of_output (response : option pystr) :
  let y := clean_mcphost_response response in
  y <> [] ->
  clean_lines (split_nl y) = if has_skip_pattern y then [] else [y].
Proof.
  intros y Hy.
  pose proof (clean_mcphost_response_ge_32 response) as Hp. fold y in Hp.
  rewrite (split_nl_one_line y Hp).
  assert (Hs : strip y = y).
  { subst y. destruct response as [[|c r]|]; try reflexivity.
    unfold clean_mcphost_response, tidy. apply strip_idem. }
  simpl. unfold skipped. fold (has_skip_pattern y).
  destruct (has_skip_pattern y); [reflexivity|].
  rewrite Hs. rewrite filter_none.
  2:{ eapply Forall_impl; [|exact Hp]. intros c Hc. simpl. apply N.ltb_ge. exact Hc. }
  simpl. destruct y as [|c r]; [congruence|].
  assert (H0 : forall x, (x <? 0)%nat = false) by (intros; apply Nat.ltb_ge; lia).
  cbn [str_eqb orb]. rewrite H0, andb_false_r. reflexivity.
Qed.

(** Re-applying [clean_mcphost_response] to its own output gives the output
    back unless the output holds a substring of the denylist, in which case
    it gives the empty string. *)
Lemma clean_mcphost_response_again (response : option pystr) :
  clean_mcphost_response (Some (clean_mcphost_response response)) =
  if has_skip_pattern (clean_mcphost_response response) then []
  else clean_mcphost_response response.
Proof.
  pose proof (clean_lines_of_output response) as Hl. simpl in Hl.
  destruct (clean_mcphost_response response) as [|c y] eqn:Ey.
  - reflexivity.
  - unfold clean_mcphost_response at 1.
    rewrite Hl by discriminate.
    destruct (has_skip_pattern (c :: y)); [reflexivity|].
    simpl join_sp. rewrite <- Ey.
    destruct response as [[|d r]|]; try discriminate.
    unfold clean_mcphost_response. apply tidy_fixed.
Qed.

(** ** Re-applying the speech-shaping stage *)

(** *** Occurrences of a substring *)

Lemma contains_occurs (x t : pystr) : contains x t = true <-> occurs x t.
Proof.
  unfold occurs. induction t as [|c t IH].
  - simpl. rewrite orb_false_r, startswith_app. split.
    + intros [v Hv]. exists [], v. exact Hv.
    + intros [u [v H]]. destruct u; [now exists v | discriminate].
  - simpl. rewrite orb_true_iff, startswith_app, IH. split.
    + intros [[v Hv]|[u [v Huv]]]; [exists [], v; exact Hv|].
      exists (c :: u), v. simpl. now f_equal.
    + intros [[|d u] [v H]]; [left; now exists v|].
      right. injection H as _ H. now exists u, v.
Qed.

Lemma not_contains (x t : pystr) : contains x t = false <-> ~ occurs x t.
Proof.
  rewrite <- contains_occurs. destruct (contains x t); split; congruence.
Qed.

Lemma occurs_app (x u v : pystr) :
  occurs x (u ++ v) ->
  occurs x u \/ occurs x v \/
  exists x1 x2, x = x1 ++ x2 /\ x1 <> [] /\ x2 <> [] /\
                (exists u', u = u' ++ x1) /\ (exists v', v = x2 ++ v').
Proof.
  intros [p [q H]].
  apply app_eq_app in H as [l [[Hu Hv]|[Hp Hv]]].
  - symmetry in Hv. apply app_eq_app in Hv as [l' [[Hl Hq]|[Hx Hv]]].
    + left. exists p, l'. rewrite Hu, Hl. reflexivity.
    + destruct l as [|c l].
      * right; left. exists [], q. simpl in *. subst. reflexivity.
      * destruct l' as [|c' l'].
        -- left. exists p, []. rewrite Hu, Hx, !app_nil_r. reflexivity.
        -- right; right. exists (c :: l), (c' :: l').
           repeat split; try discriminate; try assumption.
           ++ now exists p.
           ++ now exists q.
  - right; left. exists l, q. exact Hv.
Qed.

Lemma occurs_mono (x u t v : pystr) : occurs x t -> occurs x (u ++ t ++ v).
Proof.
  intros [p [q ->]]. exists (u ++ p), (q ++ v). now rewrite !app_assoc.
Qed.

Lemma mem_In (c : char) (x : pystr) : mem c x = false <-> ~ In c x.
Proof.
  unfold mem. split.
  - intros H Hin. assert (existsb (N.eqb c) x = true); [|congruence].
    apply existsb_exists. exists c. split; [assumption | apply N.eqb_refl].
  - intros H. destruct (existsb (N.eqb c) x) eqn:E; [|reflexivity].
    apply existsb_exists in E as [d [Hd He]]. apply N.eqb_eq in He. subst. contradiction.
Qed.

(** An occurrence of [x] cannot go over a character that is not in [x]. *)
Lemma occurs_barrier (x u v : pystr) (c : char) :
  ~ In c x -> occurs x (u ++ c :: v) -> occurs x u \/ occurs x v.
Proof.
  intros Hc H.
  destruct x as [|e x]; [left; exists u, []; now rewrite app_nil_r|].
  apply occurs_app in H as [H|[H|H]].
  - now left.
  - change (c :: v) with ([c] ++ v) in H.
    apply occurs_app in H as [[p [q H]]|[H|H]].
    + exfalso. destruct p as [|d p]; simpl in H.
      * injection H as -> _. apply Hc. now left.
      * injection H as _ H. destruct p; discriminate.
    + now right.
    + destruct H as (x1 & x2 & Hx & Hx1 & _ & [u' Hu'] & _).
      exfalso. destruct u' as [|d u'].
      * simpl in Hu'. subst x1. simpl in Hx. injection Hx as -> _.
        apply Hc. now left.
      * injection Hu' as _ Hu'. destruct u'; destruct x1; try discriminate; congruence.
  - destruct H as (x1 & x2 & Hx & _ & Hx2 & _ & [v' Hv']).
    exfalso. destruct x2 as [|d x2]; [congruence|].
    injection Hv' as <- _. apply Hc. rewrite Hx. apply in_or_app. right. now left.
Qed.

Lemma startswith_shorter (old b2 v : pystr) :
  startswith old (b2 ++ v) = true -> (List.length b2 <= List.length old)%nat ->
  startswith b2 old = true.
Proof.
  rewrite !startswith_app. intros [w Hw] Hlen.
  apply app_eq_app in Hw as [l [[Hb Hv]|[Ho Hv]]].
  - assert (l = []).
    { apply (f_equal (@List.length _)) in Hb. rewrite length_app in Hb.
      destruct l; [reflexivity | simpl in Hb; lia]. }
    subst l. exists []. rewrite Hb, !app_nil_r. reflexivity.
  - now exists l.
Qed.

Lemma borderless_spec (old o1 o2 : pystr) :
  borderless old = true -> old = o1 ++ o2 -> o1 <> [] -> o2 <> [] ->
  startswith o2 old = false.
Proof.
  unfold borderless. rewrite forallb_forall. intros H Ho H1 H2.
  specialize (H (List.length o1)).
  assert (Hs : skipn (List.length o1) old = o2).
  { rewrite Ho. rewrite skipn_app, skipn_all, Nat.sub_diag. reflexivity. }
  rewrite Hs in H. apply negb_true_iff, H.
  apply in_seq. unfold len. rewrite Ho at 1. rewrite length_app.
  destruct o1; [congruence|]. destruct o2; [congruence|]. simpl. lia.
Qed.

(** *** One replacement *)

Lemma replace_copy (old new : pystr) (c : char) (s : pystr) :
  startswith old (c :: s) = false ->
  replace old new (c :: s) = c :: replace old new s.
Proof. intros H. unfold replace. rewrite scan_cons, H. reflexivity. Qed.

Lemma replace_match (old new v : pystr) :
  old <> [] -> replace old new (old ++ v) = new ++ replace old new v.
Proof.
  intros Ho. destruct old as [|c old]; [congruence|].
  unfold replace. simpl app. rewrite scan_cons.
  assert (Hs : startswith (c :: old) (c :: old ++ v) = true).
  { apply startswith_app. now exists v. }
  rewrite Hs. f_equal. f_equal. simpl.
  rewrite skipn_app, skipn_all, Nat.sub_diag. reflexivity.
Qed.

(** When [old] does not occur, [replace] changes nothing. *)
Lemma replace_absent (old new s : pystr) :
  contains old s = false -> replace old new s = s.
Proof.
  intros H. unfold replace. apply scan_no_match.
  induction s as [|c s IH]; [reflexivity|].
  simpl in H. apply orb_false_iff in H as [H1 H2].
  apply has_match_cons. split; [|now apply IH].
  simpl startswith. simpl in H1. now rewrite H1.
Qed.

Section OneReplacement.

Variables x old new a inner b : pystr.
Hypothesis Hx : x <> [].
Hypothesis Hold : old <> [].
Hypothesis Hnew : new = a ++ inner ++ b.
Hypothesis Ha : exists o2, old = a ++ o2.
Hypothesis Hb : exists o1, old = o1 ++ b /\ o1 <> [].
Hypothesis Hfirst : exists c r, inner = c :: r /\ ~ In c x.
Hypothesis Hlast : exists r c, inner = r ++ [c] /\ ~ In c x.
Hypothesis Hnx : ~ occurs x new.
Hypothesis Hbl : borderless old = true.

Lemma inv_extend_absent (lout w s a' rest : pystr) :
  scan_inv x lout w s -> s = a' ++ rest -> ~ occurs x a' -> ~ occurs x (lout ++ a').
Proof.
  intros (H1 & H2 & H3) Hs Ha' Ho.
  apply occurs_app in Ho as [Ho|[Ho|Ho]]; [contradiction | contradiction |].
  destruct Ho as (x1 & x2 & Hx12 & Hx1 & _ & [u' Hu'] & [v' Hv']).
  destruct (H1 u' x1 Hu') as [w1 Hw].
  { intros c Hc. rewrite Hx12. apply in_or_app. now left. }
  specialize (H2 w1 x1 Hw Hx1).
  assert (Ht : startswith x (x1 ++ s) = true).
  { apply startswith_app. exists (v' ++ rest).
    rewrite Hs, Hv', Hx12, <- !app_assoc. reflexivity. }
  congruence.
Qed.

Lemma inv_suffix_extend (lout w s a' : pystr) :
  scan_inv x lout w s ->
  forall z1 z, lout ++ a' = z1 ++ z -> (forall c, In c z -> In c x) ->
               exists w1, w ++ a' = w1 ++ z.
Proof.
  intros (H1 & _ & _) z1 z Hz Hin.
  apply app_eq_app in Hz as [l [[Hl Hz]|[Hl Hz]]].
  - destruct (H1 z1 l Hl) as [w1 Hw].
    { intros c Hc. apply Hin. rewrite Hz. apply in_or_app. now left. }
    exists w1. rewrite Hz, Hw, app_assoc. reflexivity.
  - exists (w ++ l). rewrite Hz, app_assoc. reflexivity.
Qed.

Lemma local_to_tail (u s : pystr) : local_to x old (u ++ s) -> local_to x old s.
Proof.
  intros H t1 t2 Hs. apply (H (u ++ t1) t2). rewrite Hs, app_assoc. reflexivity.
Qed.

Lemma inv_copy (lout w : pystr) (c : char) (s : pystr) :
  scan_inv x lout w (c :: s) -> local_to x old (c :: s) ->
  startswith old (c :: s) = false ->
  scan_inv x (lout ++ [c]) (w ++ [c]) s.
Proof.
  intros Hinv Hloc Hno.
  assert (Hxc : startswith x (c :: s) = false).
  { destruct (startswith x (c :: s)) eqn:E; [|reflexivity].
    apply (Hloc [] (c :: s) eq_refl) in E. congruence. }
  split; [|split].
  - now apply (inv_suffix_extend lout w (c :: s)).
  - intros w1 w2 Hw Hw2.
    destruct (exists_last Hw2) as (w2' & c' & ->).
    rewrite app_assoc in Hw. apply app_inj_tail in Hw as [Hw <-].
    rewrite <- app_assoc. simpl app.
    destruct w2' as [|d w2']; [exact Hxc|].
    destruct Hinv as (_ & H2 & _). apply (H2 w1); [assumption | discriminate].
  - apply (inv_extend_absent lout w (c :: s) [c] s Hinv eq_refl).
    intros [u [v Huv]].
    assert (x = [c]).
    { destruct x as [|e x']; [congruence|].
      destruct u as [|d u]; simpl in Huv.
      - injection Huv as -> Huv. destruct x'; [reflexivity | discriminate].
      - injection Huv as _ Huv. destruct u; discriminate. }
    subst x. simpl in Hxc. rewrite N.eqb_refl in Hxc. discriminate.
Qed.

Lemma inv_match (lout w s : pystr) :
  scan_inv x lout w (old ++ s) -> local_to x old (old ++ s) ->
  scan_inv x (lout ++ new) b s.
Proof.
  intros Hinv Hloc.
  destruct Ha as [o2 Ho2]. destruct Hb as [o1 [Ho1 Hne]].
  destruct Hfirst as (c1 & r1 & Hi1 & Hc1). destruct Hlast as (r2 & c2 & Hi2 & Hc2).
  split; [|split].
  - intros z1 z Hz Hin.
    rewrite Hnew, Hi2 in Hz.
    replace (lout ++ a ++ (r2 ++ [c2]) ++ b) with (((lout ++ a ++ r2) ++ [c2]) ++ b) in Hz
      by (rewrite <- !app_assoc; reflexivity).
    apply app_eq_app in Hz as [l [[Hl Hz]|[Hl Hz]]].
    + destruct l as [|d l]; [exists []; rewrite Hz; reflexivity|].
      exfalso. destruct (@exists_last _ (d :: l)) as (l' & c' & El); [discriminate|].
      rewrite El in *. rewrite (app_assoc z1 l' [c']) in Hl.
      apply app_inj_tail in Hl as [_ <-].
      apply Hc2, Hin. rewrite Hz. apply in_or_app. left. apply in_or_app. right. now left.
    + now exists l.
  - intros w1 w2 Hw Hw2.
    destruct (startswith x (w2 ++ s)) eqn:E; [|reflexivity]. exfalso.
    assert (Hsplit : old = (o1 ++ w1) ++ w2) by (rewrite Ho1, Hw, app_assoc; reflexivity).
    apply (Hloc (o1 ++ w1) (w2 ++ s)) in E.
    2:{ rewrite Hsplit at 1. rewrite <- !app_assoc. reflexivity. }
    apply startswith_shorter in E.
    2:{ rewrite Hsplit, length_app. lia. }
    rewrite (borderless_spec old (o1 ++ w1) w2 Hbl Hsplit) in E; try assumption; try discriminate.
    destruct o1; [congruence | discriminate].
  - rewrite Hnew, Hi1.
    replace (lout ++ a ++ (c1 :: r1) ++ b) with ((lout ++ a) ++ c1 :: (r1 ++ b))
      by (rewrite <- !app_assoc; reflexivity).
    intros Ho. apply (occurs_barrier x _ _ c1 Hc1) in Ho as [Ho|Ho].
    + revert Ho. apply (inv_extend_absent lout w (old ++ s) a (o2 ++ s) Hinv).
      * rewrite Ho2 at 1. rewrite <- app_assoc. reflexivity.
      * intros Hoa. apply Hnx. rewrite Hnew.
        apply (occurs_mono x [] a (inner ++ b)) in Hoa. exact Hoa.
    + apply Hnx. rewrite Hnew, Hi1.
      apply (occurs_mono x (a ++ [c1]) (r1 ++ b) []) in Ho.
      rewrite app_nil_r, <- !app_assoc in Ho. exact Ho.
Qed.

Lemma replace_inv (n : nat) :
  forall s, (List.length s <= n)%nat ->
  forall lout w, scan_inv x lout w s -> local_to x old s ->
  ~ occurs x (lout ++ replace old new s).
Proof.
  induction n as [|n IH]; intros s Hn lout w Hinv Hloc.
  - destruct s; [|simpl in Hn; lia].
    unfold replace. simpl. rewrite app_nil_r. apply Hinv.
  - destruct s as [|c s].
    { unfold replace. simpl. rewrite app_nil_r. apply Hinv. }
    destruct (startswith old (c :: s)) eqn:E.
    + apply startswith_app in E as [v Hv]. rewrite Hv in *.
      rewrite replace_match by assumption. rewrite app_assoc.
      apply (IH v) with (w := b).
      * rewrite length_app in Hn. destruct old; [congruence | simpl in Hn; lia].
      * now apply (inv_match lout w v).
      * now apply (local_to_tail old v).
    + rewrite replace_copy by assumption.
      change (lout ++ c :: replace old new s) with (lout ++ [c] ++ replace old new s).
      rewrite app_assoc.
      apply (IH s) with (w := w ++ [c]).
      * simpl in Hn. lia.
      * now apply inv_copy.
      * now apply (local_to_tail [c] s).
Qed.

Lemma replace_keeps_out (s : pystr) :
  local_to x old s -> contains x (replace old new s) = false.
Proof.
  intros Hloc. apply not_contains.
  apply (replace_inv (List.length s) s (Nat.le_refl _) [] []); [|assumption].
  split; [|split].
  - intros z1 z Hz _. exists []. symmetry in Hz. apply app_eq_nil in Hz as [_ ->]. reflexivity.
  - intros w1 w2 Hw Hw2. symmetry in Hw. apply app_eq_nil in Hw as [_ ->]. congruence.
  - intros [u [v H]]. symmetry in H. apply app_eq_nil in H as [_ H].
    apply app_eq_nil in H as [-> _]. congruence.
Qed.

End OneReplacement.

Lemma pair_ok_keeps_out (x old new s : pystr) :
  pair_ok x old new = true -> local_to x old s ->
  contains x (replace old new s) = false.
Proof.
  unfold pair_ok. intros H Hloc.
  apply existsb_exists in H as [ka [_ H]].
  apply existsb_exists in H as [kb [_ H]].
  unfold split_ok in H.
  repeat (apply andb_true_iff in H as [H ?]).
  set (a := firstn ka new) in *.
  set (inner := firstn kb (skipn ka new)) in *.
  set (b := skipn kb (skipn ka new)) in *.
  apply (replace_keeps_out x old new a inner b); try assumption.
  - intros ->. discriminate.
  - intros ->. discriminate.
  - unfold a, inner, b. now rewrite !firstn_skipn.
  - now apply startswith_app.
  - match goal with Hs : startswith (rev b) (rev old) = true |- _ =>
      apply startswith_app in Hs as [v Hv] end.
    assert (Ho : old = rev v ++ b).
    { rewrite <- (rev_involutive old), Hv, rev_app_distr, rev_involutive. reflexivity. }
    exists (rev v). split; [assumption|].
    match goal with Hl : (len b <? len old)%nat = true |- _ =>
      apply Nat.ltb_lt in Hl; unfold len in Hl end.
    intros Hv0. rewrite Hv0 in Ho. simpl in Ho. rewrite <- Ho in *. lia.
  - destruct inner as [|c r]; [discriminate|]. exists c, r. split; [reflexivity|].
    apply mem_In. now apply negb_true_iff.
  - destruct (rev inner) as [|c r] eqn:Er; [discriminate|].
    exists (rev r), c. split.
    + rewrite <- (rev_involutive inner), Er. reflexivity.
    + apply mem_In. now apply negb_true_iff.
  - apply not_contains. now apply negb_true_iff.
Qed.

Lemma local_to_self (old s : pystr) : local_to old old s.
Proof. intros t1 t2 _ H. exact H. Qed.

Lemma local_to_absent (x old s : pystr) : contains x s = false -> local_to x old s.
Proof.
  intros H t1 t2 Hs Ht. exfalso.
  apply not_contains in H. apply H.
  apply startswith_app in Ht as [v Hv]. exists t1, v. now rewrite Hs, Hv.
Qed.

(** *** The chain of replacements *)

Lemma chain_absent (rs : list (pystr * pystr)) :
  forall done s,
    chain_ok done rs = true ->
    (forall x, In x done -> contains x s = false) ->
    forall x, In x done \/ In x (map fst rs) ->
              contains x (apply_replacements rs s) = false.
Proof.
  induction rs as [|[old new] rest IH]; intros done s Hok Hdone x Hin.
  - destruct Hin as [Hin|[]]. now apply Hdone.
  - simpl in Hok. apply andb_true_iff in Hok as [Hp Hok].
    apply andb_true_iff in Hp as [Hself Hprev].
    rewrite forallb_forall in Hprev.
    unfold apply_replacements. simpl fold_left.
    apply (IH (old :: done) (replace old new s) Hok).
    + intros y [<-|Hy].
      * apply pair_ok_keeps_out; [assumption | apply local_to_self].
      * apply pair_ok_keeps_out; [now apply Hprev | now apply local_to_absent, Hdone].
    + destruct Hin as [Hin|[Hin|Hin]].
      * left. now right.
      * left. left. exact Hin.
      * now right.
Qed.

(** After the loop over [replacements], none of its terms is left in the
    text. *)
Lemma no_term_left (s x : pystr) :
  In x (map fst replacements) ->
  contains x (apply_replacements replacements s) = false.
Proof.
  intros Hin. apply (chain_absent replacements [] s); [|intros y []|now right].
  vm_compute. reflexivity.
Qed.

Lemma apply_absent (rs : list (pystr * pystr)) (s : pystr) :
  (forall x, In x (map fst rs) -> contains x s = false) ->
  apply_replacements rs s = s.
Proof.
  induction rs as [|[old new] rest IH]; intros H; [reflexivity|].
  unfold apply_replacements. simpl fold_left.
  rewrite replace_absent by (apply H; now left).
  apply IH. intros x Hx. apply H. now right.
Qed.

(** *** Characters that the stage removes *)

Lemma replace_char_removed (a : char) (s : pystr) : ~ In a (replace [a] [] s).
Proof.
  induction s as [|c s IH]; [intros []|].
  unfold replace in *. rewrite scan_cons. simpl startswith.
  destruct (N.eqb_spec a c) as [->|Hac]; simpl.
  - exact IH.
  - intros [H|H]; [congruence | contradiction].
Qed.

Lemma replace_empty_Forall (P : char -> Prop) (old s : pystr) :
  Forall P s -> Forall P (replace old [] s).
Proof.
  apply scan_Forall. intros t r n _ H.
  destruct (startswith old t); [|discriminate]. injection H as <- _. constructor.
Qed.

Lemma replace_Forall (P : char -> Prop) (old new s : pystr) :
  Forall P new -> Forall P s -> Forall P (replace old new s).
Proof.
  intros Hnew. apply scan_Forall. intros t r n _ H.
  destruct (startswith old t); [|discriminate]. injection H as <- _. exact Hnew.
Qed.

Lemma match_link_repl (t r : pystr) (n : nat) :
  match_link t = Some (r, n) -> exists c s1 k, t = c :: s1 /\ r = firstn k s1.
Proof.
  destruct t as [|c s1]; [discriminate|]. intros H. exists c, s1.
  unfold match_link in H.
  destruct c as [|p]; [discriminate|].
  do 7 (destruct p as [p|p|]; try discriminate).
  destruct (span_len _ s1) as [|k1] eqn:E1; [discriminate|].
  destruct (skipn (S k1) s1) as [|d1 u1]; [discriminate|].
  destruct d1 as [|p1]; [discriminate|].
  do 7 (destruct p1 as [p1|p1|]; try discriminate).
  destruct u1 as [|d2 s2]; [discriminate|].
  destruct d2 as [|p2]; [discriminate|].
  do 6 (destruct p2 as [p2|p2|]; try discriminate).
  destruct (span_len _ s2) as [|k2]; [discriminate|].
  destruct (skipn (S k2) s2) as [|d3 u3]; [discriminate|].
  destruct d3 as [|p3]; [discriminate|].
  do 6 (destruct p3 as [p3|p3|]; try discriminate).
  injection H as <- _. now exists (S k1).
Qed.

Lemma sub_links_Forall (P : char -> Prop) (s : pystr) :
  Forall P s -> Forall P (sub_links s).
Proof.
  apply scan_Forall. intros t r n Ht H.
  apply match_link_repl in H as (c & s1 & k & -> & ->).
  apply Forall_firstn. now inversion Ht.
Qed.

Lemma apply_replacements_Forall (P : char -> Prop) (rs : list (pystr * pystr)) :
  Forall (fun tr => Forall P (snd tr)) rs ->
  forall s, Forall P s -> Forall P (apply_replacements rs s).
Proof.
  induction 1 as [|[old new] rest Hn Hrest IH]; intros s Hs; [assumption|].
  unfold apply_replacements. simpl fold_left. apply IH.
  now apply replace_Forall.
Qed.

Lemma plain_Forall (s : pystr) :
  forallb plain s = true -> Forall (fun c => plain c = true) s.
Proof. intros H. apply Forall_forall. now apply forallb_forall. Qed.

Lemma Forall_conj_not_in (a : char) (s : pystr) :
  ~ In a s -> Forall (fun c => c <> a) s.
Proof. intros H. apply Forall_forall. intros c Hc ->. contradiction. Qed.

Lemma speech_body_plain (text : pystr) :
  Forall (fun c => plain c = true) (speech_body text).
Proof.
  unfold speech_body.
  assert (H : Forall (fun c => c <> 42 /\ c <> 35 /\ c <> 96)
                (sub_links
                   (replace (lit "```") []
                      (replace (lit "`") []
                         (replace (lit "#") []
                            (replace (lit "*") []
                               (replace (lit "**") [] text))))))).
  { apply sub_links_Forall.
    set (t1 := replace (lit "**") [] text).
    set (t2 := replace (lit "*") [] t1).
    set (t3 := replace (lit "#") [] t2).
    set (t4 := replace (lit "`") [] t3).
    assert (H2 : Forall (fun c => c <> 42) t2)
      by apply Forall_conj_not_in, replace_char_removed.
    assert (H3 : Forall (fun c => c <> 42 /\ c <> 35) t3).
    { apply Forall_and; [now apply replace_empty_Forall|].
      apply Forall_conj_not_in, replace_char_removed. }
    assert (H4 : Forall (fun c => c <> 42 /\ c <> 35 /\ c <> 96) t4).
    { apply Forall_and; [|apply Forall_and].
      - apply replace_empty_Forall. eapply Forall_impl; [|exact H3]. intros c [? ?]; assumption.
      - apply replace_empty_Forall. eapply Forall_impl; [|exact H3]. intros c [? ?]; assumption.
      - apply Forall_conj_not_in, replace_char_removed. }
    now apply replace_empty_Forall. }
  apply apply_replacements_Forall.
  - repeat constructor.
  - eapply Forall_impl; [|exact H].
    intros c (H1 & H2 & H3). unfold plain.
    apply N.eqb_neq in H1, H2, H3. now rewrite H1, H2, H3.
Qed.

Lemma clean_text_for_speech_plain (text : pystr) :
  Forall (fun c => plain c = true) (clean_text_for_speech text).
Proof.
  unfold clean_text_for_speech.
  destruct (500 <? len (speech_body text))%nat; [|apply speech_body_plain].
  apply Forall_app. split.
  - apply Forall_firstn, speech_body_plain.
  - apply plain_Forall. vm_compute. reflexivity.
Qed.

Lemma contains_needs_char (x t : pystr) (c : char) :
  In c x -> ~ In c t -> contains x t = false.
Proof.
  intros Hx Ht. apply not_contains. intros [u [v H]].
  apply Ht. rewrite H. apply in_or_app. right. apply in_or_app. now left.
Qed.

Lemma plain_no_char (s : pystr) (c : char) :
  plain c = false -> Forall (fun d => plain d = true) s -> ~ In c s.
Proof.
  intros Hc Hs Hin. rewrite Forall_forall in Hs. specialize (Hs _ Hin). congruence.
Qed.

(** *** The output of the stage is a fixed point unless it holds a link *)

Lemma speech_body_fixed (y : pystr) :
  Forall (fun c => plain c = true) y ->
  has_link y = false ->
  (forall x, In x (map fst replacements) -> contains x y = false) ->
  speech_body y = y.
Proof.
  intros Hp Hl Ht. unfold speech_body.
  rewrite (replace_absent (lit "**")).
  2:{ apply (contains_needs_char _ _ 42); [now left | now apply plain_no_char]. }
  rewrite (replace_absent (lit "*")).
  2:{ apply (contains_needs_char _ _ 42); [now left | now apply plain_no_char]. }
  rewrite (replace_absent (lit "#")).
  2:{ apply (contains_needs_char _ _ 35); [now left | now apply plain_no_char]. }
  rewrite (replace_absent (lit "`")).
  2:{ apply (contains_needs_char _ _ 96); [now left | now apply plain_no_char]. }
  rewrite (replace_absent (lit "```")).
  2:{ apply (contains_needs_char _ _ 96); [now left | now apply plain_no_char]. }
  unfold sub_links. rewrite scan_no_match by exact Hl.
  now apply apply_absent.
Qed.

Lemma no_term_in_output (text x : pystr) :
  In x (map fst replacements) -> contains x (clean_text_for_speech text) = false.
Proof.
  intros Hin. unfold clean_text_for_speech.
  destruct (500 <? len (speech_body text))%nat; [|now apply no_term_left].
  assert (Hchk : forallb (fun t => negb (mem 46 t)
                                   && negb (contains t (tl truncation_notice)))
                         (map fst replacements) = true) by (vm_compute; reflexivity).
  rewrite forallb_forall in Hchk. specialize (Hchk x Hin).
  apply andb_true_iff in Hchk as [Hdot Hrest].
  apply negb_true_iff in Hdot, Hrest.
  apply not_contains. intros Ho.
  change truncation_notice with (46 :: tl truncation_notice) in Ho.
  apply occurs_barrier in Ho as [Ho|Ho]; [| |now apply mem_In].
  - assert (Hb : ~ occurs x (speech_body text))
      by (apply not_contains; now apply no_term_left).
    apply Hb. rewrite <- (firstn_skipn 500 (speech_body text)).
    apply (occurs_mono x [] _ (skipn 500 (speech_body text))) in Ho. exact Ho.
  - apply not_contains in Hrest. contradiction.
Qed.

(** Re-applying [clean_text_for_speech] to its own output gives the output
    back when the output holds no markdown link. *)
Lemma clean_text_for_speech_again (text : pystr) :
  has_link (clean_text_for_speech text) = false ->
  clean_text_for_speech (clean_text_for_speech text) = clean_text_for_speech text.
Proof.
  intros Hl. unfold clean_text_for_speech at 1.
  rewrite speech_body_fixed;
    [| apply clean_text_for_speech_plain | exact Hl
     | intros x Hx; now apply no_term_in_output ].
  unfold clean_text_for_speech.
  destruct (500 <? len (speech_body text))%nat eqn:E.
  - apply Nat.ltb_lt in E. unfold len in *.
    assert (Hlen : List.length (firstn 500 (speech_body text)) = 500%nat)
      by (rewrite length_firstn; lia).
    assert (Hn : List.length truncation_notice = 42%nat) by reflexivity.
    replace (500 <? _)%nat with true
      by (symmetry; apply Nat.ltb_lt; rewrite length_app, Hlen, Hn; lia).
    f_equal. rewrite firstn_app, Hlen, firstn_firstn. simpl. apply app_nil_r.
  - rewrite E. reflexivity.
Qed.

(** ** Idempotence of the two stages *)

(** C1 as it is stated fails for both stages: the link pattern leaves a new
    link behind on a nested link, and the removal of a tag can put together a
    substring of the denylist. *)
Lemma sanitizers_not_idempotent :
  clean_text_for_speech (lit "[[a](b)](c)") = lit "[a](c)" /\
  clean_text_for_speech (clean_text_for_speech (lit "[[a](b)](c)")) = lit "a" /\
  clean_text_for_speech (clean_text_for_speech (lit "[[a](b)](c)")) <>
    clean_text_for_speech (lit "[[a](b)](c)") /\
  clean_mcphost_response (Some (lit "DE<b>BUG")) = lit "DEBUG" /\
  clean_mcphost_response (Some (clean_mcphost_response (Some (lit "DE<b>BUG")))) = [] /\
  clean_mcphost_response (Some (clean_mcphost_response (Some (lit "DE<b>BUG")))) <>
    clean_mcphost_response (Some (lit "DE<b>BUG")).
Proof.
  repeat split; try (vm_compute; reflexivity); vm_compute; discriminate.
Qed.

(** C1, as the code has it: re-applying [clean_mcphost_response] to its own
    output gives the same output whenever that output holds none of the
    substrings of the denylist (and the empty string when it holds one);
    re-applying [clean_text_for_speech] to its own output gives the same
    output whenever that output holds no markdown link. *)
Theorem sanitizers_idempotent_on_settled_output :
  (forall response,
      has_skip_pattern (clean_mcphost_response response) = false ->
      clean_mcphost_response (Some (clean_mcphost_response response)) =
      clean_mcphost_response response) /\
  (forall response,
      has_skip_pattern (clean_mcphost_response response) = true ->
      clean_mcphost_response (Some (clean_mcphost_response response)) = []) /\
  (forall text,
      has_link (clean_text_for_speech text) = false ->
      clean_text_for_speech (clean_text_for_speech text) = clean_text_for_speech text).
Proof.
  split; [|split].
  - intros response H. rewrite clean_mcphost_response_again, H. reflexivity.
  - intros response H. rewrite clean_mcphost_response_again, H. reflexivity.
  - exact clean_text_for_speech_again.
Qed.

Lemma sanitizers_idempotent_on_settled_output_witness :
  clean_mcphost_response
    (Some (clean_mcphost_response
             (Some (lit "DEBUG 2025/01/01 loading" ++ [10] ++ lit "Hello <b>there</b>" ++ [10]))))
  = lit "Hello there" /\
  clean_mcphost_response (Some (clean_mcphost_response (Some (lit "DE<b>BUG")))) = [] /\
  clean_text_for_speech (clean_text_for_speech (lit "**bold** CPU usage"))
  = lit "bold C P U usage".
Proof.
  destruct sanitizers_idempotent_on_settled_output as (H1 & H2 & H3).
  split; [|split].
  - rewrite (H1 (Some (lit "DEBUG 2025/01/01 loading" ++ [10]
                         ++ lit "Hello <b>there</b>" ++ [10]))); reflexivity.
  - apply (H2 (Some (lit "DE<b>BUG"))). reflexivity.
  - rewrite (H3 (lit "**bold** CPU usage")); reflexivity.
Defined.

(** ** The examples of the specification *)

Example sanitize_example :
  clean_mcphost_response
    (Some (lit "DEBUG 2025/01/01 loading" ++ [10] ++ lit "Hello there" ++ [10]))
  = lit "Hello there".
Proof. vm_compute. reflexivity. Qed.

Example speech_example :
  clean_text_for_speech (lit "**bold** CPU usage") = lit "bold C P U usage".
Proof. vm_compute. reflexivity. Qed.

Example truncation_example :
  len (clean_text_for_speech (repeat 97 600)) = 542%nat.
Proof. vm_compute. reflexivity. Qed.

(** * Further properties *)

(** ** text_utils.py *)

Lemma clean_mcphost_response_is_tidy (response : option pystr) :
  clean_mcphost_response response = [] \/
  exists s, clean_mcphost_response response = tidy s.
Proof.
  destruct response as [[|c r]|]; simpl; eauto.
Qed.

(** X1: the output of [clean_mcphost_response] is in a normal form: it has
    no character of [\x00-\x1f\x7f-\x9f], no tag [<...>] is left, every
    whitespace character is a single space between two other characters,
    and it neither begins nor ends with whitespace. *)
Theorem clean_mcphost_response_normal_form (response : option pystr) :
  Forall (fun c => is_control c = false) (clean_mcphost_response response) /\
  has_match match_tag (clean_mcphost_response response) = false /\
  ws_norm (clean_mcphost_response response) = true /\
  strip (clean_mcphost_response response) = clean_mcphost_response response /\
  lstrip (clean_mcphost_response response) = clean_mcphost_response response /\
  rstrip (clean_mcphost_response response) = clean_mcphost_response response.
Proof.
  split; [apply clean_mcphost_response_no_control|].
  destruct (clean_mcphost_response_is_tidy response) as [->|[s ->]].
  { repeat split. }
  unfold tidy.
  split; [apply strip_keeps_tagfree, collapse_keeps_tagfree, untag_is_tagfree|].
  split; [apply ws_norm_strip, collapse_is_norm|].
  split; [apply strip_idem|].
  split; [apply lstrip_strip|].
  unfold strip. apply rstrip_idem.
Qed.

(** X2: the output of [clean_text_for_speech] holds none of the characters
    [*], [#] and backquote, and none of the nine terms of [replacements]. *)
Theorem clean_text_for_speech_is_speakable (text : pystr) :
  Forall (fun c => c <> 42 /\ c <> 35 /\ c <> 96) (clean_text_for_speech text) /\
  Forall (fun tr => contains (fst tr) (clean_text_for_speech text) = false) replacements.
Proof.
  split.
  - eapply Forall_impl; [|apply clean_text_for_speech_plain].
    intros c Hc. unfold plain in Hc.
    apply andb_true_iff in Hc as [Hc H3]. apply andb_true_iff in Hc as [H1 H2].
    apply negb_true_iff, N.eqb_neq in H1, H2, H3. auto.
  - apply Forall_forall. intros [old new] Hin.
    apply no_term_in_output. now apply (in_map fst) in Hin.
Qed.

(** *** The five [replace] calls at the head of [clean_text_for_speech] *)

Lemma replace_char_filter (a : char) (s : pystr) :
  replace [a] [] s = filter (fun c => negb (c =? a)) s.
Proof.
  induction s as [|c s IH]; [reflexivity|].
  unfold replace in *. rewrite scan_cons. simpl startswith.
  rewrite N.eqb_sym. simpl filter.
  destruct (c =? a); simpl; [exact IH | now f_equal].
Qed.

Lemma filter_replace_removed (P : char -> bool) (old : pystr) :
  old <> [] -> Forall (fun c => P c = false) old ->
  forall n s, (List.length s <= n)%nat ->
              filter P (replace old [] s) = filter P s.
Proof.
  intros Hne Hold n; induction n as [|n IH]; intros s Hn.
  - destruct s; [reflexivity | simpl in Hn; lia].
  - destruct s as [|c s]; [reflexivity|].
    destruct (startswith old (c :: s)) eqn:E.
    + apply startswith_app in E as [v Hv]. rewrite Hv.
      rewrite replace_match by assumption. simpl app.
      rewrite filter_app, (filter_none P old Hold). simpl app.
      apply IH. rewrite Hv, length_app in Hn.
      destruct old; [congruence | simpl in Hn; lia].
    + rewrite replace_copy by assumption. simpl filter.
      rewrite IH by (simpl in Hn; lia). reflexivity.
Qed.

Lemma filter_plain (s : pystr) :
  filter (fun c => negb (c =? 96))
    (filter (fun c => negb (c =? 35)) (filter (fun c => negb (c =? 42)) s))
  = filter plain s.
Proof.
  induction s as [|c s IH]; [reflexivity|].
  cbn [filter]. unfold plain at 1.
  destruct (c =? 42); cbn [negb andb filter]; [exact IH|].
  destruct (c =? 35); cbn [negb andb filter]; [exact IH|].
  destruct (c =? 96); cbn [negb andb filter]; [exact IH | now f_equal].
Qed.

Lemma star_pair_removed (t : pystr) :
  replace (lit "*") [] (replace (lit "**") [] t) = filter (fun c => negb (c =? 42)) t.
Proof.
  change (lit "*") with [42]. rewrite replace_char_filter.
  apply (filter_replace_removed _ (lit "**")) with (n := List.length t);
    [discriminate | repeat constructor | lia].
Qed.

Lemma backquote_triple_absent (t : pystr) :
  replace (lit "```") [] (replace (lit "`") [] t) = replace (lit "`") [] t.
Proof.
  apply replace_absent.
  apply (contains_needs_char _ _ 96); [now left | apply replace_char_removed].
Qed.

Lemma speech_body_filter (text : pystr) :
  speech_body text = apply_replacements replacements (sub_links (filter plain text)).
Proof.
  unfold speech_body. rewrite backquote_triple_absent, star_pair_removed.
  change (lit "#") with [35]. change (lit "`") with [96].
  rewrite !replace_char_filter, filter_plain. reflexivity.
Qed.

(** X3: the five [replace] calls together delete exactly the characters
    [*], [#] and backquote: removing the two-star and the three-backquote
    marker changes nothing that the removal of the single characters would
    not do, so [clean_text_for_speech] works on the text without these three
    characters. *)
Theorem formatting_removal_is_a_filter (text : pystr) :
  replace (lit "*") [] (replace (lit "**") [] text) = replace (lit "*") [] text /\
  replace (lit "```") [] (replace (lit "`") [] text) = replace (lit "`") [] text /\
  speech_body text = apply_replacements replacements (sub_links (filter plain text)).
Proof.
  split; [|split].
  - rewrite star_pair_removed. change (lit "*") with [42].
    now rewrite replace_char_filter.
  - apply backquote_triple_absent.
  - apply speech_body_filter.
Qed.

(** X4: a text of at most 500 characters that holds no [*], [#] or
    backquote, no markdown link and none of the terms of [replacements]
    comes out of [clean_text_for_speech] unchanged. *)
Theorem clean_text_for_speech_keeps_ordinary_text (text : pystr) :
  forallb plain text = true ->
  has_link text = false ->
  forallb (fun tr => negb (contains (fst tr) text)) replacements = true ->
  (len text <= 500)%nat ->
  clean_text_for_speech text = text.
Proof.
  intros Hp Hl Ht Hlen. unfold clean_text_for_speech.
  rewrite speech_body_fixed; [| now apply plain_Forall | assumption |].
  - apply Nat.ltb_ge in Hlen. now rewrite Hlen.
  - intros x Hx. apply in_map_iff in Hx as [[old new] [<- Hin]].
    rewrite forallb_forall in Ht. specialize (Ht _ Hin).
    now apply negb_true_iff in Ht.
Qed.

Lemma clean_text_for_speech_keeps_ordinary_text_witness :
  clean_text_for_speech (lit "Hello there, how are you?") = lit "Hello there, how are you?".
Proof.
  apply clean_text_for_speech_keeps_ordinary_text; try reflexivity.
  unfold len. simpl. lia.
Defined.

(** *** Lines of the response *)

Lemma clean_mcphost_response_unfold (r : pystr) :
  clean_mcphost_response (Some r) = tidy (join_sp (clean_lines (split_nl r))).
Proof. destruct r; reflexivity. Qed.

Lemma split_nl_nonempty (s : pystr) : split_nl s <> [].
Proof.
  destruct s as [|c s]; simpl; [discriminate|].
  destruct (c =? 10); [discriminate|].
  destruct (split_nl s); discriminate.
Qed.

Lemma split_nl_app (a b : pystr) :
  split_nl (a ++ 10 :: b) = split_nl a ++ split_nl b.
Proof.
  induction a as [|c a IH]; [reflexivity|].
  simpl. destruct (c =? 10); [now rewrite IH|].
  rewrite IH. pose proof (split_nl_nonempty a) as Hne.
  destruct (split_nl a); [congruence | reflexivity].
Qed.

Lemma split_nl_line (line : pystr) : ~ In 10 line -> split_nl line = [line].
Proof.
  induction line as [|c line IH]; intros H; [reflexivity|].
  simpl. destruct (N.eqb_spec c 10) as [->|_]; [exfalso; apply H; now left|].
  rewrite IH; [reflexivity|]. intros Hin. apply H. now right.
Qed.

Lemma clean_lines_app (x y : list pystr) :
  clean_lines (x ++ y) = clean_lines x ++ clean_lines y.
Proof.
  induction x as [|l x IH]; [reflexivity|].
  simpl. destruct (skipped l); simpl; now rewrite IH.
Qed.

Lemma skipped_by_pattern (line : pystr) :
  has_skip_pattern line = true -> skipped line = true.
Proof. intros H. unfold skipped. fold (has_skip_pattern line). now rewrite H. Qed.

(** X5: a line that holds a substring of the denylist contributes nothing:
    the response with such a line and the response without it are cleaned
    to the same text, and a response that is one such line is cleaned to the
    empty string. *)
Theorem denylisted_line_is_invisible (a line b : pystr) :
  ~ In 10 line ->
  has_skip_pattern line = true ->
  clean_mcphost_response (Some (a ++ 10 :: line ++ 10 :: b)) =
    clean_mcphost_response (Some (a ++ 10 :: b)) /\
  clean_mcphost_response (Some line) = [].
Proof.
  intros Hnl Hskip. rewrite !clean_mcphost_response_unfold.
  assert (Hl : clean_lines [line] = []).
  { simpl. now rewrite skipped_by_pattern. }
  split.
  - replace (a ++ 10 :: line ++ 10 :: b) with (a ++ 10 :: (line ++ 10 :: b)) by reflexivity.
    rewrite (split_nl_app a (line ++ 10 :: b)), (split_nl_app line b), (split_nl_app a b).
    rewrite (split_nl_line line Hnl), !clean_lines_app, Hl. reflexivity.
  - rewrite (split_nl_line line Hnl), Hl. reflexivity.
Qed.

Lemma denylisted_line_is_invisible_witness :
  clean_mcphost_response
    (Some (lit "Hello" ++ 10 :: lit "I looked before leaping" ++ 10 :: lit "Bye")) =
    clean_mcphost_response (Some (lit "Hello" ++ 10 :: lit "Bye")) /\
  clean_mcphost_response (Some (lit "I looked before leaping")) = [].
Proof.
  apply denylisted_line_is_invisible; [|reflexivity].
  vm_compute. intuition discriminate.
Defined.

(** *** The stage only deletes, or puts a space for whitespace *)

Lemma length_lstrip (s : pystr) : (List.length (lstrip s) <= List.length s)%nat.
Proof.
  destruct (lstrip_suffix s) as [u [Hu _]]. rewrite Hu at 2. rewrite length_app. lia.
Qed.

Lemma length_strip (s : pystr) : (List.length (strip s) <= List.length s)%nat.
Proof.
  unfold strip. destruct (rstrip_prefix (lstrip s)) as [t [Ht _]].
  pose proof (length_lstrip s) as H.
  rewrite Ht in H. rewrite length_app in H. lia.
Qed.

Lemma weight_split_nl (s : pystr) : weight (split_nl s) = S (List.length s).
Proof.
  induction s as [|c s IH]; [reflexivity|].
  simpl. destruct (c =? 10).
  - simpl. now rewrite IH.
  - pose proof (split_nl_nonempty s) as Hne.
    destruct (split_nl s) as [|l ls]; [congruence|].
    simpl in *. unfold len in *. simpl. lia.
Qed.

Lemma weight_clean_lines (ls : list pystr) : (weight (clean_lines ls) <= weight ls)%nat.
Proof.
  induction ls as [|l ls IH]; [reflexivity|].
  simpl. destruct (skipped l); simpl; [lia|].
  pose proof (length_strip l). unfold len. lia.
Qed.

Lemma length_join_sp (ls : list pystr) : (List.length (join_sp ls) <= Nat.pred (weight ls))%nat.
Proof.
  induction ls as [|l ls IH]; [reflexivity|].
  destruct ls as [|l' ls]; [simpl; unfold len; lia|].
  change (join_sp (l :: l' :: ls)) with (l ++ 32 :: join_sp (l' :: ls)).
  change (weight (l :: l' :: ls)) with (S (len l) + weight (l' :: ls))%nat.
  change (weight (l' :: ls)) with (S (len l') + weight ls)%nat in *.
  rewrite length_app.
  change (List.length (32 :: join_sp (l' :: ls)))
    with (S (List.length (join_sp (l' :: ls)))).
  unfold len in *. lia.
Qed.

Lemma length_filter_le (f : char -> bool) (s : pystr) :
  (List.length (filter f s) <= List.length s)%nat.
Proof.
  induction s as [|c s IH]; [reflexivity|].
  simpl. destruct (f c); simpl; lia.
Qed.

(** A scan whose replacements are no longer than what they replace does not
    lengthen the text. *)
Lemma scan_length (m : pystr -> option (pystr * nat)) :
  (forall t r n, m t = Some (r, n) ->
                 (List.length r <= n)%nat /\ (n <= List.length t)%nat) ->
  forall k s, (List.length s <= k)%nat ->
              (List.length (scan m 0 s) <= List.length s)%nat.
Proof.
  intros Hm k; induction k as [|k IH]; intros s Hk.
  - destruct s; [reflexivity | simpl in Hk; lia].
  - destruct s as [|c s]; [reflexivity|].
    rewrite scan_cons. destruct (m (c :: s)) as [[r n]|] eqn:E.
    + destruct (Hm _ _ _ E) as [Hr Hn]. simpl in Hn.
      rewrite length_app.
      assert (Hs : (List.length (skipn (Nat.pred n) s) <= k)%nat).
      { rewrite length_skipn. simpl in Hk. lia. }
      specialize (IH _ Hs). rewrite length_skipn in IH. simpl. lia.
    + simpl. simpl in Hk. specialize (IH s). lia.
Qed.

Lemma span_len_le (p : char -> bool) (s : pystr) : (span_len p s <= List.length s)%nat.
Proof.
  induction s as [|c s IH]; [reflexivity|].
  simpl. destruct (p c); simpl; lia.
Qed.

Lemma skipn_cons_lt {A} (n : nat) (l : list A) (d : A) (u : list A) :
  skipn n l = d :: u -> (n < List.length l)%nat.
Proof.
  intros H. destruct (Nat.lt_ge_cases n (List.length l)) as [Hlt|Hge]; [assumption|].
  rewrite skipn_all2 in H by assumption. discriminate.
Qed.

Lemma match_tag_length (t r : pystr) (n : nat) :
  match_tag t = Some (r, n) -> (List.length r <= n)%nat /\ (n <= List.length t)%nat.
Proof.
  intros H. pose proof (match_tag_repl _ _ _ H) as [-> Hn].
  split; [simpl; lia|].
  destruct t as [|c t]; [discriminate|].
  destruct (N.eq_dec c 60) as [->|Hc]; [|rewrite match_tag_other in H by assumption; discriminate].
  unfold match_tag in H.
  destruct (span_len _ t) as [|k] eqn:Ek; [discriminate|].
  destruct (skipn (S k) t) as [|d u] eqn:Es; [discriminate|].
  apply skipn_cons_lt in Es.
  destruct d as [|p]; [discriminate|].
  do 6 (destruct p as [p|p|]; try discriminate).
  injection H as <-. simpl. lia.
Qed.

Lemma match_ws_length (t r : pystr) (n : nat) :
  match_ws t = Some (r, n) -> (List.length r <= n)%nat /\ (n <= List.length t)%nat.
Proof.
  intros H. apply match_ws_repl in H as (-> & -> & Hn).
  split; [simpl; lia | apply span_len_le].
Qed.

Lemma length_tidy (s : pystr) : (List.length (tidy s) <= List.length s)%nat.
Proof.
  unfold tidy.
  set (s1 := filter (fun c => negb (is_control c)) s).
  set (s2 := scan match_tag 0 s1).
  set (s3 := scan match_ws 0 s2).
  pose proof (length_filter_le (fun c => negb (is_control c)) s) as H1. fold s1 in H1.
  pose proof (scan_length match_tag match_tag_length _ s1 (Nat.le_refl _)) as H2. fold s2 in H2.
  pose proof (scan_length match_ws match_ws_length _ s2 (Nat.le_refl _)) as H3. fold s3 in H3.
  pose proof (length_strip s3). lia.
Qed.

Lemma split_nl_In (s l : pystr) (c : char) :
  In l (split_nl s) -> In c l -> In c s.
Proof.
  revert l; induction s as [|d s IH]; intros l Hl Hc.
  - destruct Hl as [<-|[]]. contradiction.
  - simpl in Hl. destruct (d =? 10).
    + destruct Hl as [<-|Hl]; [contradiction|]. right. now apply (IH l).
    + pose proof (split_nl_nonempty s) as Hne.
      destruct (split_nl s) as [|l0 ls]; [congruence|].
      destruct Hl as [<-|Hl].
      * destruct Hc as [<-|Hc]; [now left|]. right. apply (IH l0); [now left | assumption].
      * right. apply (IH l); [now right | assumption].
Qed.

Lemma clean_lines_In (ls : list pystr) (l : pystr) :
  In l (clean_lines ls) -> exists l0, In l0 ls /\ l = strip l0.
Proof.
  induction ls as [|x ls IH]; [intros []|].
  simpl. destruct (skipped x).
  - intros H. destruct (IH H) as [l0 [H0 ->]]. exists l0. split; [now right | reflexivity].
  - intros [<-|H]; [exists x; split; [now left | reflexivity]|].
    destruct (IH H) as [l0 [H0 ->]]. exists l0. split; [now right | reflexivity].
Qed.

Lemma join_sp_Forall (P : char -> Prop) (ls : list pystr) :
  P 32 -> Forall (Forall P) ls -> Forall P (join_sp ls).
Proof.
  intros Hsp. induction 1 as [|l ls Hl Hls IH]; [constructor|].
  destruct ls as [|l' ls]; [exact Hl|].
  change (join_sp (l :: l' :: ls)) with (l ++ 32 :: join_sp (l' :: ls)).
  apply Forall_app. split; [assumption|]. constructor; assumption.
Qed.

Lemma Forall_filter' (P : char -> Prop) (f : char -> bool) (s : pystr) :
  Forall P s -> Forall P (filter f s).
Proof.
  intros H. apply Forall_forall. intros c Hc. apply filter_In in Hc as [Hc _].
  rewrite Forall_forall in H. now apply H.
Qed.

(** X6: [clean_mcphost_response] never adds to the text: its output is no
    longer than the input, and each of its characters is a character of the
    input or a space. *)
Theorem clean_mcphost_response_only_deletes (r : pystr) :
  (len (clean_mcphost_response (Some r)) <= len r)%nat /\
  Forall (fun c => In c r \/ c = 32) (clean_mcphost_response (Some r)).
Proof.
  rewrite clean_mcphost_response_unfold. split.
  - unfold len.
    pose proof (length_tidy (join_sp (clean_lines (split_nl r)))) as H1.
    pose proof (length_join_sp (clean_lines (split_nl r))) as H2.
    pose proof (weight_clean_lines (split_nl r)) as H3.
    rewrite weight_split_nl in H3. lia.
  - unfold tidy. apply strip_Forall.
    apply scan_Forall.
    { intros t r' n _ H. apply match_ws_repl in H as [-> _].
      constructor; [now right | constructor]. }
    apply scan_Forall.
    { intros t r' n _ H. apply match_tag_repl in H as [-> _]. constructor. }
    apply Forall_filter'. apply join_sp_Forall; [now right|].
    apply Forall_forall. intros l Hl.
    apply clean_lines_In in Hl as [l0 [Hl0 ->]].
    apply strip_Forall. apply Forall_forall. intros c Hc. left.
    now apply (split_nl_In r l0).
Qed.

(** ** mcphost_runner.py: [run_mcphost_basic] *)

(** X7: once the prompt has been written and flushed, a call of
    [run_mcphost_basic] that returns has asked the child to terminate, and
    has killed it unless both [terminate] and the wait of two seconds went
    through. *)
Theorem child_terminated_after_prompt (E : env) (self : MCPHostRunner) (fuel : nat)
    (prompt : pystr) (t : list event) (s : pystr) :
  popen_r E = Returns tt -> write_r E 0 = Returns tt -> flush_r E 0 = Returns tt ->
  run_mcphost_basic E self fuel prompt = (t, Ok s) ->
  In ETerminate t /\
  (terminate_r E = Returns tt /\ wait_r E = Returns tt \/ In EKill t).
Proof.
  intros Hp Hw Hf Hrun. now apply (cleanup_after_prompt E self 1 fuel prompt t s).
Qed.

Lemma child_terminated_after_prompt_witness :
  In ETerminate (fst (run_mcphost_basic env_silent demo 5 (lit "hi"))).
Proof.
  destruct (run_mcphost_basic env_silent demo 5 (lit "hi")) as [t r] eqn:E.
  assert (Hr : exists s, r = Ok s).
  { vm_compute in E. injection E as _ <-. eexists. reflexivity. }
  destruct Hr as [s ->].
  apply (child_terminated_after_prompt env_silent demo 5 (lit "hi") t s);
    try reflexivity. exact E.
Defined.

(** The loop of a run in which the child is seen to have exited at the poll
    of turn [k], is alive before that, and no read raises. *)
Lemma poll_loop_exit (E : env) (self : MCPHostRunner) (st start : Q) (k : nat) (code : Z)
    (lo le : nat -> option pystr) :
  (forall i, (i < k)%nat ->
     Qltb (clock E (S i) - start) (inject_Z (response_timeout self)) = true /\
     poll_r E i = Returns None /\
     snd (_read_line_with_timeout E Stdout 1 i) = Ok (lo i) /\
     snd (_read_line_with_timeout E Stderr st i) = Ok (le i)) ->
  Qltb (clock E (S k) - start) (inject_Z (response_timeout self)) = true ->
  poll_r E k = Returns (Some code) ->
  forall fuel i, (i <= k)%nat -> (k < i + fuel)%nat ->
    snd (poll_loop E self fuel st start i (accumulate lo i) (accumulate le i)) =
    Ok (accumulate lo k, accumulate le k).
Proof.
  intros Hlive Hk Hexit fuel; induction fuel as [|fuel IH]; intros i Hi Hf; [lia|].
  simpl.
  destruct (Nat.eq_dec i k) as [->|Hne].
  - rewrite Hk. unfold poll_body. rewrite Hexit. reflexivity.
  - destruct (Hlive i) as (Ht & Hp & Ho & He); [lia|].
    rewrite Ht. unfold poll_body. rewrite Hp. simpl.
    destruct (_read_line_with_timeout E Stdout 1 i) as [t1 r1]. simpl in Ho. subst r1.
    simpl.
    destruct (_read_line_with_timeout E Stderr st i) as [t2 r2]. simpl in He. subst r2.
    simpl.
    specialize (IH (S i)). simpl in IH.
    destruct (poll_loop E self fuel st start (S i) _ _) as [t3 r3].
    simpl in IH. rewrite IH by lia. reflexivity.
Qed.

(** What [run_mcphost_basic] returns once its loop has ended with the
    accumulators [acc], when the final [kill], if reached, does not raise. *)
Lemma run_mcphost_basic_after_loop (E : env) (self : MCPHostRunner) (st : Q)
    (fuel : nat) (prompt : pystr) (acc : pystr * pystr) :
  popen_r E = Returns tt -> write_r E 0 = Returns tt -> flush_r E 0 = Returns tt ->
  kill_r E = Returns tt ->
  snd (poll_loop E self fuel st (clock E 0) 0 [] []) = Ok acc ->
  snd (run_mcphost_basic_with E self st fuel prompt) = Ok (labelled (fst acc) (snd acc)).
Proof.
  intros Hp Hw Hf Hkill HL. unfold run_mcphost_basic_with.
  rewrite Hp, Hw, Hf. simpl.
  destruct (poll_loop E self fuel st (clock E 0) 0 [] []) as [tl rl].
  simpl in HL. rewrite HL. simpl.
  destruct (quit_block_ok E) as [tq Hq]. simpl in Hq. rewrite Hq. simpl.
  destruct (terminate_block E) as [tt' [[[] Ht]|[e [Hke Ht]]]].
  - simpl in Ht. rewrite Ht. reflexivity.
  - congruence.
Qed.

(** X8: when the child is seen to have exited at the poll of turn [k],
    [run_mcphost_basic] returns what it had accumulated in the [k] turns
    before, without another read: what the child wrote last and was not yet
    read is not in the result.  For a child that has exited before the first
    poll the result holds no output at all. *)
Theorem exit_ends_reading (E : env) (self : MCPHostRunner) (prompt : pystr)
    (k fuel : nat) (code : Z) (lo le : nat -> option pystr) :
  popen_r E = Returns tt -> write_r E 0 = Returns tt -> flush_r E 0 = Returns tt ->
  kill_r E = Returns tt ->
  (forall i, (i < k)%nat ->
     Qltb (clock E (S i) - clock E 0) (inject_Z (response_timeout self)) = true /\
     poll_r E i = Returns None /\
     snd (_read_line_with_timeout E Stdout 1 i) = Ok (lo i) /\
     snd (_read_line_with_timeout E Stderr 1 i) = Ok (le i)) ->
  Qltb (clock E (S k) - clock E 0) (inject_Z (response_timeout self)) = true ->
  poll_r E k = Returns (Some code) ->
  (k < fuel)%nat ->
  snd (run_mcphost_basic E self fuel prompt) =
  Ok (labelled (accumulate lo k) (accumulate le k)).
Proof.
  intros Hp Hw Hf Hkill Hlive Hk Hexit Hfuel.
  apply (run_mcphost_basic_after_loop E self 1 fuel prompt
           (accumulate lo k, accumulate le k)); try assumption.
  apply (poll_loop_exit E self 1 (clock E 0) k code lo le Hlive Hk Hexit fuel 0); lia.
Qed.

Lemma exit_ends_reading_witness :
  snd (run_mcphost_basic env_exited demo 5 (lit "hi")) = Ok (labelled [] []).
Proof.
  apply (exit_ends_reading env_exited demo (lit "hi") 0 5 0%Z
           (fun _ => None) (fun _ => None)); try reflexivity; lia.
Defined.

(** *** What the loop does to the child *)

Lemma read_line_loop_events (E : env) (p : pipe) (timeout : Q) (i : nat) :
  forallb loop_event (fst (_read_line_with_timeout E p timeout i)) = true.
Proof.
  unfold _read_line_with_timeout.
  destruct (win32 E).
  - destruct (readline_r E p i); reflexivity.
  - destruct (select_r E p i) as [[|]|e]; try reflexivity.
    destruct (readline_r E p i); reflexivity.
Qed.

Lemma poll_body_loop_events (E : env) (st : Q) (i : nat) (out err : pystr) :
  forallb loop_event (fst (poll_body E st i out err)) = true.
Proof.
  unfold poll_body.
  destruct (poll_r E i) as [[z|]|e]; try reflexivity.
  pose proof (read_line_loop_events E Stdout 1 i) as H1.
  pose proof (read_line_loop_events E Stderr st i) as H2.
  simpl.
  destruct (_read_line_with_timeout E Stdout 1 i) as [t1 [r1|e1|]];
    simpl in *; rewrite ?app_nil_r; try assumption.
  destruct (_read_line_with_timeout E Stderr st i) as [t2 [r2|e2|]];
    simpl in *; rewrite ?app_nil_r, ?forallb_app, ?H1, ?H2; reflexivity.
Qed.

Lemma poll_loop_loop_events (E : env) (self : MCPHostRunner) (st start : Q) (fuel : nat) :
  forall i out err,
    forallb loop_event (fst (poll_loop E self fuel st start i out err)) = true.
Proof.
  induction fuel as [|fuel IH]; intros i out err; [reflexivity|].
  simpl. destruct (Qltb _ _); [|reflexivity].
  pose proof (poll_body_loop_events E st i out err) as Hb.
  destruct (poll_body E st i out err) as [tb [[acc|[o e]]|e'|]]; simpl in *;
    rewrite ?app_nil_r; try assumption.
  specialize (IH (S i) o e).
  destruct (poll_loop E self fuel st start (S i) o e) as [tl rl]. simpl in *.
  now rewrite forallb_app, Hb, IH.
Qed.

Lemma writes_app (t u : list event) : writes (t ++ u) = writes t ++ writes u.
Proof.
  induction t as [|ev t IH]; [reflexivity|].
  destruct ev; simpl; rewrite IH; reflexivity.
Qed.

Lemma loop_events_no_write (t : list event) :
  forallb loop_event t = true -> writes t = [].
Proof.
  induction t as [|ev t IH]; [reflexivity|].
  simpl. intros H. apply andb_true_iff in H as [Hev Ht].
  destruct ev; try discriminate; simpl; now apply IH.
Qed.

Lemma quit_block_writes (E : env) :
  writes (fst (try_except
                 (call (EWrite (lit "quit" ++ [10])) (write_r E 1) ;;;
                  call EFlush (flush_r E 1) ;;;
                  call (ESleep (1 # 2)) (Returns tt))
                 (fun _ => ret tt))) = [lit "quit" ++ [10]].
Proof.
  destruct (write_r E 1) as [[]|e]; [|reflexivity].
  destruct (flush_r E 1) as [[]|e]; reflexivity.
Qed.

Lemma terminate_block_writes (E : env) :
  writes (fst (try_except
                 (call ETerminate (terminate_r E) ;;; call (EWait 2) (wait_r E))
                 (fun _ => call EKill (kill_r E)))) = [].
Proof.
  destruct (terminate_r E) as [[]|e]; simpl.
  - destruct (wait_r E) as [[]|e]; simpl; [reflexivity|].
    destruct (kill_r E) as [[]|e']; reflexivity.
  - destruct (kill_r E) as [[]|e']; reflexivity.
Qed.

(** X9: the standard input of the child receives the prompt followed by a
    newline and then [quit] followed by a newline, and nothing else: the
    writes of every run are a prefix of these two, in this order. *)
Theorem stdin_gets_prompt_then_quit (E : env) (self : MCPHostRunner) (fuel : nat)
    (prompt : pystr) :
  exists k, writes (fst (run_mcphost_basic E self fuel prompt)) =
            firstn k [prompt ++ [10]; lit "quit" ++ [10]].
Proof.
  unfold run_mcphost_basic, run_mcphost_basic_with.
  destruct (popen_r E) as [[]|e]; [|exists 0%nat; reflexivity].
  destruct (write_r E 0) as [[]|e]; [|exists 1%nat; reflexivity].
  destruct (flush_r E 0) as [[]|e]; [|exists 1%nat; reflexivity].
  simpl.
  pose proof (poll_loop_loop_events E self 1 (clock E 0) fuel 0 [] []) as Hl.
  apply loop_events_no_write in Hl.
  destruct (poll_loop E self fuel 1 (clock E 0) 0 [] []) as [tl [acc|e|]]; simpl in *.
  - pose proof (quit_block_writes E) as Hq. pose proof (terminate_block_writes E) as Ht.
    destruct (quit_block_ok E) as [tq Ho]. simpl in Ho, Hq. rewrite Ho in *. simpl in *.
    simpl in Ht.
    destruct (try_except
                (call ETerminate (terminate_r E) ;;; call (EWait 2) (wait_r E))
                (fun _ => call EKill (kill_r E))) as [tt' [u|e|]] eqn:Et;
      simpl in *; exists 2%nat;
      rewrite ?app_nil_r, !writes_app, ?Hl, ?Hq, ?Ht; reflexivity.
  - exists 1%nat. rewrite ?app_nil_r, Hl. reflexivity.
  - exists 1%nat. rewrite ?app_nil_r, Hl. reflexivity.
Qed.

(** X10: with a response timeout of zero or less and a clock that does not
    run backwards, the loop is not entered: the child is neither polled nor
    read, and the result holds no output. *)
Theorem no_reading_without_time (E : env) (self : MCPHostRunner) (fuel : nat)
    (prompt : pystr) :
  (response_timeout self <= 0)%Z ->
  (clock E 0 <= clock E 1)%Q ->
  popen_r E = Returns tt -> write_r E 0 = Returns tt -> flush_r E 0 = Returns tt ->
  kill_r E = Returns tt ->
  (0 < fuel)%nat ->
  snd (run_mcphost_basic E self fuel prompt) = Ok (labelled [] []) /\
  existsb is_read (fst (run_mcphost_basic E self fuel prompt)) = false /\
  ~ In EPoll (fst (run_mcphost_basic E self fuel prompt)).
Proof.
  intros HT Hclock Hp Hw Hf Hkill Hfuel.
  assert (Hno : Qltb (clock E 1 - clock E 0) (inject_Z (response_timeout self)) = false).
  { unfold Qltb. apply negb_false_iff. apply Qle_bool_iff.
    apply Qle_trans with (y := 0%Q).
    - change 0%Q with (inject_Z 0). rewrite <- Zle_Qle. exact HT.
    - apply (Qplus_le_l _ _ (clock E 0)). ring_simplify. exact Hclock. }
  assert (HL : poll_loop E self fuel 1 (clock E 0) 0 [] [] = ([ETime], Ok ([], []))).
  { destruct fuel as [|fuel]; [lia|]. simpl. rewrite Hno. reflexivity. }
  split.
  - apply (run_mcphost_basic_after_loop E self 1 fuel prompt ([], [])); try assumption.
    now rewrite HL.
  - unfold run_mcphost_basic, run_mcphost_basic_with.
    rewrite Hp, Hw, Hf. simpl. rewrite HL. simpl.
    destruct (write_r E 1) as [[]|e1]; simpl;
      [destruct (flush_r E 1) as [[]|e2]; simpl|];
      (destruct (terminate_r E) as [[]|e3]; simpl;
       [destruct (wait_r E) as [[]|e4]; simpl|]; rewrite ?Hkill; simpl;
       (split; [reflexivity|]); intuition discriminate).
Qed.

Lemma no_reading_without_time_witness :
  snd (run_mcphost_basic env_one_line hasty 5 (lit "hi")) = Ok (labelled [] []).
Proof.
  apply (no_reading_without_time env_one_line hasty 5 (lit "hi")); try reflexivity.
  - discriminate.
  - lia.
Defined.

(** *** [run_mcphost]: the strategy that answers *)

Lemma loop_events_no_pexpect (t : list event) :
  forallb loop_event t = true -> existsb is_pexpect t = false.
Proof.
  induction t as [|ev t IH]; [reflexivity|].
  simpl. intros H. apply andb_true_iff in H as [Hev Ht].
  destruct ev; try discriminate; simpl; now apply IH.
Qed.

Lemma quit_block_no_pexpect (E : env) :
  existsb is_pexpect
    (fst (try_except
            (call (EWrite (lit "quit" ++ [10])) (write_r E 1) ;;;
             call EFlush (flush_r E 1) ;;;
             call (ESleep (1 # 2)) (Returns tt))
            (fun _ => ret tt))) = false.
Proof.
  destruct (write_r E 1) as [[]|e]; [|reflexivity].
  destruct (flush_r E 1) as [[]|e]; reflexivity.
Qed.

Lemma terminate_block_no_pexpect (E : env) :
  existsb is_pexpect
    (fst (try_except
            (call ETerminate (terminate_r E) ;;; call (EWait 2) (wait_r E))
            (fun _ => call EKill (kill_r E)))) = false.
Proof.
  destruct (terminate_r E) as [[]|e]; simpl.
  - destruct (wait_r E) as [[]|e]; simpl; [reflexivity|].
    destruct (kill_r E) as [[]|e']; reflexivity.
  - destruct (kill_r E) as [[]|e']; reflexivity.
Qed.

(** The primary strategy makes no call of the secondary one. *)
Lemma run_mcphost_basic_with_no_pexpect (E : env) (self : MCPHostRunner) (st : Q)
    (fuel : nat) (prompt : pystr) :
  existsb is_pexpect (fst (run_mcphost_basic_with E self st fuel prompt)) = false.
Proof.
  unfold run_mcphost_basic_with.
  destruct (popen_r E) as [[]|e]; [|reflexivity].
  destruct (write_r E 0) as [[]|e]; [|reflexivity].
  destruct (flush_r E 0) as [[]|e]; [|reflexivity].
  simpl.
  pose proof (poll_loop_loop_events E self st (clock E 0) fuel 0 [] []) as Hl.
  apply loop_events_no_pexpect in Hl.
  destruct (poll_loop E self fuel st (clock E 0) 0 [] []) as [tl [acc|e|]]; simpl in *.
  - pose proof (quit_block_no_pexpect E) as Hq.
    pose proof (terminate_block_no_pexpect E) as Ht.
    destruct (quit_block_ok E) as [tq Ho]. simpl in Ho, Hq. rewrite Ho in *. simpl in *.
    simpl in Ht.
    destruct (try_except
                (call ETerminate (terminate_r E) ;;; call (EWait 2) (wait_r E))
                (fun _ => call EKill (kill_r E))) as [tt' [u|e|]] eqn:Et;
      simpl in *;
      rewrite ?app_nil_r, !existsb_app, ?Hl, ?Hq, ?Ht; reflexivity.
  - rewrite ?app_nil_r. assumption.
  - rewrite ?app_nil_r. assumption.
Qed.

(** What the primary strategy returns is its labelled text, or the text of
    its own handler. *)
Lemma run_mcphost_basic_with_result (E : env) (self : MCPHostRunner) (st : Q)
    (fuel : nat) (prompt s : pystr) :
  snd (run_mcphost_basic_with E self st fuel prompt) = Ok s ->
  (exists out err, s = labelled out err) \/
  (exists e, s = lit "Error running MCPHost: " ++ exn_str e).
Proof.
  unfold run_mcphost_basic_with.
  destruct (popen_r E) as [[]|e]; simpl;
    [|intros H; injection H as <-; right; eexists; reflexivity].
  destruct (write_r E 0) as [[]|e]; simpl;
    [|intros H; injection H as <-; right; eexists; reflexivity].
  destruct (flush_r E 0) as [[]|e]; simpl;
    [|intros H; injection H as <-; right; eexists; reflexivity].
  destruct (poll_loop E self fuel st (clock E 0) 0 [] []) as [tl [acc|e|]]; simpl.
  - destruct (quit_block_ok E) as [tq Hq]. simpl in Hq. rewrite Hq. simpl.
    destruct (terminate_block E) as [tt' [[u Ht]|[e [_ Ht]]]];
      simpl in Ht; rewrite Ht; simpl; intros H; injection H as <-.
    + left. exists (fst acc), (snd acc). reflexivity.
    + right. eexists. reflexivity.
  - intros H; injection H as <-. right. eexists. reflexivity.
  - discriminate.
Qed.

Lemma no_combined_diagnostic (s : pystr) :
  (exists out err, s = labelled out err) \/
  (exists e, s = lit "Error running MCPHost: " ++ exn_str e) ->
  startswith (lit "Both approaches failed") s = false.
Proof. intros [(out & err & ->)|(e & ->)]; reflexivity. Qed.

(** C5, as the code has it: [run_mcphost] never lets an exception through
    to the interaction loop, and returns a text as soon as the polling loop
    ends, which it does once the clock has passed the deadline.  The text is
    always the one of the primary strategy [run_mcphost_basic]: the labelled
    output, or, when the primary strategy fails (here: the spawn, or the
    write of the prompt), the text [Error running MCPHost: ...] of its own
    handler.  The secondary strategy is not invoked in any run, and no text
    beginning with [Both approaches failed] is returned. *)
Theorem run_mcphost_returns_string (E : env) (self : MCPHostRunner) (prompt : pystr) :
  (forall fuel, run_mcphost E self fuel prompt = run_mcphost_basic E self fuel prompt) /\
  (forall fuel,
      exists t, run_mcphost E self fuel prompt = (t, Diverge) \/
                exists s, run_mcphost E self fuel prompt = (t, Ok s)) /\
  (forall k fuel,
      Qltb (clock E (S k) - clock E 0) (inject_Z (response_timeout self)) = false ->
      (k < fuel)%nat ->
      exists t s, run_mcphost E self fuel prompt = (t, Ok s)) /\
  (forall fuel, existsb is_pexpect (fst (run_mcphost E self fuel prompt)) = false) /\
  (forall fuel s,
      snd (run_mcphost E self fuel prompt) = Ok s ->
      ((exists out err, s = labelled out err) \/
       (exists e, s = lit "Error running MCPHost: " ++ exn_str e)) /\
      startswith (lit "Both approaches failed") s = false) /\
  (forall fuel e,
      popen_r E = Raises e ->
      run_mcphost E self fuel prompt =
      ([EPopen (cmd self)], Ok (lit "Error running MCPHost: " ++ exn_str e))) /\
  (forall fuel e,
      popen_r E = Returns tt -> write_r E 0 = Raises e ->
      run_mcphost E self fuel prompt =
      ([EPopen (cmd self); EWrite (prompt ++ [10])],
       Ok (lit "Error running MCPHost: " ++ exn_str e))) /\
  (forall fuel e, snd (Voice.dispatch E self fuel prompt) <> Eff.Exn e).
Proof.
  split; [|split; [|split; [|split; [|split; [|split; [|split]]]]]].
  - intros fuel. apply run_mcphost_is_basic.
  - intros fuel. rewrite run_mcphost_is_basic.
    apply run_mcphost_basic_with_no_raise.
  - intros k fuel Hk Hf. rewrite run_mcphost_is_basic.
    now apply (run_mcphost_basic_with_ends E self 1 k).
  - intros fuel. rewrite run_mcphost_is_basic.
    apply run_mcphost_basic_with_no_pexpect.
  - intros fuel s. rewrite run_mcphost_is_basic. intros H.
    apply run_mcphost_basic_with_result in H.
    split; [assumption | now apply no_combined_diagnostic].
  - intros fuel e Hp. rewrite run_mcphost_is_basic.
    unfold run_mcphost_basic, run_mcphost_basic_with. rewrite Hp. reflexivity.
  - intros fuel e Hp Hw. rewrite run_mcphost_is_basic.
    unfold run_mcphost_basic, run_mcphost_basic_with. rewrite Hp, Hw. reflexivity.
  - intros fuel e. unfold Voice.dispatch. rewrite run_mcphost_is_basic.
    destruct (run_mcphost_basic_with_no_raise E self 1 fuel prompt) as [t [H|[s H]]];
      unfold run_mcphost_basic; rewrite H; discriminate.
Qed.

Lemma run_mcphost_returns_string_witness :
  (exists t s, run_mcphost env_silent demo 2 (lit "hi") = (t, Ok s)) /\
  run_mcphost env_nothing_installed demo 5 (lit "hi") =
    ([EPopen (cmd demo)],
     Ok (lit "Error running MCPHost: [Errno 2] No such file or directory: 'mcphost'")) /\
  run_mcphost env_broken_pipe demo 5 (lit "hi") =
    ([EPopen (cmd demo); EWrite (lit "hi" ++ [10])],
     Ok (lit "Error running MCPHost: [Errno 32] Broken pipe")) /\
  startswith (lit "Both approaches failed")
    (lit "Error running MCPHost: [Errno 32] Broken pipe") = false.
Proof.
  split; [|split; [|split]].
  - destruct (run_mcphost_returns_string env_silent demo (lit "hi"))
      as (_ & _ & H & _).
    apply (H 1%nat); [reflexivity | lia].
  - destruct (run_mcphost_returns_string env_nothing_installed demo (lit "hi"))
      as (_ & _ & _ & _ & _ & H & _).
    exact (H 5%nat
             (OtherException (lit "[Errno 2] No such file or directory: 'mcphost'"))
             eq_refl).
  - destruct (run_mcphost_returns_string env_broken_pipe demo (lit "hi"))
      as (_ & _ & _ & _ & _ & _ & H & _).
    exact (H 5%nat (OtherException (lit "[Errno 32] Broken pipe")) eq_refl eq_refl).
  - destruct (run_mcphost_returns_string env_broken_pipe demo (lit "hi"))
      as (_ & _ & _ & _ & H & _).
    apply (H 5%nat). reflexivity.
Defined.

(** C5 as it is stated fails: when neither [mcphost] nor pexpect is
    installed, the primary strategy fails and the secondary one would fail as
    well, yet [run_mcphost] does not invoke the secondary strategy and does
    not return the text for two failures; it returns the error text of the
    primary strategy.  Nor is the answer of a secondary strategy that would
    succeed returned. *)
Lemma failed_primary_has_no_fallback :
  popen_r env_nothing_installed =
    Raises (OtherException (lit "[Errno 2] No such file or directory: 'mcphost'")) /\
  pexpect_r env_nothing_installed = Raises (ImportError (lit "No module named 'pexpect'")) /\
  run_mcphost env_nothing_installed demo 5 (lit "hi") =
    ([EPopen (cmd demo)],
     Ok (lit "Error running MCPHost: [Errno 2] No such file or directory: 'mcphost'")) /\
  ~ In (EPexpect (lit "hi")) (fst (run_mcphost env_nothing_installed demo 5 (lit "hi"))) /\
  snd (run_mcphost env_nothing_installed demo 5 (lit "hi")) <>
    Ok (lit "Both approaches failed and pexpect not available") /\
  pexpect_r env_no_mcphost = Returns (lit "pty") /\
  snd (run_mcphost env_no_mcphost demo 5 (lit "hi")) =
    Ok (lit "Error running MCPHost: [Errno 2] No such file or directory: 'mcphost'").
Proof.
  split; [reflexivity|]. split; [reflexivity|]. split; [reflexivity|].
  split; [|split; [|split]].
  - vm_compute. intros [H|[]]. discriminate.
  - vm_compute. discriminate.
  - reflexivity.
  - reflexivity.
Qed.

(** ** From the child to the speech queue *)

(** A scan leaves alone a prefix none of whose characters can start a
    match. *)
Lemma scan_keeps_prefix (m : pystr -> option (pystr * nat)) (start : char -> bool) :
  (forall c t, start c = false -> m (c :: t) = None) ->
  forall p x, forallb (fun c => negb (start c)) p = true ->
              scan m 0 (p ++ x) = p ++ scan m 0 x.
Proof.
  intros Hm p x; induction p as [|c p IH]; intros Hp; [reflexivity|].
  simpl in Hp. apply andb_true_iff in Hp as [Hc Hp]. apply negb_true_iff in Hc.
  simpl app. rewrite scan_cons, (Hm c (p ++ x) Hc). f_equal. now apply IH.
Qed.

Lemma match_ws_other (c : char) (t : pystr) : isspace c = false -> match_ws (c :: t) = None.
Proof. intros H. unfold match_ws. simpl. now rewrite H. Qed.

Lemma match_tag_start (c : char) (t : pystr) : (c =? 60) = false -> match_tag (c :: t) = None.
Proof. intros H. apply match_tag_other. now apply N.eqb_neq. Qed.

Lemma match_link_start (c : char) (t : pystr) : (c =? 91) = false -> match_link (c :: t) = None.
Proof.
  intros H. apply N.eqb_neq in H. unfold match_link.
  destruct c as [|p]; [reflexivity|].
  do 7 (destruct p as [p|p|]; try reflexivity). congruence.
Qed.

Lemma filter_keeps_prefix (f : char -> bool) (p x : pystr) :
  forallb f p = true -> filter f (p ++ x) = p ++ filter f x.
Proof.
  intros H. rewrite filter_app. f_equal. apply filter_all.
  apply Forall_forall. now apply forallb_forall.
Qed.

Lemma lstrip_app_keep (u v : pystr) (d : char) (v' : pystr) :
  v = d :: v' -> isspace d = false -> exists w, lstrip (u ++ v) = w ++ v.
Proof.
  intros Hv Hd. induction u as [|c u [w Hw]].
  - exists []. subst v. simpl. now rewrite Hd.
  - simpl. destruct (isspace c); [now exists w | now exists (c :: u)].
Qed.

Lemma strip_keeps_prefix (p x : pystr) (c d : char) (p' q' : pystr) :
  p = c :: p' -> isspace c = false ->
  rev p = d :: q' -> isspace d = false ->
  exists x', strip (p ++ x) = p ++ x'.
Proof.
  intros Hp Hc Hr Hd. unfold strip.
  assert (Hl : lstrip (p ++ x) = p ++ x) by (subst p; now apply lstrip_fixed).
  rewrite Hl. unfold rstrip. rewrite rev_app_distr.
  destruct (lstrip_app_keep (rev x) (rev p) d q' Hr Hd) as [w Hw].
  rewrite Hw, rev_app_distr, rev_involutive. now exists (rev w).
Qed.

Lemma clash_startswith (old q x : pystr) :
  clash old q = true -> startswith old (q ++ x) = false.
Proof.
  revert q; induction old as [|a old IH]; intros [|b q] H; try discriminate.
  simpl in *. destruct (a =? b); simpl in *; [now apply IH | reflexivity].
Qed.

Lemma replace_keeps_prefix (old new p x : pystr) :
  clear old p = true -> replace old new (p ++ x) = p ++ replace old new x.
Proof.
  induction p as [|c p IH]; intros H; [reflexivity|].
  simpl in H. apply andb_true_iff in H as [Hc Hp].
  simpl app. rewrite replace_copy.
  - f_equal. now apply IH.
  - now apply (clash_startswith old (c :: p) x).
Qed.

Lemma apply_replacements_keeps_prefix (rs : list (pystr * pystr)) (p : pystr) :
  forallb (fun tr => clear (fst tr) p) rs = true ->
  forall x, apply_replacements rs (p ++ x) = p ++ apply_replacements rs x.
Proof.
  induction rs as [|[old new] rs IH]; intros H x; [reflexivity|].
  simpl in H. apply andb_true_iff in H as [Ho Hrs].
  unfold apply_replacements. simpl fold_left.
  rewrite replace_keeps_prefix by assumption. now apply IH.
Qed.

(** A prefix with no whitespace, control character, [<], [[], [*], [#] or
    backquote in it, and in which no term of [replacements] can start, goes
    through both stages as it is. *)
Lemma tidy_keeps_prefix (p x : pystr) (c d : char) (p' q' : pystr) :
  forallb (fun c => negb (is_control c) && negb (c =? 60) && negb (isspace c)) p = true ->
  p = c :: p' -> rev p = d :: q' ->
  exists x', tidy (p ++ x) = p ++ x'.
Proof.
  intros Hp Hc Hd. unfold tidy.
  assert (H1 : forallb (fun c => negb (is_control c)) p = true /\
               forallb (fun c => negb (c =? 60)) p = true /\
               forallb (fun c => negb (isspace c)) p = true).
  { rewrite !forallb_forall in *. repeat split; intros a Ha; specialize (Hp a Ha);
      apply andb_true_iff in Hp as [Hp H3]; apply andb_true_iff in Hp as [H1 H2];
      assumption. }
  destruct H1 as (H1 & H2 & H3).
  rewrite filter_keeps_prefix by assumption.
  rewrite (scan_keeps_prefix match_tag (fun c => c =? 60) match_tag_start) by assumption.
  rewrite (scan_keeps_prefix match_ws isspace match_ws_other) by assumption.
  apply (strip_keeps_prefix p _ c d p' q'); try assumption.
  - rewrite forallb_forall in H3. apply negb_true_iff, H3. subst p. now left.
  - rewrite forallb_forall in H3. apply negb_true_iff, H3.
    apply in_rev. rewrite Hd. now left.
Qed.

Lemma clean_text_for_speech_keeps_prefix (p x : pystr) :
  forallb (fun c => plain c && negb (c =? 91)) p = true ->
  forallb (fun tr => clear (fst tr) p) replacements = true ->
  (len p <= 500)%nat ->
  exists x', clean_text_for_speech (p ++ x) = p ++ x'.
Proof.
  intros Hp Hr Hlen. unfold clean_text_for_speech.
  assert (H1 : forallb plain p = true /\ forallb (fun c => negb (c =? 91)) p = true).
  { rewrite !forallb_forall in *. split; intros a Ha; specialize (Hp a Ha);
      apply andb_true_iff in Hp as [H1 H2]; assumption. }
  destruct H1 as [H1 H2].
  rewrite speech_body_filter, filter_keeps_prefix by assumption.
  unfold sub_links.
  rewrite (scan_keeps_prefix match_link (fun c => c =? 91) match_link_start) by assumption.
  rewrite apply_replacements_keeps_prefix by assumption.
  destruct (500 <? len _)%nat; [|eexists; reflexivity].
  rewrite firstn_app.
  rewrite (firstn_all2 p) by exact Hlen.
  rewrite <- app_assoc. eexists. reflexivity.
Qed.

(** X11: when [run_mcphost_basic] reaches its [return], what the loop of
    [run_interactive] makes of the result for the speech queue begins with
    the label [STDOUT:], whatever the child wrote: the label is spoken with
    every answer.  For a child that wrote nothing the text is
    [STDOUT: STDERR:]. *)
Theorem label_is_spoken (all_output stderr_output : pystr) :
  (exists rest,
      clean_text_for_speech
        (clean_mcphost_response (Some (labelled all_output stderr_output)))
      = lit "STDOUT:" ++ rest) /\
  clean_text_for_speech (clean_mcphost_response (Some (labelled [] [])))
  = lit "STDOUT: STDERR:".
Proof.
  split; [|vm_compute; reflexivity].
  rewrite clean_mcphost_response_unfold.
  unfold labelled.
  replace (lit "STDOUT:" ++ [10] ++ all_output ++ [10; 10] ++ lit "STDERR:" ++ [10] ++ stderr_output)
    with (lit "STDOUT:" ++ 10 :: (all_output ++ [10; 10] ++ lit "STDERR:" ++ [10] ++ stderr_output))
    by reflexivity.
  rewrite split_nl_app.
  rewrite (split_nl_line (lit "STDOUT:")) by (vm_compute; intuition discriminate).
  set (ls := split_nl _).
  change (clean_lines ([lit "STDOUT:"] ++ ls)) with (lit "STDOUT:" :: clean_lines ls).
  assert (Hj : exists j, join_sp (lit "STDOUT:" :: clean_lines ls) = lit "STDOUT:" ++ j).
  { destruct (clean_lines ls) as [|l ls'].
    - exists []. reflexivity.
    - exists (32 :: join_sp (l :: ls')). reflexivity. }
  destruct Hj as [j ->].
  destruct (tidy_keeps_prefix (lit "STDOUT:") j 83 58 (lit "TDOUT:") (lit "TUODTS"))
    as [x' ->]; try reflexivity.
  destruct (clean_text_for_speech_keeps_prefix (lit "STDOUT:") x') as [x'' ->];
    try reflexivity.
  - unfold len. simpl. lia.
  - now exists x''.
Qed.

(** ** mcphost_runner.py: [run_mcphost_with_pexpect] *)

Module PexpectFacts.

Import Pexpect PtyScenarios.

(** Case analysis on every answer of the pseudo-terminal. *)
Ltac pty_cases P :=
  unfold run_mcphost_with_pexpect, exchange, read_reply, read_before;
  destruct (import_r P) as [[]|?]; simpl;
  [destruct (spawn_r P) as [[]|?]; simpl;
   [destruct (expect_r P 0) as [[?|?]|?]; simpl;
    (try (destruct (sendline_r P) as [[]|?]; simpl;
          [destruct (expect_r P 1) as [[?|?]|i1]; simpl;
           [ | | destruct (i1 <? 3)%nat eqn:?; simpl;
                 [destruct (expect_r P 2) as [[?|?]|i2]; simpl;
                  [ | | destruct (i2 <? 4)%nat; simpl;
                        [|destruct (i2 =? 4)%nat; simpl]] |]];
           try (destruct (close_r P) as [[]|?]; simpl) |])) |] |].

(** X12: [run_mcphost_with_pexpect] never raises and never returns the
    empty string: every exception of the exchange comes out as the text
    [Error with pexpect approach: ...], and an empty capture as
    [No response text captured]. *)
Theorem pexpect_returns_a_text (P : penv) (self : MCPHostRunner) (prompt : pystr) :
  exists t s, run_mcphost_with_pexpect P self prompt = (t, Eff.Val s) /\ s <> [].
Proof.
  pty_cases P;
    try (destruct (before_r P 3); simpl);
    try (destruct (before_r P 2); simpl);
    do 2 eexists; (split; [reflexivity | discriminate]).
Qed.

(** X13: the exchange waits in at most three [expect] calls, with the
    timeouts 15, [response_timeout] and 5 in this order. *)
Theorem pexpect_waits_at_most_three_times (P : penv) (self : MCPHostRunner)
    (prompt : pystr) :
  exists k, expect_timeouts (fst (run_mcphost_with_pexpect P self prompt)) =
            firstn k [15%Q; inject_Z (response_timeout self); 5%Q].
Proof.
  pty_cases P;
    try (destruct (before_r P 3); simpl);
    try (destruct (before_r P 2); simpl);
    first [ exists 0%nat; reflexivity | exists 1%nat; reflexivity
          | exists 2%nat; reflexivity | exists 3%nat; reflexivity ].
Qed.

(** X14: the prompt is sent whether or not a ready pattern was seen: once
    pexpect is imported and the child spawned, and unless the first [expect]
    raises something other than [TIMEOUT], the run starts with the import,
    the spawn, the wait of 15 seconds and the [sendline] of the prompt. *)
Theorem prompt_is_sent_without_ready_pattern (P : penv) (self : MCPHostRunner)
    (prompt : pystr) :
  import_r P = Returns tt -> spawn_r P = Returns tt ->
  (forall e, expect_r P 0 <> inl (Other e)) ->
  exists t', fst (run_mcphost_with_pexpect P self prompt) =
             PImport :: PSpawn (command self) :: PExpect ready_patterns 15
             :: PSendline prompt :: t'.
Proof.
  intros Hi Hs He.
  pty_cases P; try discriminate;
    try (destruct (before_r P 3); simpl);
    try (destruct (before_r P 2); simpl);
    try (eexists; reflexivity);
    exfalso; eapply He; reflexivity.
Qed.

Lemma prompt_is_sent_without_ready_pattern_witness :
  exists t', fst (run_mcphost_with_pexpect pty_late demo (lit "hi")) =
             PImport :: PSpawn (command demo) :: PExpect ready_patterns 15
             :: PSendline (lit "hi") :: t'.
Proof.
  apply prompt_is_sent_without_ready_pattern; try reflexivity.
  intros e H. discriminate.
Defined.

(** X15: when none of the reply patterns is seen before the response
    timeout (the second [expect] gives the index of [TIMEOUT]), the result
    is [No response text captured] and [child.before] is not read: what the
    agent had printed by then is dropped. *)
Theorem no_reply_pattern_drops_output (P : penv) (self : MCPHostRunner)
    (prompt : pystr) (i : nat) :
  import_r P = Returns tt -> spawn_r P = Returns tt ->
  (forall e, expect_r P 0 <> inl (Other e)) ->
  sendline_r P = Returns tt ->
  expect_r P 1 = inr i -> (3 <= i)%nat ->
  close_r P = Returns tt ->
  run_mcphost_with_pexpect P self prompt =
  ([PImport; PSpawn (command self); PExpect ready_patterns 15; PSendline prompt;
    PExpect reply_patterns (inject_Z (response_timeout self)); PClose],
   Eff.Val (lit "No response text captured")).
Proof.
  intros Hi Hs He Hl He1 Hge Hc.
  unfold run_mcphost_with_pexpect, exchange.
  rewrite Hi, Hs, Hl, He1, Hc. simpl.
  assert (Hlt : (i <? 3)%nat = false) by (apply Nat.ltb_ge; lia).
  rewrite Hlt.
  destruct (expect_r P 0) as [[m|e]|i0]; simpl; try reflexivity.
  exfalso. now apply (He e).
Qed.

Lemma no_reply_pattern_drops_output_witness :
  snd (run_mcphost_with_pexpect pty_no_reply demo (lit "hi")) =
  Eff.Val (lit "No response text captured").
Proof.
  rewrite (no_reply_pattern_drops_output pty_no_reply demo (lit "hi") 3);
    try reflexivity; try lia.
  intros e H. discriminate.
Defined.

(** X16: when a reply pattern is seen, the captured response is
    [child.before] after the third [expect], whichever way that one ends (a
    next prompt, its timeout of 5 seconds, the end of the stream, or
    [TIMEOUT] raised); an empty capture gives [No response text
    captured]. *)
Theorem reply_is_what_came_before (P : penv) (self : MCPHostRunner)
    (prompt : pystr) (i : nat) :
  import_r P = Returns tt -> spawn_r P = Returns tt ->
  (forall e, expect_r P 0 <> inl (Other e)) ->
  sendline_r P = Returns tt ->
  expect_r P 1 = inr i -> (i < 3)%nat ->
  (forall e, expect_r P 2 <> inl (Other e)) ->
  close_r P = Returns tt ->
  snd (run_mcphost_with_pexpect P self prompt) =
  Eff.Val (match before_r P 3 with
           | [] => lit "No response text captured"
           | _ => before_r P 3
           end).
Proof.
  intros Hi Hs He Hl He1 Hlt He2 Hc.
  unfold run_mcphost_with_pexpect, exchange, read_reply, read_before.
  rewrite Hi, Hs, Hl, He1, Hc. simpl.
  apply Nat.ltb_lt in Hlt. rewrite Hlt.
  destruct (expect_r P 0) as [[m|e]|i0]; simpl; try (exfalso; now apply (He e));
    (destruct (expect_r P 2) as [[m2|e2]|i2]; simpl;
     try (exfalso; now apply (He2 e2));
     try (destruct (i2 <? 4)%nat; simpl; [|destruct (i2 =? 4)%nat; simpl]);
     destruct (before_r P 3); reflexivity).
Qed.

Lemma reply_is_what_came_before_witness :
  snd (run_mcphost_with_pexpect pty_late demo (lit "hi")) = Eff.Val (lit " Hello!").
Proof.
  rewrite (reply_is_what_came_before pty_late demo (lit "hi") 0);
    try reflexivity; try lia; intros e H; discriminate.
Defined.

(** X17: [child.close()] is reached exactly when nothing before it raised:
    a failed import or spawn, an [expect] that raises something other than
    [TIMEOUT] (such as [EOF] when the child has died) or a failed [sendline]
    leave through the outer handler without closing the child. *)
Theorem child_closed_unless_raised (P : penv) (self : MCPHostRunner) (prompt : pystr) :
  close_r P = Returns tt ->
  (existsb is_close (fst (exchange P self prompt)) = true <->
   exists s, snd (exchange P self prompt) = Eff.Val s).
Proof.
  intros Hc. unfold exchange, read_reply, read_before. rewrite Hc.
  destruct (import_r P) as [[]|?]; simpl;
  [destruct (spawn_r P) as [[]|?]; simpl;
   [destruct (expect_r P 0) as [[?|?]|?]; simpl;
    (try (destruct (sendline_r P) as [[]|?]; simpl;
          [destruct (expect_r P 1) as [[?|?]|i1]; simpl;
           [ | | destruct (i1 <? 3)%nat eqn:?; simpl;
                 [destruct (expect_r P 2) as [[?|?]|i2]; simpl;
                  [ | | destruct (i2 <? 4)%nat; simpl;
                        [|destruct (i2 =? 4)%nat; simpl]] |]] |])) |] |];
  split; intros H; try discriminate; try reflexivity;
    try (eexists; reflexivity);
    try (destruct H as [s H]; discriminate).
Qed.

Lemma child_closed_unless_raised_witness :
  existsb is_close (fst (exchange pty_dead demo (lit "hi"))) = false /\
  existsb is_close (fst (exchange pty_late demo (lit "hi"))) = true.
Proof.
  split.
  - destruct (existsb is_close (fst (exchange pty_dead demo (lit "hi")))) eqn:E;
      [|reflexivity].
    apply (child_closed_unless_raised pty_dead demo (lit "hi") eq_refl) in E.
    destruct E as [s Hs]. vm_compute in Hs. discriminate.
  - apply (child_closed_unless_raised pty_late demo (lit "hi") eq_refl).
    eexists. vm_compute. reflexivity.
Defined.

End PexpectFacts.

(** The one call [EPexpect] by which [Runner.run_mcphost_with_pexpect] sums
    up the exchange gives the text of the function in full. *)
Lemma pexpect_summary_agrees (P : Pexpect.penv) (self : MCPHostRunner) (E : env)
    (prompt s : pystr) :
  pexpect_r E = Pexpect.as_answer P self prompt ->
  snd (Pexpect.run_mcphost_with_pexpect P self prompt) = Eff.Val s ->
  snd (run_mcphost_with_pexpect E prompt) = Ok s.
Proof.
  intros HE. unfold run_mcphost_with_pexpect, Pexpect.run_mcphost_with_pexpect.
  rewrite HE. unfold Pexpect.as_answer.
  destruct (Pexpect.exchange P self prompt) as [t [s'|[m|e]|]]; simpl;
    try (destruct s'; simpl); intros H; try discriminate;
    injection H as <-; reflexivity.
Qed.

(** ** voice_mcphost.py *)

Module VoiceFacts.

Import Voice VoiceScenarios.

Ltac rec_cases R :=
  unfold record_and_transcribe, remove_quietly;
  destruct (arecord_r R) as [[]|?]; simpl;
  [destruct (input_r R) as [[|?]|[]]; simpl;
   (destruct (stop_r R) as [[]|?]; simpl;
    [destruct (reap_r R) as [[]|?]; simpl;
     [try (destruct (exists_r R); simpl;
           [destruct (getsize_r R) as [size|?]; simpl;
            [destruct (size =? 0); simpl;
             [|destruct (transcribe_r R) as [raw|?] eqn:?; simpl;
               [destruct (strip raw) eqn:?; simpl|];
               destruct (remove_r R) as [[]|?]; simpl] |] |]) |] |]) |].

Lemma record_and_transcribe_some (R : renv) (s : pystr) :
  snd (record_and_transcribe R) = Eff.Val (Some s) ->
  s <> [] /\ strip s = s /\ exists raw, transcribe_r R = Returns raw /\ s = strip raw.
Proof.
  rec_cases R; intros H; try discriminate;
    injection H as <-;
    (split; [discriminate|]);
    (split; [|eexists; split; [reflexivity | congruence]]);
    match goal with Hs : strip ?raw = _ |- _ => rewrite <- Hs; apply strip_idem end.
Qed.

(** X18: when [record_and_transcribe] returns a text, it is the stripped
    transcript, it is not empty and it has no whitespace at either end; a
    transcript that is empty or only whitespace gives [None]. *)
Theorem transcript_is_stripped_and_not_empty (R : renv) (s : pystr) :
  snd (record_and_transcribe R) = Eff.Val (Some s) ->
  s <> [] /\ strip s = s /\ exists raw, transcribe_r R = Returns raw /\ s = strip raw.
Proof. apply record_and_transcribe_some. Qed.

Lemma transcript_is_stripped_and_not_empty_witness :
  snd (record_and_transcribe (rec_text (lit " Hello there. "))) =
    Eff.Val (Some (lit "Hello there.")) /\
  lit "Hello there." <> [] /\ strip (lit "Hello there.") = lit "Hello there.".
Proof.
  split; [reflexivity|].
  destruct (transcript_is_stripped_and_not_empty
              (rec_text (lit " Hello there. ")) (lit "Hello there.") eq_refl)
    as (H1 & H2 & _).
  split; assumption.
Defined.



(** X20: an interruption while waiting for ENTER stops the recorder
    ([terminate], then [wait]) before it is passed on; nothing is
    transcribed or removed. *)
Theorem interrupt_stops_the_recorder (R : renv) :
  arecord_r R = Returns tt -> input_r R = inl KeyboardInterrupt ->
  stop_r R = Returns tt -> reap_r R = Returns tt ->
  record_and_transcribe R =
  ([VPopen arecord_argv; VInput; VTerminate; VWait], Eff.Exn KeyboardInterrupt).
Proof.
  intros Ha Hi Hs Hr. unfold record_and_transcribe. rewrite Ha, Hi, Hs, Hr. reflexivity.
Qed.

Lemma interrupt_stops_the_recorder_witness :
  record_and_transcribe rec_interrupted =
  ([VPopen arecord_argv; VInput; VTerminate; VWait], Eff.Exn KeyboardInterrupt).
Proof. apply interrupt_stops_the_recorder; reflexivity. Defined.

(** *** The queue of [run_interactive] *)

#[local] Arguments clean_text_for_speech : simpl never.
#[local] Arguments clean_mcphost_response : simpl never.
#[local] Arguments is_text : simpl never.

Lemma is_text_spoken (text : pystr) : is_text (Some (clean_text_for_speech text)) = true.
Proof.
  unfold is_text. apply Nat.leb_le. unfold clean_text_for_speech.
  destruct (500 <? len (speech_body text))%nat eqn:E.
  - unfold len in *. rewrite length_app, length_firstn.
    change (List.length truncation_notice) with 42%nat. lia.
  - apply Nat.ltb_ge in E. unfold len in *. lia.
Qed.

Lemma puts_app (t u : list vevent) : puts (t ++ u) = puts t ++ puts u.
Proof.
  induction t as [|ev t IH]; [reflexivity|].
  destruct ev; simpl; rewrite IH; reflexivity.
Qed.

Lemma prompts_app (t u : list vevent) : prompts (t ++ u) = prompts t ++ prompts u.
Proof.
  induction t as [|ev t IH]; [reflexivity|].
  destruct ev; simpl; rewrite IH; reflexivity.
Qed.

Lemma record_puts_nothing (R : renv) :
  puts (fst (record_and_transcribe R)) = [] /\
  prompts (fst (record_and_transcribe R)) = [].
Proof. rec_cases R; split; reflexivity. Qed.

Lemma dispatch_trace (E : env) (self : MCPHostRunner) (fuel : nat) (prompt : pystr) :
  exists t, fst (dispatch E self fuel prompt) = [VRun prompt t].
Proof.
  unfold dispatch. destruct (run_mcphost E self fuel prompt) as [t [r|e|]];
    now exists t.
Qed.

Lemma turn_dispatch (ul : pystr -> pystr) (u : option pystr) (p : pystr) :
  run_interactive_turn ul u = Dispatch p ->
  u = Some p /\ p <> [] /\ str_in (lower ul p) exit_commands = false.
Proof.
  destruct u as [[|c s]|]; unfold run_interactive_turn; try discriminate.
  destruct (str_in (lower ul (c :: s)) exit_commands) eqn:E; [discriminate|].
  intros H; injection H as <-. repeat split; [discriminate | assumption].
Qed.

Section Session.

Variable ul : pystr -> pystr.
Variable self : MCPHostRunner.
Variable rec : nat -> renv.
Variable agent : nat -> env.
Variable agent_fuel : nat -> nat.
Variable last_remove_r : answer unit.

Local Abbreviation turns := (turns ul self rec agent agent_fuel).
Local Abbreviation run_interactive := (run_interactive ul self rec agent agent_fuel last_remove_r).

Local Abbreviation good_prompt := (good_prompt ul).

Lemma turns_invariant (fuel : nat) :
  forall i,
    forallb is_text (puts (fst (turns fuel i))) = true /\
    Forall good_prompt (prompts (fst (turns fuel i))).
Proof.
  induction fuel as [|fuel IH]; intros i; [split; [reflexivity | constructor]|].
  simpl.
  destruct (record_puts_nothing (rec i)) as [Hrp Hrq].
  pose proof (record_and_transcribe_some (rec i)) as Hsome.
  destruct (record_and_transcribe (rec i)) as [tr [u|e|]]; simpl in *;
    try (rewrite Hrp, Hrq; split; [reflexivity | constructor]).
  destruct (run_interactive_turn ul u) as [| |p] eqn:Eturn.
  - destruct (IH (S i)) as [H1 H2].
    destruct (turns fuel (S i)) as [t r]. simpl in *.
    rewrite puts_app, prompts_app, Hrp, Hrq. simpl. now split.
  - simpl. rewrite puts_app, prompts_app, Hrp, Hrq. simpl.
    rewrite ?is_text_spoken. split; [reflexivity | constructor].
  - apply turn_dispatch in Eturn as (-> & Hne & Hex).
    destruct (Hsome p eq_refl) as (_ & Hstrip & _).
    assert (Hgood : good_prompt p) by (repeat split; assumption).
    destruct (dispatch_trace (agent i) self (agent_fuel i) p) as [td Htd].
    destruct (dispatch (agent i) self (agent_fuel i) p) as [t0 [resp|e|]];
      cbn [fst] in Htd; subst t0.
    + destruct (IH (S i)) as [H1 H2].
      destruct (turns fuel (S i)) as [t r].
      cbn [fst snd] in H1, H2.
      destruct resp as [|c resp]; unfold speak_text;
        cbn [Eff.bind Eff.ret Eff.call fst snd];
        rewrite !puts_app, !prompts_app, Hrp, Hrq;
        cbn [puts prompts app forallb];
        rewrite ?puts_app, ?prompts_app; cbn [puts prompts app forallb];
        rewrite ?is_text_spoken; cbn [andb];
        (split; [assumption | constructor; assumption]).
    + cbn [Eff.bind fst snd]. rewrite puts_app, prompts_app, Hrp, Hrq.
      cbn [puts prompts app forallb]. split; [reflexivity | repeat constructor; assumption].
    + cbn [Eff.bind fst snd]. rewrite puts_app, prompts_app, Hrp, Hrq.
      cbn [puts prompts app forallb]. split; [reflexivity | repeat constructor; assumption].
Qed.

End Session.

End VoiceFacts.

Module SessionFacts.

Import Voice VoiceScenarios VoiceFacts.

#[local] Arguments clean_text_for_speech : simpl never.
#[local] Arguments clean_mcphost_response : simpl never.
#[local] Arguments is_text : simpl never.

Section Session.

Variable ul : pystr -> pystr.
Variable self : MCPHostRunner.
Variable rec : nat -> renv.
Variable agent : nat -> env.
Variable agent_fuel : nat -> nat.
Variable last_remove_r : answer unit.

Local Abbreviation turns := (turns ul self rec agent agent_fuel).
Local Abbreviation run_interactive :=
  (run_interactive ul self rec agent agent_fuel last_remove_r).

Lemma run_interactive_shape (fuel : nat) :
  (exists t', fst (run_interactive fuel) =
              VPut (Some (clean_text_for_speech welcome_msg))
              :: fst (turns fuel 0) ++ t' /\
              snd (run_interactive fuel) = Eff.Hang /\ t' = [] /\
              snd (turns fuel 0) = Eff.Hang) \/
  (exists said tail,
      fst (run_interactive fuel) =
      VPut (Some (clean_text_for_speech welcome_msg))
      :: fst (turns fuel 0) ++ said ++ VPut None :: tail /\
      snd (run_interactive fuel) = Eff.Val tt /\
      puts tail = [] /\ prompts tail = [] /\ prompts said = [] /\
      (snd (turns fuel 0) = Eff.Val tt /\ puts said = [] \/
       snd (turns fuel 0) = Eff.Exn KeyboardInterrupt /\
       puts said = [Some (clean_text_for_speech (lit "Goodbye!"))] \/
       (exists e, snd (turns fuel 0) = Eff.Exn (Exc e)) /\
       puts said = [Some (clean_text_for_speech error_msg)])).
Proof.
  unfold Voice.run_interactive, remove_quietly, speak_text.
  destruct (turns fuel 0) as [t [[]|[|e]|]]; simpl.
  - right. exists [].
    destruct last_remove_r as [[]|e]; simpl; eexists;
      (split; [rewrite ?app_nil_r; reflexivity|]); repeat split; auto.
  - right. exists [VPut (Some (clean_text_for_speech (lit "Goodbye!"))); VSleep 2].
    destruct last_remove_r as [[]|e]; simpl; eexists;
      (split; [rewrite <- ?app_assoc; simpl; rewrite ?app_nil_r; reflexivity|]);
      repeat split; auto.
  - right. exists [VPut (Some (clean_text_for_speech error_msg))].
    destruct last_remove_r as [[]|e']; simpl; eexists;
      (split; [rewrite <- ?app_assoc; simpl; rewrite ?app_nil_r; reflexivity|]);
      repeat split; eauto.
  - left. exists []. rewrite app_nil_r. repeat split; reflexivity.
Qed.

(** X21: [run_interactive] raises nothing, and when it returns the speech
    queue has received the welcome message first, then texts of at most 542
    characters, and last the signal [None], once; while the loop is still
    running the signal has not been put. *)
Theorem session_queue_is_closed_once (fuel : nat) :
  (snd (run_interactive fuel) = Eff.Val tt /\
   exists texts,
     puts (fst (run_interactive fuel)) =
     Some (clean_text_for_speech welcome_msg) :: texts ++ [None] /\
     forallb is_text texts = true) \/
  (snd (run_interactive fuel) = Eff.Hang /\
   exists texts,
     puts (fst (run_interactive fuel)) =
     Some (clean_text_for_speech welcome_msg) :: texts /\
     forallb is_text texts = true).
Proof.
  destruct (turns_invariant ul self rec agent agent_fuel fuel 0) as [Hp _].
  destruct (run_interactive_shape fuel)
    as [(t' & -> & Hr & -> & _)|(said & tail & -> & Hr & Htail & _ & _ & Hend)].
  - right. split; [assumption|].
    exists (puts (fst (turns fuel 0))). rewrite app_nil_r. split; [reflexivity | assumption].
  - left. split; [assumption|].
    exists (puts (fst (turns fuel 0)) ++ puts said).
    split.
    + simpl. rewrite !puts_app. simpl. rewrite Htail, <- app_assoc. reflexivity.
    + rewrite forallb_app, Hp. simpl.
      destruct Hend as [[_ ->]|[[_ ->]|[_ ->]]]; simpl; rewrite ?is_text_spoken; reflexivity.
Qed.

(** X22: every prompt that [run_interactive] hands to [run_mcphost] is a
    transcript that is not empty, has no whitespace at either end and is not
    an exit command. *)
Theorem agent_gets_only_real_prompts (fuel : nat) :
  Forall (good_prompt ul) (prompts (fst (run_interactive fuel))).
Proof.
  destruct (turns_invariant ul self rec agent agent_fuel fuel 0) as [_ Hq].
  destruct (run_interactive_shape fuel)
    as [(t' & -> & _ & -> & _)|(said & tail & -> & _ & _ & Htail & Hsaid & _)].
  - simpl. now rewrite app_nil_r.
  - simpl. rewrite !prompts_app. simpl. now rewrite Hsaid, Htail, !app_nil_r.
Qed.

Lemma turns_S (fuel i : nat) :
  turns (S fuel) i =
  Eff.bind (record_and_transcribe (rec i))
    (fun user_input =>
       match run_interactive_turn ul user_input with
       | NoInput => turns fuel (S i)
       | Exit => Eff.bind (speak_text goodbye_msg)
                          (fun _ => Eff.call (VSleep 3) (inr tt))
       | Dispatch prompt =>
           Eff.bind (dispatch (agent i) self (agent_fuel i) prompt)
             (fun response =>
                Eff.bind
                  match response with
                  | [] => Eff.ret tt
                  | _ => speak_text (clean_mcphost_response (Some response))
                  end
                  (fun _ => turns fuel (S i)))
       end).
Proof. reflexivity. Qed.

(** The loop through [k] turns without input. *)
Lemma turns_skip (k : nat) :
  (forall i, (i < k)%nat -> snd (record_and_transcribe (rec i)) = Eff.Val None) ->
  forall fuel i, (i <= k)%nat ->
    puts (fst (turns (k - i + fuel) i)) = puts (fst (turns fuel k)) /\
    prompts (fst (turns (k - i + fuel) i)) = prompts (fst (turns fuel k)) /\
    snd (turns (k - i + fuel) i) = snd (turns fuel k).
Proof.
  intros Hnone fuel i Hi.
  remember (k - i)%nat as d eqn:Hd. revert i Hi Hd.
  induction d as [|d IH]; intros i Hi Hd.
  - assert (i = k) by lia. subst i. simpl. repeat split.
  - assert (Hlt : (i < k)%nat) by lia.
    specialize (Hnone i Hlt).
    destruct (IH (S i)) as (H1 & H2 & H3); [lia | lia |].
    change (S d + fuel)%nat with (S (d + fuel)). rewrite turns_S.
    destruct (record_puts_nothing (rec i)) as [Hrp Hrq].
    destruct (record_and_transcribe (rec i)) as [tr r]. cbn [snd] in Hnone. subst r.
    cbn [fst] in Hrp, Hrq. cbn [Eff.bind run_interactive_turn].
    destruct (Voice.turns ul self rec agent agent_fuel (d + fuel) (S i)) as [t r].
    cbn [fst snd] in *. rewrite puts_app, prompts_app, Hrp, Hrq.
    repeat split; assumption.
Qed.

(** X23: an exit command, after any number of turns without input, ends
    the session: the queue has received the welcome message, the goodbye
    message and the signal [None], and the agent was not run. *)
Theorem exit_command_ends_session (k fuel : nat) (s : pystr) :
  (forall i, (i < k)%nat -> snd (record_and_transcribe (rec i)) = Eff.Val None) ->
  snd (record_and_transcribe (rec k)) = Eff.Val (Some s) ->
  str_in (lower ul s) exit_commands = true ->
  snd (run_interactive (k + S fuel)) = Eff.Val tt /\
  puts (fst (run_interactive (k + S fuel))) =
    [Some welcome_msg; Some goodbye_msg; None] /\
  prompts (fst (run_interactive (k + S fuel))) = [].
Proof.
  intros Hnone Hrec Hexit.
  destruct (turns_skip k Hnone (S fuel) 0) as (H1 & H2 & H3); [lia|].
  rewrite Nat.sub_0_r in *.
  assert (Hk : puts (fst (turns (S fuel) k)) = [Some (clean_text_for_speech goodbye_msg)] /\
               prompts (fst (turns (S fuel) k)) = [] /\
               snd (turns (S fuel) k) = Eff.Val tt).
  { rewrite turns_S. destruct (record_puts_nothing (rec k)) as [Hrp Hrq].
    pose proof (record_and_transcribe_some (rec k) s) as Hs.
    destruct (record_and_transcribe (rec k)) as [tr r]. cbn [snd] in Hrec, Hs. subst r.
    destruct (Hs eq_refl) as (Hne & _).
    cbn [fst] in Hrp, Hrq. cbn [Eff.bind]. unfold run_interactive_turn.
    destruct s as [|c s]; [congruence|]. rewrite Hexit.
    unfold speak_text. cbn [Eff.bind Eff.call fst snd].
    rewrite puts_app, prompts_app, Hrp, Hrq. repeat split. }
  destruct Hk as (Hk1 & Hk2 & Hk3).
  rewrite Hk1 in H1. rewrite Hk2 in H2. rewrite Hk3 in H3.
  destruct (run_interactive_shape (k + S fuel))
    as [(t' & _ & _ & _ & Hh)|(said & tail & -> & Hr & Htail & Hptail & Hpsaid & Hend)].
  - rewrite H3 in Hh. discriminate.
  - split; [assumption|].
    destruct Hend as [[_ Hsaid]|[[He _]|[[e He] _]]];
      try (rewrite H3 in He; discriminate).
    simpl. rewrite !puts_app, !prompts_app. simpl.
    rewrite H1, H2, Hsaid, Htail, Hpsaid, Hptail. split; reflexivity.
Qed.

(** X24: an interruption or an exception in the recording, after any
    number of turns without input, ends the session as well, with a spoken
    message before the signal [None]: [Goodbye!] for an interruption, the
    error message for an exception (as when [arecord] cannot be started). *)
Theorem failure_ends_session_with_a_message (k fuel : nat) (e : sig) :
  (forall i, (i < k)%nat -> snd (record_and_transcribe (rec i)) = Eff.Val None) ->
  snd (record_and_transcribe (rec k)) = Eff.Exn e ->
  snd (run_interactive (k + S fuel)) = Eff.Val tt /\
  puts (fst (run_interactive (k + S fuel))) =
    [Some welcome_msg;
     Some (match e with
           | KeyboardInterrupt => lit "Goodbye!"
           | Exc _ => error_msg
           end);
     None].
Proof.
  intros Hnone Hrec.
  destruct (turns_skip k Hnone (S fuel) 0) as (H1 & _ & H3); [lia|].
  rewrite Nat.sub_0_r in *.
  assert (Hk : puts (fst (turns (S fuel) k)) = [] /\ snd (turns (S fuel) k) = Eff.Exn e).
  { rewrite turns_S. destruct (record_puts_nothing (rec k)) as [Hrp _].
    destruct (record_and_transcribe (rec k)) as [tr r]. cbn [snd] in Hrec. subst r.
    cbn [fst] in Hrp. cbn [Eff.bind fst snd]. split; [assumption | reflexivity]. }
  destruct Hk as (Hk1 & Hk3).
  rewrite Hk1 in H1. rewrite Hk3 in H3.
  destruct (run_interactive_shape (k + S fuel))
    as [(t' & _ & _ & _ & Hh)|(said & tail & -> & Hr & Htail & _ & _ & Hend)].
  - rewrite H3 in Hh. discriminate.
  - split; [assumption|].
    simpl. rewrite !puts_app. simpl. rewrite H1, Htail.
    destruct Hend as [[He _]|[[He Hsaid]|[[e' He] Hsaid]]];
      rewrite H3 in He; try discriminate; injection He as ->; rewrite Hsaid; reflexivity.
Qed.

End Session.

Lemma exit_command_ends_session_witness :
  puts (fst (run_interactive (fun s => s) demo
               (fun i => match i with O => rec_empty | _ => rec_text (lit " Quit ") end)
               (fun _ => env_silent) (fun _ => 5%nat) (Returns tt) 3)) =
  [Some welcome_msg; Some goodbye_msg; None].
Proof.
  apply (exit_command_ends_session (fun s => s) demo
           (fun i => match i with O => rec_empty | _ => rec_text (lit " Quit ") end)
           (fun _ => env_silent) (fun _ => 5%nat) (Returns tt) 1 1 (lit "Quit")).
  - intros i Hi. assert (i = 0%nat) by lia. subst i. reflexivity.
  - reflexivity.
  - reflexivity.
Defined.

Lemma failure_ends_session_with_a_message_witness :
  puts (fst (run_interactive (fun s => s) demo (fun _ => rec_no_arecord)
               (fun _ => env_silent) (fun _ => 5%nat) (Returns tt) 1)) =
  [Some welcome_msg; Some error_msg; None].
Proof.
  apply (failure_ends_session_with_a_message (fun s => s) demo (fun _ => rec_no_arecord)
           (fun _ => env_silent) (fun _ => 5%nat) (Returns tt) 0 0
           (Exc (OtherException (lit "[Errno 2] No such file or directory: 'arecord'")))).
  - intros i Hi. lia.
  - reflexivity.
Defined.

End SessionFacts.

(** ** voice_mcphost.py: [_tts_worker] *)

Module WorkerFacts.

Import Voice VoiceScenarios.

Lemma said_app (t u : list tevent) : said (t ++ u) = said t ++ said u.
Proof.
  induction t as [|ev t IH]; [reflexivity|].
  destruct ev; simpl; rewrite IH; reflexivity.
Qed.

Lemma done_count_app (t u : list tevent) :
  done_count (t ++ u) = (done_count t + done_count u)%nat.
Proof.
  induction t as [|ev t IH]; [reflexivity|].
  destruct ev; simpl; rewrite IH; reflexivity.
Qed.

Lemma worker_from (T : tenv) (k : nat) :
  get_r T k = Got None ->
  (forall i, (i < k)%nat -> get_r T i <> Got None) ->
  forall fuel i, (i <= k)%nat -> (k < i + fuel)%nat ->
    snd (_tts_worker T fuel i) = true /\
    items T i ++ said (fst (_tts_worker T fuel i)) = items T k /\
    (played T i + done_count (fst (_tts_worker T fuel i)))%nat = played T k.
Proof.
  intros Hstop Hbefore fuel; induction fuel as [|fuel IH]; intros i Hi Hf; [lia|].
  destruct (Nat.eq_dec i k) as [->|Hne].
  - simpl. rewrite Hstop. simpl. rewrite app_nil_r. repeat split. lia.
  - assert (Hlt : (i < k)%nat) by lia.
    specialize (Hbefore i Hlt).
    destruct (IH (S i)) as (H1 & H2 & H3); [lia | lia |].
    simpl in H2, H3. simpl.
    destruct (_tts_worker T fuel (S i)) as [t stopped]. simpl in *.
    destruct (get_r T i) as [[x|]| |e]; [| congruence | |].
    + destruct (say_r T i) as [[]|e1]; [destruct (play_r T i) as [[]|e2]|];
        simpl in *; rewrite <- ?app_assoc in H2; simpl in H2;
        (split; [assumption|]); (split; [assumption|]);
        rewrite ?done_count_app; simpl; lia.
    + simpl in *. rewrite app_nil_r in H2.
      split; [assumption|]. split; [assumption | lia].
    + simpl in *. rewrite app_nil_r in H2.
      split; [assumption|]. split; [assumption | lia].
Qed.

(** X25: the worker hands to the speech engine the texts it got from the
    queue before the first [None], in the order it got them, whatever fails
    or times out in between, and then leaves its loop; nothing got after the
    [None] is said.  It calls [task_done] only for the texts that were said
    and played without an exception. *)
Theorem worker_says_the_queue_in_order (T : tenv) (k fuel : nat) :
  get_r T k = Got None ->
  (forall i, (i < k)%nat -> get_r T i <> Got None) ->
  (k < fuel)%nat ->
  snd (_tts_worker T fuel 0) = true /\
  said (fst (_tts_worker T fuel 0)) = items T k /\
  done_count (fst (_tts_worker T fuel 0)) = played T k.
Proof.
  intros Hstop Hbefore Hfuel.
  destruct (worker_from T k Hstop Hbefore fuel 0) as (H1 & H2 & H3); [lia | lia |].
  simpl in H2, H3. repeat split; assumption.
Qed.

Lemma worker_says_the_queue_in_order_witness :
  snd (_tts_worker queue_abc 9 0) = true /\
  said (fst (_tts_worker queue_abc 9 0)) = [lit "A"; lit "B"; lit "C"] /\
  done_count (fst (_tts_worker queue_abc 9 0)) = 2%nat.
Proof.
  apply (worker_says_the_queue_in_order queue_abc 4 9); [reflexivity | | lia].
  intros i Hi. do 4 (destruct i as [|i]; [discriminate|]). lia.
Defined.

End WorkerFacts.

(** ** main.py *)

Module MainFacts.

Import Main.

Section WithInt.

Variable int : pystr -> option Z.






(** X27: the usage is printed exactly when the first argument is [--help]
    or [-h]; otherwise the first argument is the model and the second the
    path of the configuration, also when they are options or their values. *)
Theorem positional_arguments (argv : list pystr) :
  (parse int argv = Usage <->
   exists a0 a1 more, argv = a0 :: a1 :: more /\ (a1 = lit "--help" \/ a1 = lit "-h")) /\
  (forall s a0 a1 a2 more,
      argv = a0 :: a1 :: a2 :: more -> parse int argv = Start s ->
      s_model s = a1 /\ s_config_path s = a2).
Proof.
  split.
  - unfold parse. split.
    + destruct argv as [|a0 [|a1 more]];
        try (destruct (options int _ _ _); discriminate).
      destruct (str_eqb a1 (lit "--help") || str_eqb a1 (lit "-h")) eqn:E.
      * intros _. exists a0, a1, more. split; [reflexivity|].
        apply orb_true_iff in E as [E|E]; apply str_eqb_eq in E; auto.
      * destruct (options int _ _ _); discriminate.
    + intros (a0 & a1 & more & -> & [->| ->]); reflexivity.
  - intros s a0 a1 a2 more -> . unfold parse.
    destruct (str_eqb a1 (lit "--help") || str_eqb a1 (lit "-h")); [discriminate|].
    destruct (options int _ _ _). intros H; injection H as <-. split; reflexivity.
Qed.

End WithInt.


Lemma positional_arguments_witness :
  exists s,
    parse (fun v => if str_eqb v (lit "45") then Some 45%Z else None)
          [lit "main.py"; lit "--timeout"; lit "45"] = Start s /\
    s_model s = lit "--timeout" /\ s_config_path s = lit "45".
Proof.
  eexists. split; [reflexivity|].
  apply (proj2 (positional_arguments
                  (fun v => if str_eqb v (lit "45") then Some 45%Z else None)
                  [lit "main.py"; lit "--timeout"; lit "45"])
           _ (lit "main.py") (lit "--timeout") (lit "45") []); reflexivity.
Defined.

End MainFacts.

(** ** Traces and ends of composed computations *)

Module EffFacts.

Section Laws.

Context {Ev Ex : Type}.

Lemma fst_bind {A B} (m : Eff.W Ev Ex A) (f : A -> Eff.W Ev Ex B) :
  fst (Eff.bind m f) =
  fst m ++ match snd m with
           | Eff.Val a => fst (f a)
           | _ => []
           end.
Proof.
  destruct m as [t [a|e|]]; simpl; [destruct (f a); reflexivity| |];
    rewrite app_nil_r; reflexivity.
Qed.

Lemma snd_bind {A B} (m : Eff.W Ev Ex A) (f : A -> Eff.W Ev Ex B) :
  snd (Eff.bind m f) =
  match snd m with
  | Eff.Val a => snd (f a)
  | Eff.Exn e => Eff.Exn e
  | Eff.Hang => Eff.Hang
  end.
Proof. destruct m as [t [a|e|]]; simpl; [destruct (f a)| |]; reflexivity. Qed.

Lemma fst_catch {A} (m : Eff.W Ev Ex A) (h : Ex -> option (Eff.W Ev Ex A)) :
  fst (Eff.catch m h) =
  fst m ++ match snd m with
           | Eff.Exn e => match h e with
                          | Some k => fst k
                          | None => []
                          end
           | _ => []
           end.
Proof.
  destruct m as [t [a|e|]]; simpl; rewrite ?app_nil_r; try reflexivity.
  destruct (h e) as [[t' r]|]; simpl; rewrite ?app_nil_r; reflexivity.
Qed.

Lemma snd_catch {A} (m : Eff.W Ev Ex A) (h : Ex -> option (Eff.W Ev Ex A)) :
  snd (Eff.catch m h) =
  match snd m with
  | Eff.Exn e => match h e with
                 | Some k => snd k
                 | None => Eff.Exn e
                 end
  | other => other
  end.
Proof.
  destruct m as [t [a|e|]]; simpl; try reflexivity.
  destruct (h e) as [[t' r]|]; reflexivity.
Qed.

Lemma fst_finally {A} (m : Eff.W Ev Ex A) (f : Eff.W Ev Ex unit) :
  fst (Eff.finally m f) =
  fst m ++ match snd m with
           | Eff.Hang => []
           | _ => fst f
           end.
Proof.
  destruct m as [t [a|e|]], f as [t' [[]|e'|]]; simpl; rewrite ?app_nil_r; reflexivity.
Qed.

Lemma snd_finally {A} (m : Eff.W Ev Ex A) (f : Eff.W Ev Ex unit) :
  snd (Eff.finally m f) =
  match snd m with
  | Eff.Hang => Eff.Hang
  | r => match snd f with
         | Eff.Val _ => r
         | Eff.Exn e => Eff.Exn e
         | Eff.Hang => Eff.Hang
         end
  end.
Proof. destruct m as [t [a|e|]], f as [t' [[]|e'|]]; reflexivity. Qed.

Lemma fst_call {A} (ev : Ev) (a : Ex + A) : fst (Eff.call ev a) = [ev].
Proof. destruct a; reflexivity. Qed.

Lemma snd_call {A} (ev : Ev) (a : Ex + A) :
  snd (Eff.call ev a) = match a with
                        | inr x => Eff.Val x
                        | inl e => Eff.Exn e
                        end.
Proof. destruct a; reflexivity. Qed.

End Laws.

End EffFacts.

(** ** testing2.py *)

Module Testing2Facts.

Import Testing2 Testing2Scenarios EffFacts.

#[local] Arguments str_in : simpl never.
#[local] Arguments lower : simpl never.
#[local] Arguments strip : simpl never.

Ltac eff_norm :=
  repeat first
    [ rewrite fst_bind | rewrite snd_bind | rewrite fst_catch | rewrite snd_catch
    | rewrite fst_finally | rewrite snd_finally | rewrite fst_call | rewrite snd_call ].

Lemma typed_app (t u : list xevent) : typed (t ++ u) = typed t ++ typed u.
Proof.
  induction t as [|ev t IH]; [reflexivity|].
  destruct ev; simpl; try assumption.
  destruct argv as [|a0 [|a1 [|a2 [|a3 [|a4 [|a5 argv]]]]]]; simpl;
    rewrite IH; reflexivity.
Qed.

Lemma record_audio_types_nothing (T : xenv) : typed (fst (record_audio T)) = [].
Proof.
  unfold record_audio. eff_norm.
  destruct (arecord_r T) as [[|e0]|[]]; simpl; try reflexivity.
  destruct (input_r T) as [[|e1]|[]]; simpl; try reflexivity.
  - destruct (stop_r T) as [[|e2]|[]]; reflexivity.
  - destruct (stop_r T) as [[|e2]|[]]; simpl; try reflexivity.
    destruct (reap_r T) as [[|e3]|[]]; simpl; try reflexivity.
    destruct (recorded_r T) as [[|e4]|[|]]; simpl; try reflexivity.
    destruct (getsize_r T) as [[|e5]|n]; reflexivity.
Qed.

Lemma record_audio_returns (T : xenv) : snd (record_audio T) <> Eff.Hang.
Proof.
  unfold record_audio. eff_norm.
  destruct (arecord_r T) as [[|e0]|[]]; simpl; try discriminate.
  destruct (input_r T) as [[|e1]|[]]; simpl; try discriminate.
  - destruct (stop_r T) as [[|e2]|[]]; discriminate.
  - destruct (stop_r T) as [[|e2]|[]]; simpl; try discriminate.
    destruct (reap_r T) as [[|e3]|[]]; simpl; try discriminate.
    destruct (recorded_r T) as [[|e4]|[|]]; simpl; try discriminate.
    destruct (getsize_r T) as [[|e5]|n]; discriminate.
Qed.

Lemma transcribe_spec (T : xenv) :
  typed (fst (transcribe T)) = [] /\
  snd (transcribe T) <> Eff.Hang /\
  forall p, snd (transcribe T) = Eff.Val p -> strip p = p.
Proof.
  unfold transcribe. eff_norm.
  destruct (load_r T) as [[|e0]|[]]; simpl;
    try (repeat split; [discriminate | intros p H; discriminate]).
  destruct (transcribe_r T) as [[|e1]|text]; simpl;
    try (repeat split; [discriminate | intros p H; discriminate]).
  repeat split; [discriminate|].
  intros p H. injection H as <-. apply strip_idem.
Qed.

Lemma type_into_terminal_spec (T : xenv) (text : pystr) :
  (typed (fst (type_into_terminal T text)) = [] \/
   typed (fst (type_into_terminal T text)) = [text]) /\
  snd (type_into_terminal T text) <> Eff.Hang.
Proof.
  unfold type_into_terminal, switch_to_mcphost_window. eff_norm.
  destruct (xdotool_r T 0) as [[|e0]|[]]; simpl; try (split; [left; reflexivity | discriminate]).
  destruct (pause_r T) as [[|e1]|[]]; simpl; try (split; [left; reflexivity | discriminate]).
  destruct (xdotool_r T 1) as [[|e2]|[]]; simpl; try (split; [right; reflexivity | discriminate]).
  destruct (xdotool_r T 2) as [[|e3]|[]]; simpl; split; try (right; reflexivity); discriminate.
Qed.

Lemma cleanup_spec (T : xenv) :
  (fst (cleanup T) = [XExists] \/ fst (cleanup T) = [XExists; XRemove]) /\
  typed (fst (cleanup T)) = [] /\
  snd (cleanup T) <> Eff.Hang.
Proof.
  unfold cleanup. eff_norm.
  destruct (left_r T) as [[|e0]|[|]]; simpl;
    try (repeat split; [left; reflexivity | discriminate]).
  destruct (remove_r T) as [[|e1]|[]]; simpl;
    repeat split; try (right; reflexivity); discriminate.
Qed.

Section Main.

Variable ul : pystr -> pystr.
Variable outside : nat -> xenv.

Local Abbreviation attempt := (attempt ul).
Local Abbreviation one_turn := (one_turn ul).
Local Abbreviation loop := (loop ul outside).
Local Abbreviation main := (main ul outside).
Local Abbreviation worth_typing := (worth_typing ul).

Lemma attempt_types (T : xenv) : Forall worth_typing (typed (fst (attempt T))).
Proof.
  unfold Testing2.attempt. rewrite fst_bind, typed_app, fst_call, snd_call.
  simpl. destruct (start_r T) as [e|[]]; [constructor|].
  rewrite fst_bind, typed_app, record_audio_types_nothing. simpl.
  destruct (snd (record_audio T)) as [[|]|e|]; try constructor.
  destruct (transcribe_spec T) as (Ht & _ & Hs).
  rewrite fst_bind, typed_app, Ht. simpl.
  destruct (snd (transcribe T)) as [p|e|]; try constructor.
  specialize (Hs p eq_refl).
  destruct p as [|c p]; [constructor|].
  destruct (str_in (lower ul (c :: p)) exit_words) eqn:Hexit; [constructor|].
  rewrite fst_bind, typed_app.
  destruct (type_into_terminal_spec T (c :: p)) as [[-> | ->] _];
    destruct (snd (type_into_terminal T (c :: p))) as [[]|e|]; simpl;
    repeat constructor; try assumption; discriminate.
Qed.

Lemma attempt_returns (T : xenv) : snd (attempt T) <> Eff.Hang.
Proof.
  unfold Testing2.attempt. rewrite snd_bind, snd_call.
  destruct (start_r T) as [e|[]]; [discriminate|].
  rewrite snd_bind. pose proof (record_audio_returns T) as Hr.
  destruct (snd (record_audio T)) as [[|]|e|]; try discriminate; try contradiction.
  destruct (transcribe_spec T) as (_ & Ht & _).
  rewrite snd_bind.
  destruct (snd (transcribe T)) as [p|e|]; try discriminate; try contradiction.
  destruct p as [|c p]; [discriminate|].
  destruct (str_in (lower ul (c :: p)) exit_words); [discriminate|].
  rewrite snd_bind.
  destruct (type_into_terminal_spec T (c :: p)) as [_ Hy].
  destruct (snd (type_into_terminal T (c :: p))) as [[]|e|];
    try discriminate; contradiction.
Qed.

Lemma one_turn_types (T : xenv) : Forall worth_typing (typed (fst (one_turn T))).
Proof.
  unfold Testing2.one_turn.
  destruct (cleanup_spec T) as (_ & Hc & _).
  rewrite fst_finally, fst_catch, !typed_app.
  apply Forall_app. split; [apply Forall_app; split; [apply attempt_types|]|].
  - destruct (snd (attempt T)) as [a|[|e]|]; constructor.
  - match goal with |- Forall _ (typed (match ?x with _ => _ end)) => destruct x end;
      rewrite ?Hc; constructor.
Qed.

Lemma one_turn_end (T : xenv) :
  snd (one_turn T) =
  match snd (cleanup T) with
  | Eff.Exn e => Eff.Exn e
  | _ => match snd (attempt T) with
         | Eff.Exn KeyboardInterrupt => Eff.Val Stop
         | other => other
         end
  end.
Proof.
  unfold Testing2.one_turn. rewrite snd_finally, snd_catch.
  pose proof (attempt_returns T) as Ha.
  destruct (cleanup_spec T) as (_ & _ & Hc).
  destruct (snd (attempt T)) as [a|[|e]|]; try contradiction; simpl;
    destruct (snd (cleanup T)) as [[]|e'|]; try contradiction; reflexivity.
Qed.

Lemma one_turn_cleans (T : xenv) :
  exists t0, fst (one_turn T) = t0 ++ fst (cleanup T).
Proof.
  unfold Testing2.one_turn. rewrite fst_finally.
  assert (Hn : snd (Eff.catch (attempt T)
                      (fun e => match e with
                                | KeyboardInterrupt => Some (Eff.ret Stop)
                                | Exc _ => None
                                end)) <> Eff.Hang).
  { rewrite snd_catch. pose proof (attempt_returns T) as Ha.
    destruct (snd (attempt T)) as [a|[|e]|]; try discriminate; contradiction. }
  set (m := Eff.catch _ _) in *.
  destruct (snd m) as [a|e|]; try contradiction; exists (fst m); reflexivity.
Qed.

Lemma loop_S (fuel i : nat) :
  loop (S fuel) i =
  Eff.bind (one_turn (outside i))
    (fun how => match how with
                | Next => loop fuel (S i)
                | Stop => Eff.ret tt
                end).
Proof. reflexivity. Qed.

Lemma loop_skip (k : nat) :
  forall fuel i,
    (forall j, (j < k)%nat -> snd (one_turn (outside (i + j))) = Eff.Val Next) ->
    snd (loop (k + fuel) i) = snd (loop fuel (i + k)).
Proof.
  induction k as [|k IH]; intros fuel i H.
  - rewrite Nat.add_0_r. reflexivity.
  - change (S k + fuel)%nat with (S (k + fuel)). rewrite loop_S, snd_bind.
    specialize (H 0%nat ltac:(lia)) as H0. rewrite Nat.add_0_r in H0. rewrite H0.
    rewrite IH.
    + replace (i + S k)%nat with (S i + k)%nat by lia. reflexivity.
    + intros j Hj. specialize (H (S j) ltac:(lia)).
      replace (S i + j)%nat with (i + S j)%nat by lia. assumption.
Qed.

Lemma loop_ends_after_cleanup (fuel : nat) :
  forall i,
    snd (loop fuel i) <> Eff.Hang ->
    exists k t0,
      (i <= k < i + fuel)%nat /\
      (forall j, (i <= j < k)%nat -> snd (one_turn (outside j)) = Eff.Val Next) /\
      fst (loop fuel i) = t0 ++ fst (cleanup (outside k)).
Proof.
  induction fuel as [|fuel IH]; intros i; [intros H; contradiction H; reflexivity|].
  rewrite loop_S, fst_bind, snd_bind.
  destruct (one_turn_cleans (outside i)) as [t0 Ht].
  destruct (snd (one_turn (outside i))) as [[|]|e|] eqn:Hi; intros H.
  - destruct (IH (S i) H) as (k & t1 & Hk & Hnext & ->).
    exists k, (fst (one_turn (outside i)) ++ t1).
    split; [lia|]. split; [|rewrite app_assoc; reflexivity].
    intros j Hj. destruct (Nat.eq_dec j i) as [->|Hne]; [assumption|].
    apply Hnext. lia.
  - exists i, t0. rewrite app_nil_r. split; [lia|]. split; [intros j Hj; lia | assumption].
  - exists i, t0. rewrite app_nil_r. split; [lia|]. split; [intros j Hj; lia | assumption].
  - contradiction H. reflexivity.
Qed.

(** X28: every text that [main] types into the terminal is a transcript
    that is not empty, has no whitespace at either end and is not one of the
    exit words. *)
Theorem typed_text_is_worth_typing (fuel : nat) :
  Forall worth_typing (typed (fst (main fuel))).
Proof.
  unfold Testing2.main. generalize 0%nat.
  induction fuel as [|fuel IH]; intros i; [constructor|].
  rewrite loop_S, fst_bind, typed_app. apply Forall_app. split.
  - apply one_turn_types.
  - destruct (snd (one_turn (outside i))) as [[|]|e|]; try constructor. apply IH.
Qed.

(** X29: when [main] ends, by leaving the loop or with an exception, the
    last calls it made are those of the [finally] of the turn in which it
    ended: the check for the audio file, and its removal when it was
    there. *)
Theorem script_ends_after_cleanup (fuel : nat) :
  snd (main fuel) <> Eff.Hang ->
  exists k t0,
    (k < fuel)%nat /\
    (forall j, (j < k)%nat -> snd (one_turn (outside j)) = Eff.Val Next) /\
    fst (main fuel) = t0 ++ fst (cleanup (outside k)) /\
    (fst (cleanup (outside k)) = [XExists] /\ left_r (outside k) <> inr true \/
     fst (cleanup (outside k)) = [XExists; XRemove] /\ left_r (outside k) = inr true).
Proof.
  intros H. destruct (loop_ends_after_cleanup fuel 0 H) as (k & t0 & Hk & Hnext & Ht).
  exists k, t0. split; [lia|]. split; [intros j Hj; apply Hnext; lia|].
  split; [assumption|].
  unfold cleanup. rewrite fst_bind, fst_call, snd_call.
  destruct (left_r (outside k)) as [e|[|]].
  - left. split; [reflexivity | discriminate].
  - right. rewrite fst_call. split; reflexivity.
  - left. split; [reflexivity | discriminate].
Qed.

(** X30: an interruption anywhere in the body of a turn ends the script
    without an exception, while an exception of class [Exception] in the body
    leaves [main] as it is (the script ends with a traceback); an exception or
    interruption raised by the [finally] itself leaves [main] whatever the
    body did. *)
Theorem interruption_ends_script_exception_escapes (k fuel : nat) :
  (forall j, (j < k)%nat -> snd (one_turn (outside j)) = Eff.Val Next) ->
  (snd (cleanup (outside k)) = Eff.Val tt ->
   snd (attempt (outside k)) = Eff.Exn KeyboardInterrupt ->
   snd (main (k + S fuel)) = Eff.Val tt) /\
  (forall e, snd (cleanup (outside k)) = Eff.Val tt ->
             snd (attempt (outside k)) = Eff.Exn (Exc e) ->
             snd (main (k + S fuel)) = Eff.Exn (Exc e)) /\
  (forall e, snd (cleanup (outside k)) = Eff.Exn e ->
             snd (main (k + S fuel)) = Eff.Exn e).
Proof.
  intros Hk. unfold Testing2.main.
  rewrite loop_skip by exact Hk.
  simpl (0 + k)%nat. rewrite loop_S, snd_bind, one_turn_end.
  repeat split.
  - intros -> ->. reflexivity.
  - intros e -> ->. reflexivity.
  - intros e ->. reflexivity.
Qed.

End Main.

Lemma script_ends_after_cleanup_witness :
  exists k t0,
    (k < 2)%nat /\
    fst (Testing2.main (map ascii_lower)
           (fun i => match i with
                     | O => heard (lit "list the files")
                     | _ => heard (lit " Exit ")
                     end) 2) = t0 ++ [XExists; XRemove].
Proof.
  destruct (script_ends_after_cleanup (map ascii_lower)
              (fun i => match i with
                        | O => heard (lit "list the files")
                        | _ => heard (lit " Exit ")
                        end) 2)
    as (k & t0 & Hk & _ & Ht & [[_ Hl] | [Hc _]]).
  - vm_compute. discriminate.
  - exfalso. apply Hl. destruct k as [|k]; reflexivity.
  - exists k, t0. split; [assumption|]. rewrite <- Hc. assumption.
Defined.

Lemma interruption_ends_script_exception_escapes_witness :
  snd (Testing2.main (map ascii_lower)
         (fun i => match i with
                   | O => heard (lit "list the files")
                   | _ => interrupted
                   end) 2) = Eff.Val tt /\
  exists e,
    snd (Testing2.main (map ascii_lower)
           (fun i => match i with
                     | O => heard (lit "list the files")
                     | _ => no_arecord
                     end) 2) = Eff.Exn (Exc e).
Proof.
  split.
  - refine (proj1 (interruption_ends_script_exception_escapes (map ascii_lower)
                     (fun i => match i with
                               | O => heard (lit "list the files")
                               | _ => interrupted
                               end) 1 0 _) _ _).
    + intros j Hj. assert (j = 0%nat) as -> by lia. vm_compute. reflexivity.
    + vm_compute. reflexivity.
    + vm_compute. reflexivity.
  - eexists.
    refine (proj1 (proj2 (interruption_ends_script_exception_escapes (map ascii_lower)
                            (fun i => match i with
                                      | O => heard (lit "list the files")
                                      | _ => no_arecord
                                      end) 1 0 _)) _ _ _).
    + intros j Hj. assert (j = 0%nat) as -> by lia. vm_compute. reflexivity.
    + vm_compute. reflexivity.
    + vm_compute. reflexivity.
Defined.

End Testing2Facts.
